(** * Prompt-gamma timing reconstruction: a shallow embedding of
      [forwardPass.py] and [Reconstruction.py]

    The Python sources compute on NumPy arrays of IEEE doubles.  Here every
    array is a list of real numbers and arithmetic is exact: the model agrees
    with the program on every path whose divisors are non-zero, which is why
    the theorems that pass through a division carry that side condition.
    Exceptions are values of [exn]; a function that can raise returns a
    [result]. *)

From Stdlib Require Import String.
From Stdlib Require Import Reals Lra Lia List ZArith Psatz Bool.
From Stdlib Require Import Zfloor Sorted Permutation.
Import ListNotations.
Open Scope R_scope.

(** ** Exceptions and the error monad *)

Inductive exn : Type :=
| KeyError (key : R)                  (* dict lookup of an absent key *)
| IndexError (index size : nat)       (* array index out of bounds *)
| ValueError (msg : string)           (* raised by NumPy / SciPy themselves; the message up to the shapes NumPy reports with it *)
| InvalidInput (msg : string).        (* what an explicit input check would raise; the sources have none *)

(** Python's class hierarchy: [KeyError] and [IndexError] both derive from
    [LookupError]. *)
Definition is_LookupError (e : exn) : bool :=
  match e with
  | KeyError _ | IndexError _ _ => true
  | _ => false
  end.

Definition is_KeyError (e : exn) : bool :=
  match e with
  | KeyError _ => true
  | _ => false
  end.

Inductive result (A : Type) : Type :=
| Ok (a : A)
| Raise (e : exn).
Arguments Ok {A} a.
Arguments Raise {A} e.

Definition bind {A B : Type} (m : result A) (k : A -> result B) : result B :=
  match m with
  | Ok a => k a
  | Raise e => Raise e
  end.

Notation "x <- m ;; k" := (bind m (fun x => k))
  (at level 61, m at next level, right associativity).
Notation "' pat <- m ;; k" := (bind m (fun x => match x with pat => k end))
  (at level 61, pat pattern, m at next level, right associativity).

(** ** One-dimensional NumPy arrays *)

Definition ndarray := list R.

Definition Rltb (x y : R) : bool := if Rlt_dec x y then true else false.
Definition Rleb (x y : R) : bool := if Rle_dec x y then true else false.

(** [zip_with f a b]: elementwise [f] on two arrays of the same shape. *)
Fixpoint zip_with {A B C : Type} (f : A -> B -> C) (a : list A) (b : list B) : list C :=
  match a, b with
  | x :: a', y :: b' => f x y :: zip_with f a' b'
  | _, _ => []
  end.

(** NumPy broadcasting of a binary operator on 1-d operands: equal shapes
    combine elementwise, a length-1 operand is stretched, anything else is a
    [ValueError]. *)
Definition broadcast2 (f : R -> R -> R) (a b : ndarray) : result ndarray :=
  if (length a =? length b)%nat then Ok (zip_with f a b)
  else match a, b with
       | [x], _ => Ok (map (fun y => f x y) b)
       | _, [y] => Ok (map (fun x => f x y) a)
       | _, _ => Raise (ValueError "operands could not be broadcast together")
       end.

(** [a[i] = v] *)
Fixpoint replace_nth (a : ndarray) (i : nat) (v : R) : ndarray :=
  match a, i with
  | [], _ => []
  | _ :: a', O => v :: a'
  | x :: a', S i' => x :: replace_nth a' i' v
  end.

Definition setitem (a : ndarray) (i : nat) (v : R) : result ndarray :=
  if (i <? length a)%nat then Ok (replace_nth a i v)
  else Raise (IndexError i (length a)).

Definition np_sum (a : ndarray) : R := fold_left Rplus a 0.

(** [a.max()] and [a.min()]: a zero-size array has no identity for the
    reduction and NumPy raises [ValueError]. *)
Definition np_max (a : ndarray) : result R :=
  match a with
  | [] => Raise (ValueError "zero-size array to reduction operation maximum which has no identity")
  | x :: a' => Ok (fold_left Rmax a' x)
  end.

Definition np_min (a : ndarray) : result R :=
  match a with
  | [] => Raise (ValueError "zero-size array to reduction operation minimum which has no identity")
  | x :: a' => Ok (fold_left Rmin a' x)
  end.

(** ** forwardPass.py *)

(** The module-level [energies] dictionary is read from [EnergyRanges.csv],
    which is data and not code: it is a parameter of everything below.  A
    dictionary is an association list searched from the front. *)
Definition dict := list (R * R).

Fixpoint dict_get (d : dict) (k : R) : option R :=
  match d with
  | [] => None
  | (k', v) :: d' => if Req_dec_T k k' then Some v else dict_get d' k
  end.

Definition c_light : R := 3e8.

(** *** [velocities] *)

(** Body of the [for z in phantom] loop of [velocities]: the velocity that
    is appended for depth [z]. *)
Definition velocity_at (energies : dict) (initialE z : R) : result R :=
  match dict_get energies z with
  | None => Raise (KeyError z)
  | Some energy =>
      let energy := initialE - energy in
      let energy := if Rle_dec energy 0 then 0 else energy in
      let beta := sqrt (1 - (938.3 / (energy + 938.3)) ^ 2) in
      let velocity := beta * 3e8 in
      Ok velocity
  end.

(** The loop itself, with [vel] the array built so far. *)
Fixpoint velocities_loop (energies : dict) (initialE : R)
         (phantom : ndarray) (vel : ndarray) : result ndarray :=
  match phantom with
  | [] => Ok vel
  | z :: rest =>
      velocity <- velocity_at energies initialE z ;;
      velocities_loop energies initialE rest (vel ++ [velocity])
  end.

Definition velocities (energies : dict) (phantom : ndarray) (initialE : R)
  : result ndarray :=
  vel <- velocities_loop energies initialE phantom [] ;;
  vel <- setitem vel 0 (0.662 * 3e8) ;;
  vel <- setitem vel 1 (0.662 * 3e8) ;;
  Ok vel.

(** *** [ProtonTime] *)

(** The first loop of [ProtonTime]: the reciprocal of each velocity, or [0]
    where the velocity is [0]. *)
Fixpoint integrand_loop (velocities : ndarray) (integrand : ndarray) : ndarray :=
  match velocities with
  | [] => integrand
  | velocity :: rest =>
      if Req_dec_T velocity 0
      then integrand_loop rest (integrand ++ [0])
      else integrand_loop rest (integrand ++ [1 / velocity])
  end.

(** [np.diff(a)] is [a[1:] - a[:-1]]. *)
Definition np_diff (a : ndarray) : ndarray :=
  zip_with Rminus (tl a) (removelast a).

Fixpoint cumsum_from (acc : R) (a : ndarray) : ndarray :=
  match a with
  | [] => []
  | x :: a' => (acc + x) :: cumsum_from (acc + x) a'
  end.

Definition np_cumsum (a : ndarray) : ndarray := cumsum_from 0 a.

(** SciPy's [cumulative_trapezoid(y, x, initial=0)] on 1-d input: the two
    shape checks, then [cumsum(d * (y[1:] + y[:-1]) / 2)] with the initial
    value put in front. *)
Definition cumulative_trapezoid (y x : ndarray) : result ndarray :=
  if (length y =? 0)%nat
  then Raise (ValueError "At least one point is required along `axis`.")
  else
    let d := np_diff x in
    if negb (length d =? length y - 1)%nat
    then Raise (ValueError "If given, length of x along axis must be the same as y.")
    else
      let res := np_cumsum
                   (zip_with (fun di s => di * s / 2) d
                             (zip_with Rplus (tl y) (removelast y))) in
      Ok (0 :: res).

Definition ProtonTime (velocities : ndarray) (phantom : ndarray) : result ndarray :=
  let integrand := integrand_loop velocities [] in
  tp <- cumulative_trapezoid integrand phantom ;;
  Ok tp.

(** *** [CreateBraggCurve] *)

(** [a[mask]]: the entries of [a] where the boolean mask holds, in order. *)
Fixpoint mask_select (a : ndarray) (mask : list bool) : ndarray :=
  match a, mask with
  | x :: a', m :: mask' =>
      if m then x :: mask_select a' mask' else mask_select a' mask'
  | _, _ => []
  end.

(** [a[mask] = values]: the masked positions receive the values in order;
    NumPy raises [ValueError] when their number differs from the number of
    selected positions. *)
Fixpoint mask_assign (a : ndarray) (mask : list bool) (values : ndarray)
  : result ndarray :=
  match a, mask with
  | x :: a', m :: mask' =>
      if m then
        match values with
        | v :: values' => r <- mask_assign a' mask' values' ;; Ok (v :: r)
        | [] => Raise (ValueError "boolean array indexing assignment cannot assign the input values")
        end
      else r <- mask_assign a' mask' values ;; Ok (x :: r)
  | _, _ =>
      match values with
      | [] => Ok a
      | _ :: _ => Raise (ValueError "boolean array indexing assignment cannot assign the input values")
      end
  end.

Definition CreateBraggCurve (depths : ndarray) (braggPosition : R)
           (peakHeight entranceDose peakWidth falloffSteepness : R)
  : result ndarray :=
  (* Entrance region (constant) *)
  let entrance := map (fun _ => entranceDose * 1) depths in
  (* Bragg peak (gaussian) *)
  let peak := map (fun d => peakHeight *
                            exp ((- ((d - braggPosition) ^ 2)) / (2 * peakWidth ^ 2)))
                  depths in
  (* Apply rapid fall-off after peak *)
  let falloffMask := map (fun d => Rltb braggPosition d) depths in
  let falloff := map (fun d => exp ((- (d - braggPosition)) / falloffSteepness))
                     (mask_select depths falloffMask) in
  (* Combine all regions *)
  let dose := zip_with Rplus entrance peak in
  dose <- mask_assign dose falloffMask
            (zip_with Rmult
               (zip_with Rplus (mask_select entrance falloffMask)
                               (mask_select peak falloffMask))
               falloff) ;;
  Ok dose.

(** The call [CreateBraggCurve(depths, braggPosition)] with the keyword
    defaults of the signature. *)
Definition CreateBraggCurve_default (depths : ndarray) (braggPosition : R)
  : result ndarray :=
  CreateBraggCurve depths braggPosition 1.0 0.3 8 5.

(** The dose that [CreateBraggCurve] leaves at one depth [d] once the masked
    assignment is done (the pointwise reading of its array expressions). *)
Definition bragg_dose_at
           (braggPosition peakHeight entranceDose peakWidth falloffSteepness d : R) : R :=
  if Rltb braggPosition d
  then (entranceDose * 1 +
        peakHeight * exp ((- ((d - braggPosition) ^ 2)) / (2 * peakWidth ^ 2)))
       * exp ((- (d - braggPosition)) / falloffSteepness)
  else entranceDose * 1 +
       peakHeight * exp ((- ((d - braggPosition) ^ 2)) / (2 * peakWidth ^ 2)).

(** *** [SimulateBurst] *)

(** The process-wide generator behind [np.random]: a state from which single
    variates are drawn.  What distribution the variates follow is the
    generator's business; the program only decides how many are drawn, with
    which parameters, and where they go. *)
Record RandomSource : Type := {
  rng : Type;
  poisson1 : R -> rng -> nat * rng;       (* one Poisson variate of mean [lam] *)
  normal1 : R -> R -> rng -> R * rng      (* one normal variate, [loc] and [scale] *)
}.

(** The largest mean that [np.random.poisson] accepts: with a 64-bit C
    [long], [np.iinfo('l').max - np.sqrt(np.iinfo('l').max) * 10] as a
    double, about [9.22e18]. *)
Definition POISSON_LAM_MAX : R := 9223372006484770816.

Section Random.
Variable RS : RandomSource.

Fixpoint poisson_each (lam : ndarray) (g : rng RS) : list nat * rng RS :=
  match lam with
  | [] => ([], g)
  | l :: lam' =>
      let (k, g1) := poisson1 RS l g in
      let (ks, g2) := poisson_each lam' g1 in
      (k :: ks, g2)
  end.

Fixpoint normal_each (loc scale : R) (size : nat) (g : rng RS) : ndarray * rng RS :=
  match size with
  | O => ([], g)
  | S size' =>
      let (x, g1) := normal1 RS loc scale g in
      let (xs, g2) := normal_each loc scale size' g1 in
      (x :: xs, g2)
  end.

(** [np.random.poisson(lam=array)]: one draw per entry.  NumPy checks the
    means before it draws: a mean above [POISSON_LAM_MAX] is rejected first,
    a negative mean next, both with [ValueError]. *)
Definition random_poisson (lam : ndarray) (g : rng RS)
  : result (list nat * rng RS) :=
  if existsb (fun l => Rltb POISSON_LAM_MAX l) lam
  then Raise (ValueError "lam value too large")
  else if existsb (fun l => Rltb l 0) lam
  then Raise (ValueError "lam < 0 or lam contains NaNs")
  else Ok (poisson_each lam g).

(** [np.random.poisson(lam, size=shape)] with a scalar mean, which is
    checked once, whatever the size. *)
Definition random_poisson_size (lam : R) (size : nat) (g : rng RS)
  : result (list nat * rng RS) :=
  if Rltb lam 0
  then Raise (ValueError "lam < 0 or lam is NaN")
  else if Rltb POISSON_LAM_MAX lam
  then Raise (ValueError "lam value too large")
  else Ok (poisson_each (repeat lam size) g).

(** [np.random.normal(loc, scale, size=shape)]. *)
Definition random_normal (loc scale : R) (size : nat) (g : rng RS)
  : result (ndarray * rng RS) :=
  if Rltb scale 0
  then Raise (ValueError "scale < 0")
  else Ok (normal_each loc scale size g).

(** [np.repeat(a, repeats)]: [repeats] is broadcast against [a]. *)
Definition np_repeat (a : ndarray) (repeats : list nat) : result ndarray :=
  if (length repeats =? length a)%nat
  then Ok (concat (zip_with (fun x n => repeat x n) a repeats))
  else match repeats with
       | [n] => Ok (concat (map (fun x => repeat x n) a))
       | _ => Raise (ValueError "operands could not be broadcast together")
       end.

(** Lines 181-194: the detected counts [k], signal plus background. *)
Definition detected_counts (phantom distMag : ndarray) (peak pPB yiel dArea mu : R)
           (g : rng RS) : result (list nat * rng RS) :=
  dose <- CreateBraggCurve_default phantom peak ;;
  m <- np_max dose ;;
  let dose := map (fun d => d / m) dose in
  let nEmit := map (fun d => pPB * yiel * d) dose in
  let attenuationFactor := map (fun d => exp (- mu * (d / 10))) distMag in
  nEmitSolid <- broadcast2 Rmult nEmit
                  (map (fun d => dArea / (4 * PI * (d / 1000) ^ 2)) distMag) ;;
  mean <- broadcast2 Rmult nEmitSolid attenuationFactor ;;
  '(k, g) <- random_poisson mean g ;;
  '(background, g) <- random_poisson_size 2 (length k) g ;;
  let k := zip_with Nat.add k background in
  Ok (k, g).

(** Lines 197-198: the idealized time of each depth bin. *)
Definition base_times (distMag tp : ndarray) : result ndarray :=
  let yTOF := map (fun d => d / 3e8) distMag in
  broadcast2 Rplus yTOF tp.

Definition SimulateBurst (phantom distMag : ndarray) (peak pPB yiel dArea mu : R)
           (tp : ndarray) (dTRes : R) (g : rng RS)
  : result (ndarray * rng RS) :=
  '(k, g) <- detected_counts phantom distMag peak pPB yiel dArea mu g ;;
  baseTime <- base_times distMag tp ;;
  measuredTime <- np_repeat baseTime k ;;
  '(timingJitter, g) <- random_normal 0 dTRes (length measuredTime) g ;;
  let measuredTime := zip_with Rplus measuredTime timingJitter in
  Ok (measuredTime, g).

End Random.

(** A generator to run the model on: its state counts the variates drawn so
    far, every Poisson draw comes out as [1] and every normal draw as its
    mean.  One sample path among all those a real generator can take. *)
Definition counting_source : RandomSource :=
  {| rng := nat;
     poisson1 := fun _ g => (1%nat, S g);
     normal1 := fun loc _ g => (loc, S g) |}.

(** ** Reconstruction.py *)

(** [np.arange(start, stop, step)] on reals: [ceil((stop - start) / step)]
    values [start + i * step], none when that number is not positive.  A zero
    step has no length and is rejected. *)
Definition np_arange (start stop step : R) : result ndarray :=
  if Req_dec_T step 0
  then Raise (ValueError "arange: cannot compute length")
  else
    let n := Z.to_nat (Zceil ((stop - start) / step)) in
    Ok (map (fun i => start + INR i * step) (seq 0 n)).

(** [np.any(bin_edges[:-1] > bin_edges[1:])], negated. *)
Fixpoint monotonic (edges : ndarray) : bool :=
  match edges with
  | x :: (y :: _) as rest => negb (Rltb y x) && monotonic rest
  | _ => true
  end.

(** [sorted_a.searchsorted(v, 'left')] is the number of samples below [v];
    with ['right'] the number of samples not above [v].  Neither depends on
    the order of the samples, so the sort is not modelled. *)
Definition searchsorted_left (a : ndarray) (v : R) : Z :=
  Z.of_nat (length (filter (fun x => Rltb x v) a)).

Definition searchsorted_right (a : ndarray) (v : R) : Z :=
  Z.of_nat (length (filter (fun x => Rleb x v) a)).

(** [v[-1:]] *)
Definition last_slice (v : ndarray) : ndarray :=
  match v with
  | [] => []
  | _ :: _ => [last v 0]
  end.

Definition search_sorted_inclusive (a v : ndarray) : list Z :=
  map (searchsorted_left a) (removelast v) ++
  map (searchsorted_right a) (last_slice v).

Definition diffZ (c : list Z) : list Z :=
  zip_with Z.sub (tl c) (removelast c).

(** [np.histogram(a, bins=edges)] with explicit edges: the cumulative counts
    at the edges, differenced.  All bins are half-open except the last. *)
Definition np_histogram (a bins : ndarray) : result (list Z * ndarray) :=
  if monotonic bins
  then
    let cum_n := search_sorted_inclusive a bins in
    Ok (diffZ cum_n, bins)
  else Raise (ValueError "`bins` must increase monotonically, when an array").

(** What the documentation of [np.histogram] promises for explicit edges:
    bin [i] counts the samples of the half-open interval from edge [i] to
    edge [i+1], and the last bin also takes the samples on its right edge.
    [np_histogram] above follows the implementation; the two are compared
    in [np_histogram_bin_counts]. *)
Fixpoint bin_counts (a : ndarray) (edges : ndarray) : list Z :=
  match edges with
  | e0 :: ((e1 :: r) as rest) =>
      Z.of_nat (length (filter (fun x => Rleb e0 x &&
                                         match r with
                                         | [] => Rleb x e1
                                         | _ :: _ => Rltb x e1
                                         end) a))
      :: bin_counts a rest
  | _ => []
  end.

(** Lines 38-43: the normalized Gaussian weights of one time bin. *)
Definition gaussian_weights (tExpected : ndarray) (tBin sigma : R) : ndarray :=
  let tDiffs := map (fun t => Rabs (t - tBin)) tExpected in
  let weights := map (fun d => exp ((- (d ^ 2)) / (2 * sigma ^ 2))) tDiffs in
  let total := np_sum weights in
  map (fun w => w / total) weights.

(** [reconstructed += x]: the right operand is broadcast to the shape of
    the left one, which cannot change.  Two shapes that do not broadcast at
    all are one error; a left operand of length [1] that would have to grow
    to the shape of the right one is another. *)
Definition iadd (reconstructed x : ndarray) : result ndarray :=
  if (length x =? length reconstructed)%nat
  then Ok (zip_with Rplus reconstructed x)
  else match x with
       | [v] => Ok (map (fun r => r + v) reconstructed)
       | _ =>
           if (length reconstructed =? 1)%nat
           then Raise (ValueError "non-broadcastable output operand")
           else Raise (ValueError "operands could not be broadcast together")
       end.

(** The [for i, (tBin, count) in enumerate(zip(tBinCentres, tCounts))] loop. *)
Fixpoint reconstruction_loop (tExpected : ndarray) (sigma : R)
         (bins : list (R * Z)) (reconstructed : ndarray) : result ndarray :=
  match bins with
  | [] => Ok reconstructed
  | (tBin, count) :: rest =>
      if (count =? 0)%Z
      then reconstruction_loop tExpected sigma rest reconstructed
      else
        let weights := gaussian_weights tExpected tBin sigma in
        reconstructed <- iadd reconstructed (map (fun w => IZR count * w) weights) ;;
        reconstruction_loop tExpected sigma rest reconstructed
  end.

(** Line 27: the time histogram of the detector data. *)
Definition time_histogram (detectorData : ndarray) (tBinWidth : R)
  : result (list Z * ndarray) :=
  lo <- np_min detectorData ;;
  hi <- np_max detectorData ;;
  bins <- np_arange lo (hi + tBinWidth) tBinWidth ;;
  np_histogram detectorData bins.

(** Lines 23-45: [reconstructed] as it stands when the loop is over. *)
Definition accumulate (phantom detectorData tp gammaTOF : ndarray)
           (tBinWidth sigma : R) : result ndarray :=
  tExpected <- broadcast2 Rplus tp gammaTOF ;;
  '(tCounts, tBinEdges) <- time_histogram detectorData tBinWidth ;;
  let tBinCentres :=
    zip_with (fun a b => (a + b) / 2) (removelast tBinEdges) (tl tBinEdges) in
  let reconstructed := map (fun _ => 0) phantom in
  reconstruction_loop tExpected sigma (combine tBinCentres tCounts) reconstructed.

(** The [aFactor] argument is a scalar (the default [1]) or an array. *)
Inductive operand : Type :=
| Scalar (x : R)
| Array (a : ndarray).

Definition mul_operand (a : ndarray) (b : operand) : result ndarray :=
  match b with
  | Scalar x => Ok (map (fun v => v * x) a)
  | Array b' => broadcast2 Rmult a b'
  end.

Definition Reconstruction (phantom detectorData tp gammaTOF : ndarray)
           (tBinWidth sigma dArea : R) (distMag : ndarray) (aFactor : operand)
  : result ndarray :=
  reconstructed <- accumulate phantom detectorData tp gammaTOF tBinWidth sigma ;;
  let sensitivity := map (fun d => dArea / (4 * PI * (d / 1000) ^ 2)) distMag in
  denominator <- mul_operand sensitivity aFactor ;;
  correctedRecon <- broadcast2 Rdiv reconstructed denominator ;;
  Ok correctedRecon.


(** ** The rest of forwardPass.py and the driver script *)

(** *** [loadEnergyDict] *)

(** [d[k] = v]: the new binding hides an older one of the same key. *)
Definition dict_set (d : dict) (k v : R) : dict := (k, v) :: d.

(** [dict(zip(df['Range_mm'], df['Energy_MeV']))].  Reading the CSV file is
    pandas' work; the function is modelled from the two columns on.  [zip]
    stops at the shorter column and [dict] inserts the rows in order, so a
    later row replaces an earlier one of the same range. *)
Definition loadEnergyDict (Range_mm Energy_MeV : ndarray) : dict :=
  fold_left (fun d row => dict_set d (fst row) (snd row))
            (combine Range_mm Energy_MeV) [].

(** *** [CreatePhantom] *)

(** [np.linspace(start, stop, num)] with the end point included: [num]
    samples [start + i * step] with [step = (stop - start) / (num - 1)],
    the last one then overwritten with [stop]. *)
Definition np_linspace (start stop : R) (num : nat) : ndarray :=
  match num with
  | O => []
  | S div =>
      let step := (stop - start) / INR div in
      let y := map (fun i => INR i * step + start) (seq 0 num) in
      match div with
      | O => y
      | S _ => removelast y ++ [stop]
      end
  end.

(** A two-column array, one row per bin. *)
Definition points := list (R * R).

Definition CreatePhantom : ndarray * points :=
  let phantom := np_linspace 0 300 301 in
  let phantomXY := combine phantom (map (fun _ => 0) phantom) in
  (phantom, phantomXY).

(** *** [CalculateDistances] *)

(** Both loops append one value per element of the list they run over. *)
Definition CalculateDistances (phantomXY : points) (detectorLocation : R * R)
  : points * ndarray :=
  let distances :=
    map (fun bin => (fst detectorLocation - fst bin, snd detectorLocation - snd bin))
        phantomXY in
  let distMag :=
    map (fun distance => sqrt ((fst distance) ^ 2 + (snd distance) ^ 2)) distances in
  (distances, distMag).

(** *** Main.py, lines 48-55: one burst of the driver loop *)

(** [a[i]] *)
Definition getitem (a : ndarray) (i : nat) : result R :=
  match nth_error a i with
  | Some x => Ok x
  | None => Raise (IndexError i (length a))
  end.

(** [np.argmax(a)]: the first index that holds the maximum; an empty array
    has none. *)
Fixpoint argmax_from (a : ndarray) (i best : nat) (best_value : R) : nat :=
  match a with
  | [] => best
  | x :: a' =>
      if Rltb best_value x
      then argmax_from a' (S i) i x
      else argmax_from a' (S i) best best_value
  end.

Definition np_argmax (a : ndarray) : result nat :=
  match a with
  | [] => Raise (ValueError "attempt to get argmax of an empty sequence")
  | x :: a' => Ok (argmax_from a' 1 0 x)
  end.

(** Lines 53-54: the estimated peak depth and its distance to the target. *)
Definition peak_estimate (phantom reconstruction : ndarray) : result (R * R) :=
  i <- np_argmax reconstruction ;;
  peakPosition <- getitem phantom i ;;
  let peakError := Rabs (peakPosition - 150) in
  Ok (peakPosition, peakError).

(** Lines 11-15, 28-29, 40 and the body of the [for burst in pPB] loop, for
    the one burst size [5e13] of the script; plotting and printing left
    out.  The energy table and the generator are the two inputs the script
    takes from its environment. *)
Definition Main_burst (RS : RandomSource) (energies : dict) (g : rng RS)
  : result (R * R * rng RS) :=
  let detectorLocation := (350, 50) in
  let peak := 150 in
  let '(phantom, phantomXY) := CreatePhantom in
  let '(distances, distMag) := CalculateDistances phantomXY detectorLocation in
  velocities <- velocities energies phantom 145.722222 ;;
  tp <- ProtonTime velocities phantom ;;
  let Y := 1e-4 in
  let detectorArea := 0.0025 in
  let mu := 0.06 in
  let dTR := 0.5e-9 in
  let gammaTOF := map (fun d => d / 3e8) distMag in
  '(detectorData, g) <-
    SimulateBurst RS phantom distMag peak 5e13 Y detectorArea mu tp dTR g ;;
  reconstruction <-
    Reconstruction phantom detectorData tp gammaTOF 0.05e-9 dTR detectorArea distMag
                   (Array (map (fun d => exp (- mu * (d / 10))) distMag)) ;;
  '(peakPosition, peakError) <- peak_estimate phantom reconstruction ;;
  Ok (peakPosition, peakError, g).

(** A generator that detects nothing: every Poisson draw is [0]. *)
Definition silent_source : RandomSource :=
  {| rng := nat;
     poisson1 := fun _ g => (0%nat, S g);
     normal1 := fun loc _ g => (loc, S g) |}.

(** * Properties *)

(** ** General facts about the array operations *)

Lemma bind_Ok_inv {A B : Type} (m : result A) (k : A -> result B) (b : B) :
  bind m k = Ok b -> exists a, m = Ok a /\ k a = Ok b.
Proof.
  destruct m as [a | e]; simpl; intros H.
  - exists a. split; [reflexivity | exact H].
  - discriminate H.
Qed.

Lemma zip_with_length {A B C : Type} (f : A -> B -> C) (a : list A) (b : list B) :
  length (zip_with f a b) = Nat.min (length a) (length b).
Proof.
  revert b. induction a as [| x a IH]; intros [| y b]; simpl; auto.
Qed.

Lemma zip_with_nth {A B C : Type} (f : A -> B -> C) (a : list A) (b : list B)
      (i : nat) (da : A) (db : B) (dc : C) :
  (i < length a)%nat -> (i < length b)%nat ->
  nth i (zip_with f a b) dc = f (nth i a da) (nth i b db).
Proof.
  revert b i. induction a as [| x a IH]; intros [| y b] [| i]; simpl; intros Ha Hb;
    try lia; auto.
  apply IH; lia.
Qed.

Lemma replace_nth_length (a : ndarray) (i : nat) (v : R) :
  length (replace_nth a i v) = length a.
Proof.
  revert i. induction a as [| x a IH]; intros [| i]; simpl; auto.
Qed.

Lemma replace_nth_Forall (P : R -> Prop) (a : ndarray) (i : nat) (v : R) :
  P v -> Forall P a -> Forall P (replace_nth a i v).
Proof.
  intros Hv. revert i. induction a as [| x a IH]; intros [| i] Ha; simpl; auto.
  - inversion Ha; subst. constructor; assumption.
  - inversion Ha; subst. constructor; auto.
Qed.

Lemma replace_nth_same (a : ndarray) (i : nat) (v d : R) :
  (i < length a)%nat -> nth i (replace_nth a i v) d = v.
Proof.
  revert i. induction a as [| x a IH]; intros [| i]; simpl; intros H; try lia; auto.
  apply IH. lia.
Qed.

Lemma replace_nth_other (a : ndarray) (i j : nat) (v d : R) :
  i <> j -> nth j (replace_nth a i v) d = nth j a d.
Proof.
  revert i j. induction a as [| x a IH]; intros [| i] [| j]; simpl; intros H;
    try congruence; auto.
Qed.

(** ** Velocity profile *)

Section Velocities.
Variable energies : dict.
Variable initialE : R.

Lemma beta_bounds (energy : R) :
  0 <= energy ->
  0 <= sqrt (1 - (938.3 / (energy + 938.3)) ^ 2) <= 1.
Proof.
  intros He.
  assert (Hpos : 0 < energy + 938.3) by lra.
  assert (Hq : 0 < 938.3 / (energy + 938.3) <= 1).
  { split.
    - apply Rdiv_lt_0_compat; lra.
    - apply (Rmult_le_reg_r (energy + 938.3)); [exact Hpos |].
      unfold Rdiv. rewrite Rmult_assoc, Rinv_l by lra. lra. }
  set (q := 938.3 / (energy + 938.3)) in *.
  assert (Hq2 : 0 <= 1 - q ^ 2 <= 1) by nra.
  split.
  - apply sqrt_pos.
  - apply Rle_trans with (sqrt 1).
    + apply sqrt_le_1_alt. lra.
    + rewrite sqrt_1. lra.
Qed.

Lemma velocity_at_bounds (z v : R) :
  velocity_at energies initialE z = Ok v -> 0 <= v <= c_light.
Proof.
  unfold velocity_at, c_light.
  destruct (dict_get energies z) as [e |]; [| discriminate].
  cbv zeta. intros H. injection H as <-.
  set (en := if Rle_dec (initialE - e) 0 then 0 else initialE - e).
  assert (Hen : 0 <= en).
  { unfold en. destruct (Rle_dec (initialE - e) 0); lra. }
  pose proof (beta_bounds en Hen) as Hb. unfold pow in Hb |- *.
  set (b := sqrt _) in *. nra.
Qed.

(** Past the end of range the remaining energy is clamped and the proton
    stands still. *)
Lemma velocity_at_stopped (z e : R) :
  dict_get energies z = Some e -> initialE <= e ->
  velocity_at energies initialE z = Ok 0.
Proof.
  intros Hz Hle. unfold velocity_at. rewrite Hz.
  destruct (Rle_dec (initialE - e) 0) as [_ | n]; [| lra].
  f_equal.
  replace (1 - (938.3 / (0 + 938.3)) ^ 2) with 0 by (field; lra).
  rewrite sqrt_0. ring.
Qed.

Lemma velocities_loop_sound (phantom vel vel' : ndarray) (P : R -> Prop) :
  (forall z v, velocity_at energies initialE z = Ok v -> P v) ->
  velocities_loop energies initialE phantom vel = Ok vel' ->
  length vel' = (length vel + length phantom)%nat /\
  (Forall P vel -> Forall P vel').
Proof.
  intros HP. revert vel. induction phantom as [| z rest IH]; simpl; intros vel H.
  - injection H as <-. split; [lia | auto].
  - apply bind_Ok_inv in H. destruct H as (v & Hv & H).
    apply IH in H. destruct H as [Hlen Hall].
    rewrite length_app in Hlen. simpl in Hlen. split; [lia |].
    intros Hvel. apply Hall. apply Forall_app. split; [exact Hvel |].
    constructor; [| constructor]. eapply HP; eauto.
Qed.

Lemma velocities_loop_total (phantom vel : ndarray) :
  Forall (fun z => dict_get energies z <> None) phantom ->
  exists vel', velocities_loop energies initialE phantom vel = Ok vel'.
Proof.
  revert vel. induction phantom as [| z rest IH]; simpl; intros vel Hk.
  - eauto.
  - inversion Hk as [| ? ? Hz Hrest]; subst.
    unfold velocity_at at 1.
    destruct (dict_get energies z) as [e |]; [| congruence].
    simpl. apply IH. exact Hrest.
Qed.

(** The first depth that the table misses is the one the [KeyError] names. *)
Lemma velocities_loop_missing (phantom vel : ndarray) :
  Exists (fun z => dict_get energies z = None) phantom ->
  exists z, In z phantom /\ dict_get energies z = None /\
            velocities_loop energies initialE phantom vel = Raise (KeyError z).
Proof.
  revert vel. induction phantom as [| z rest IH]; simpl; intros vel Hex.
  - inversion Hex.
  - unfold velocity_at at 1.
    destruct (dict_get energies z) as [e |] eqn:Hz.
    + simpl. inversion Hex as [? ? Hnow | ? ? Hlater]; subst; [congruence |].
      match goal with
      | |- context [velocities_loop _ _ rest ?v] =>
          destruct (IH v Hlater) as (z' & Hin & Hnone & Hrun)
      end.
      exists z'. repeat split; auto.
    + simpl. exists z. repeat split; auto.
Qed.

Lemma velocities_loop_no_KeyError (phantom vel : ndarray) (e : exn) :
  Forall (fun z => dict_get energies z <> None) phantom ->
  velocities_loop energies initialE phantom vel <> Raise e.
Proof.
  intros Hk H. destruct (velocities_loop_total phantom vel Hk) as [vel' Hv].
  congruence.
Qed.

End Velocities.

(** The two assignments that follow the loop succeed on a profile of at
    least two bins. *)
Lemma velocities_override (energies : dict) (phantom : ndarray) (initialE : R)
      (v0 : ndarray) :
  velocities_loop energies initialE phantom [] = Ok v0 ->
  (2 <= length v0)%nat ->
  velocities energies phantom initialE
  = Ok (replace_nth (replace_nth v0 0 (0.662 * 3e8)) 1 (0.662 * 3e8)).
Proof.
  intros Hv0 Hlen. unfold velocities. rewrite Hv0. cbn [bind]. unfold setitem.
  replace (0 <? length v0)%nat with true by (symmetry; apply Nat.ltb_lt; lia).
  cbn [bind]. rewrite replace_nth_length.
  replace (1 <? length v0)%nat with true by (symmetry; apply Nat.ltb_lt; lia).
  reflexivity.
Qed.

(** C5: when the table covers every depth of the axis (and the axis has the
    two entrance bins that the override writes to), [velocities] returns a
    profile aligned with the axis in which every entry lies between [0] and
    [c = 3e8]; its first two entries are the override [0.662 * c]. *)
Theorem velocities_within_light_speed (energies : dict) (phantom : ndarray) (initialE : R) :
  Forall (fun z => dict_get energies z <> None) phantom ->
  (2 <= length phantom)%nat ->
  exists vel,
    velocities energies phantom initialE = Ok vel /\
    length vel = length phantom /\
    Forall (fun v => 0 <= v <= c_light) vel /\
    nth 0 vel 0 = 0.662 * c_light /\
    nth 1 vel 0 = 0.662 * c_light.
Proof.
  intros Hk Hlen.
  destruct (velocities_loop_total energies initialE phantom [] Hk) as [v0 Hv0].
  destruct (velocities_loop_sound energies initialE phantom [] v0
              (fun v => 0 <= v <= c_light)
              (velocity_at_bounds energies initialE) Hv0) as [Hl Hall].
  simpl in Hl. specialize (Hall (Forall_nil _)).
  assert (Hc : 0 <= 0.662 * 3e8 <= c_light) by (unfold c_light; lra).
  exists (replace_nth (replace_nth v0 0 (0.662 * 3e8)) 1 (0.662 * 3e8)).
  split; [apply velocities_override; [exact Hv0 | lia] |].
  repeat split.
  - rewrite !replace_nth_length. lia.
  - apply replace_nth_Forall; [exact Hc |].
    apply replace_nth_Forall; [exact Hc | exact Hall].
  - rewrite replace_nth_other by lia. rewrite replace_nth_same by lia.
    unfold c_light. reflexivity.
  - rewrite replace_nth_same by (rewrite replace_nth_length; lia).
    unfold c_light. reflexivity.
Qed.

Lemma velocities_within_light_speed_witness :
  exists vel,
    velocities [(0, 0); (1, 10); (2, 200)] [0; 1; 2] 145.722222 = Ok vel /\
    length vel = length [0; 1; 2] /\
    Forall (fun v => 0 <= v <= c_light) vel /\
    nth 0 vel 0 = 0.662 * c_light /\
    nth 1 vel 0 = 0.662 * c_light.
Proof.
  apply (velocities_within_light_speed [(0, 0); (1, 10); (2, 200)] [0; 1; 2] 145.722222).
  - repeat constructor; simpl;
      repeat (match goal with |- context [Req_dec_T ?a ?b] => destruct (Req_dec_T a b); try lra end);
      discriminate.
  - simpl. lia.
Defined.

(** C9: [velocities] raises a [LookupError] (the [KeyError] of the first
    depth that is missing) as soon as some depth of the axis is not a key of
    the table; when every depth is a key no [KeyError] is raised, and an axis
    with its two entrance bins yields a profile. *)
Theorem velocities_lookup_failure (energies : dict) (phantom : ndarray) (initialE : R) :
  (Exists (fun z => dict_get energies z = None) phantom ->
   exists z, In z phantom /\ dict_get energies z = None /\
             velocities energies phantom initialE = Raise (KeyError z) /\
             is_LookupError (KeyError z) = true) /\
  (Forall (fun z => dict_get energies z <> None) phantom ->
   (forall e, velocities energies phantom initialE = Raise e -> is_KeyError e = false) /\
   ((2 <= length phantom)%nat ->
    exists vel, velocities energies phantom initialE = Ok vel)).
Proof.
  split.
  - intros Hex.
    destruct (velocities_loop_missing energies initialE phantom [] Hex)
      as (z & Hin & Hnone & Hrun).
    exists z. unfold velocities. rewrite Hrun. simpl. auto.
  - intros Hk. split.
    + intros e He. unfold velocities in He.
      destruct (velocities_loop_total energies initialE phantom [] Hk) as [v0 Hv0].
      rewrite Hv0 in He. simpl in He. unfold setitem in He.
      destruct (0 <? length v0)%nat; simpl in He.
      * destruct (1 <? length (replace_nth v0 0 (0.662 * 3e8)))%nat; simpl in He.
        -- discriminate He.
        -- injection He as <-. reflexivity.
      * injection He as <-. reflexivity.
    + intros Hlen.
      destruct (velocities_loop_total energies initialE phantom [] Hk) as [v0 Hv0].
      destruct (velocities_loop_sound energies initialE phantom [] v0
                  (fun _ => True) (fun _ _ _ => I) Hv0) as [Hl _].
      simpl in Hl. eexists. apply (velocities_override _ _ _ v0 Hv0). lia.
Qed.

Lemma velocities_lookup_failure_witness :
  (exists z, In z [0; 1; 7] /\ dict_get [(0, 0); (1, 10)] z = None /\
             velocities [(0, 0); (1, 10)] [0; 1; 7] 145.722222 = Raise (KeyError z) /\
             is_LookupError (KeyError z) = true) /\
  (exists vel, velocities [(0, 0); (1, 10)] [0; 1] 145.722222 = Ok vel).
Proof.
  split.
  - apply (proj1 (velocities_lookup_failure [(0, 0); (1, 10)] [0; 1; 7] 145.722222)).
    apply Exists_cons_tl, Exists_cons_tl, Exists_cons_hd. simpl.
    destruct (Req_dec_T 7 0); [lra |]. destruct (Req_dec_T 7 1); [lra |]. reflexivity.
  - apply (proj2 (velocities_lookup_failure [(0, 0); (1, 10)] [0; 1] 145.722222)).
    + repeat constructor; simpl.
      * destruct (Req_dec_T 0 0); [discriminate | lra].
      * destruct (Req_dec_T 1 0); [lra |]. destruct (Req_dec_T 1 1); [discriminate | lra].
    + simpl. lia.
Defined.

(** An axis shorter than two bins cannot take the entrance override: the
    assignment to index [1] raises [IndexError] even though every depth is a
    key of the table. *)
Remark velocities_short_axis :
  velocities [(0, 0)] [0] 145.722222 = Raise (IndexError 1 1).
Proof.
  unfold velocities. simpl. unfold velocity_at. simpl.
  destruct (Req_dec_T 0 0) as [_ | n]; [| lra]. reflexivity.
Qed.

(** ** Proton time of flight *)

Lemma integrand_loop_app (velocities integrand : ndarray) :
  integrand_loop velocities integrand =
  integrand ++ map (fun v => if Req_dec_T v 0 then 0 else 1 / v) velocities.
Proof.
  revert integrand. induction velocities as [| v rest IH]; simpl; intros integrand.
  - now rewrite app_nil_r.
  - destruct (Req_dec_T v 0); rewrite IH, <- app_assoc; reflexivity.
Qed.

Lemma integrand_nonneg (velocities : ndarray) :
  Forall (fun v => 0 <= v) velocities ->
  Forall (fun y => 0 <= y) (integrand_loop velocities []).
Proof.
  intros H. rewrite integrand_loop_app. simpl.
  induction H as [| v rest Hv _ IH]; simpl; constructor; auto.
  destruct (Req_dec_T v 0) as [_ | n]; [lra |].
  apply Rlt_le, Rdiv_lt_0_compat; lra.
Qed.

Lemma zip_with_nil_r {A B C : Type} (f : A -> B -> C) (a : list A) :
  zip_with f a [] = [].
Proof. destruct a; reflexivity. Qed.

Lemma removelast_length_pred (a : ndarray) :
  length (removelast a) = (length a - 1)%nat.
Proof.
  induction a as [| x [| y a] IH]; simpl in *; auto. lia.
Qed.

Lemma np_diff_length (a : ndarray) :
  length (np_diff a) = (length a - 1)%nat.
Proof.
  unfold np_diff. rewrite zip_with_length, removelast_length_pred.
  destruct a; simpl; lia.
Qed.

(** Each trapezoid has non-negative area when the abscissae increase and the
    ordinates are non-negative. *)
Lemma trapezoids_nonneg (x y : ndarray) :
  StronglySorted Rlt x ->
  Forall (fun v => 0 <= v) y ->
  Forall (fun t => 0 <= t)
         (zip_with (fun di s => di * s / 2) (np_diff x)
                   (zip_with Rplus (tl y) (removelast y))).
Proof.
  revert y. induction x as [| x0 l IH]; intros y Hx Hy.
  - constructor.
  - destruct l as [| x1 xr]; [constructor |].
    destruct y as [| y0 [| y1 yr]]; try (simpl; constructor).
    + inversion Hx as [| ? ? _ Hall]; subst. inversion Hall; subst.
      inversion Hy as [| ? ? Hy0 Hy']; subst. inversion Hy'; subst. nra.
    + apply (IH (y1 :: yr)).
      * inversion Hx; assumption.
      * inversion Hy; assumption.
Qed.

Lemma cumsum_from_sorted (acc : R) (a : ndarray) :
  Forall (fun t => 0 <= t) a ->
  StronglySorted Rle (acc :: cumsum_from acc a).
Proof.
  intros Ha. revert acc. induction Ha as [| t a Ht _ IH]; intros acc; simpl.
  - constructor; constructor.
  - specialize (IH (acc + t)). constructor; [exact IH |].
    apply StronglySorted_inv in IH. destruct IH as [_ Hall].
    constructor; [lra |].
    eapply Forall_impl; [| exact Hall]. simpl. intros; lra.
Qed.

Lemma cumsum_from_length (acc : R) (a : ndarray) :
  length (cumsum_from acc a) = length a.
Proof.
  revert acc. induction a as [| x a IH]; simpl; intros acc; auto.
Qed.

(** C4: for non-negative velocities on a strictly increasing depth axis of
    the same (non-zero) length, [ProtonTime] returns a profile aligned with
    the axis that starts at [0], is non-negative and is non-decreasing; a
    zero velocity enters the integrand as [0]. *)
Theorem ProtonTime_monotone (velocities phantom : ndarray) :
  Forall (fun v => 0 <= v) velocities ->
  StronglySorted Rlt phantom ->
  length velocities = length phantom ->
  phantom <> [] ->
  exists tp,
    ProtonTime velocities phantom = Ok tp /\
    length tp = length phantom /\
    nth 0 tp 1 = 0 /\
    Forall (fun t => 0 <= t) tp /\
    StronglySorted Rle tp /\
    (forall i, nth i velocities 1 = 0 ->
               nth i (integrand_loop velocities []) 1 = 0).
Proof.
  intros Hv Hx Hlen Hne.
  pose proof (integrand_nonneg velocities Hv) as Hy.
  assert (Hylen : length (integrand_loop velocities []) = length phantom).
  { rewrite integrand_loop_app. simpl. rewrite length_map. exact Hlen. }
  set (y := integrand_loop velocities []) in *.
  set (inc := zip_with (fun di s => di * s / 2) (np_diff phantom)
                       (zip_with Rplus (tl y) (removelast y))).
  assert (Hsorted : StronglySorted Rle (0 :: cumsum_from 0 inc)).
  { apply cumsum_from_sorted. apply trapezoids_nonneg; assumption. }
  exists (0 :: cumsum_from 0 inc).
  assert (Hpos : (0 < length phantom)%nat).
  { destruct phantom; [congruence | simpl; lia]. }
  split; [| split; [| split; [| split; [| split]]]].
  - unfold ProtonTime, cumulative_trapezoid. fold y.
    replace (length y =? 0)%nat with false by (symmetry; apply Nat.eqb_neq; lia).
    rewrite np_diff_length, Hylen, Nat.eqb_refl. reflexivity.
  - simpl. rewrite cumsum_from_length. unfold inc.
    rewrite !zip_with_length, np_diff_length, removelast_length_pred.
    destruct y; simpl in *; lia.
  - reflexivity.
  - apply StronglySorted_inv in Hsorted. destruct Hsorted as [_ Hall].
    constructor; [lra | exact Hall].
  - exact Hsorted.
  - intros i Hi. unfold y. rewrite integrand_loop_app. simpl.
    set (f := fun v => if Req_dec_T v 0 then 0 else 1 / v).
    destruct (Nat.lt_ge_cases i (length velocities)) as [Hin | Hout].
    + rewrite (nth_indep _ 1 (f 1)) by (rewrite length_map; exact Hin).
      rewrite map_nth, Hi. unfold f.
      destruct (Req_dec_T 0 0) as [_ | n]; [reflexivity | lra].
    + rewrite nth_overflow in Hi by exact Hout. lra.
Qed.

Lemma ProtonTime_monotone_witness :
  exists tp,
    ProtonTime [2; 1; 0] [0; 1; 2] = Ok tp /\
    length tp = length [0; 1; 2] /\
    nth 0 tp 1 = 0 /\
    Forall (fun t => 0 <= t) tp /\
    StronglySorted Rle tp /\
    (forall i, nth i [2; 1; 0] 1 = 0 ->
               nth i (integrand_loop [2; 1; 0] []) 1 = 0).
Proof.
  apply (ProtonTime_monotone [2; 1; 0] [0; 1; 2]).
  - repeat constructor; lra.
  - repeat constructor; lra.
  - reflexivity.
  - discriminate.
Defined.

(** ** Bragg curve *)

(** The masked assignment of [CreateBraggCurve] written pointwise: every
    depth gets entrance plus peak, and the depths selected by the mask get
    that sum times their falloff factor. *)
Lemma masked_falloff_pointwise (entrance peak falloff : R -> R) (mask : R -> bool)
      (depths : ndarray) :
  mask_assign (zip_with Rplus (map entrance depths) (map peak depths))
              (map mask depths)
              (zip_with Rmult
                 (zip_with Rplus (mask_select (map entrance depths) (map mask depths))
                                 (mask_select (map peak depths) (map mask depths)))
                 (map falloff (mask_select depths (map mask depths))))
  = Ok (map (fun d => if mask d
                      then (entrance d + peak d) * falloff d
                      else entrance d + peak d) depths).
Proof.
  induction depths as [| d rest IH]; simpl.
  - reflexivity.
  - destruct (mask d); simpl; rewrite IH; reflexivity.
Qed.

Section Bragg.
Variables braggPosition peakHeight entranceDose peakWidth falloffSteepness : R.

Local Notation "'dose_at'" :=
  (bragg_dose_at braggPosition peakHeight entranceDose peakWidth falloffSteepness)
  (at level 0).

Lemma CreateBraggCurve_pointwise (depths : ndarray) :
  CreateBraggCurve depths braggPosition peakHeight entranceDose peakWidth
                   falloffSteepness
  = Ok (map dose_at depths).
Proof.
  unfold CreateBraggCurve, bragg_dose_at.
  rewrite (masked_falloff_pointwise
             (fun _ => entranceDose * 1)
             (fun d => peakHeight *
                       exp ((- ((d - braggPosition) ^ 2)) / (2 * peakWidth ^ 2)))
             (fun d => exp ((- (d - braggPosition)) / falloffSteepness))
             (fun d => Rltb braggPosition d) depths).
  reflexivity.
Qed.

Hypothesis peakHeight_nonneg : 0 <= peakHeight.
Hypothesis entranceDose_nonneg : 0 <= entranceDose.
Hypothesis dose_not_null : 0 < peakHeight + entranceDose.
Hypothesis peakWidth_nonzero : peakWidth <> 0.
Hypothesis falloffSteepness_pos : 0 < falloffSteepness.

Lemma dose_at_pos (d : R) : 0 < dose_at d.
Proof.
  unfold bragg_dose_at.
  set (g := exp ((- ((d - braggPosition) ^ 2)) / (2 * peakWidth ^ 2))).
  assert (Hg : 0 < g) by apply exp_pos.
  assert (Hsum : 0 < entranceDose * 1 + peakHeight * g) by nra.
  destruct (Rltb braggPosition d); [| exact Hsum].
  apply Rmult_lt_0_compat; [exact Hsum | apply exp_pos].
Qed.

(** Beyond the peak both factors shrink with depth: the Gaussian part does
    not grow and the exponential falloff strictly decays. *)
Lemma dose_at_decreasing (d1 d2 : R) :
  braggPosition < d1 -> d1 < d2 -> dose_at d2 < dose_at d1.
Proof.
  intros H1 H12. unfold bragg_dose_at, Rltb.
  destruct (Rlt_dec braggPosition d1) as [_ | n]; [| lra].
  destruct (Rlt_dec braggPosition d2) as [_ | n]; [| lra].
  assert (Hw : 0 < 2 * peakWidth ^ 2).
  { assert (0 < peakWidth ^ 2).
    { rewrite <- Rsqr_pow2. apply Rlt_0_sqr. exact peakWidth_nonzero. }
    lra. }
  assert (Hg : exp ((- (d2 - braggPosition) ^ 2) / (2 * peakWidth ^ 2))
               < exp ((- (d1 - braggPosition) ^ 2) / (2 * peakWidth ^ 2))).
  { apply exp_increasing. unfold Rdiv.
    apply Rmult_lt_compat_r; [apply Rinv_0_lt_compat; exact Hw | nra]. }
  assert (Hf : exp ((- (d2 - braggPosition)) / falloffSteepness)
               < exp ((- (d1 - braggPosition)) / falloffSteepness)).
  { apply exp_increasing. unfold Rdiv.
    apply Rmult_lt_compat_r; [apply Rinv_0_lt_compat; lra | lra]. }
  set (g1 := exp ((- (d1 - braggPosition) ^ 2) / (2 * peakWidth ^ 2))) in *.
  set (g2 := exp ((- (d2 - braggPosition) ^ 2) / (2 * peakWidth ^ 2))) in *.
  set (f1 := exp ((- (d1 - braggPosition)) / falloffSteepness)) in *.
  set (f2 := exp ((- (d2 - braggPosition)) / falloffSteepness)) in *.
  assert (Hg2 : 0 < g2) by apply exp_pos.
  assert (Hf2 : 0 < f2) by apply exp_pos.
  assert (Ha2 : 0 < entranceDose * 1 + peakHeight * g2) by nra.
  assert (Ha : entranceDose * 1 + peakHeight * g2
               <= entranceDose * 1 + peakHeight * g1) by nra.
  apply Rlt_le_trans with ((entranceDose * 1 + peakHeight * g2) * f1).
  - apply Rmult_lt_compat_l; assumption.
  - apply Rmult_le_compat_r; [lra | exact Ha].
Qed.

End Bragg.

Lemma StronglySorted_nth_lt (a : ndarray) (i j : nat) :
  StronglySorted Rlt a -> (i < j < length a)%nat -> nth i a 0 < nth j a 0.
Proof.
  intros Hsorted. revert i j.
  induction Hsorted as [| d rest Hrest IH Hall]; intros i j Hij; simpl in Hij.
  - lia.
  - destruct j as [| j]; [lia |]. destruct i as [| i]; simpl.
    + rewrite Forall_forall in Hall. apply Hall. apply nth_In. lia.
    + apply IH. lia.
Qed.

(** C6: on a strictly increasing depth axis, among the depths strictly
    beyond the Bragg peak the dose strictly decreases with depth (for a
    non-negative peak height and entrance dose that are not both zero, a
    non-zero peak width and a positive falloff steepness, as the defaults
    [1.0], [0.3], [8], [5] are). *)
Theorem CreateBraggCurve_strict_falloff
        (depths : ndarray)
        (braggPosition peakHeight entranceDose peakWidth falloffSteepness : R) :
  0 <= peakHeight -> 0 <= entranceDose -> 0 < peakHeight + entranceDose ->
  peakWidth <> 0 -> 0 < falloffSteepness ->
  StronglySorted Rlt depths ->
  exists dose,
    CreateBraggCurve depths braggPosition peakHeight entranceDose peakWidth
                     falloffSteepness = Ok dose /\
    length dose = length depths /\
    forall i j, (i < j < length depths)%nat ->
                braggPosition < nth i depths 0 ->
                nth i depths 0 < nth j depths 0 /\ nth j dose 0 < nth i dose 0.
Proof.
  intros Hh He Hhe Hw Hs Hsorted.
  set (dose_at := bragg_dose_at braggPosition peakHeight entranceDose peakWidth
                                falloffSteepness).
  exists (map dose_at depths).
  split; [apply CreateBraggCurve_pointwise |].
  split; [apply length_map |].
  intros i j Hij Hi.
  pose proof (StronglySorted_nth_lt depths i j Hsorted Hij) as Hd.
  split; [exact Hd |].
  rewrite !(nth_indep (map dose_at depths) 0 (dose_at 0))
    by (rewrite length_map; lia).
  rewrite !map_nth. apply dose_at_decreasing; assumption.
Qed.

Lemma CreateBraggCurve_strict_falloff_witness :
  exists dose,
    CreateBraggCurve [149; 150; 151; 152] 150 1.0 0.3 8 5 = Ok dose /\
    length dose = length [149; 150; 151; 152] /\
    forall i j, (i < j < length [149; 150; 151; 152])%nat ->
                150 < nth i [149; 150; 151; 152] 0 ->
                nth i [149; 150; 151; 152] 0 < nth j [149; 150; 151; 152] 0 /\
                nth j dose 0 < nth i dose 0.
Proof.
  apply (CreateBraggCurve_strict_falloff [149; 150; 151; 152] 150 1.0 0.3 8 5);
    try lra.
  repeat constructor; lra.
Defined.

(** The same falloff for the call with the keyword defaults, as
    [SimulateBurst] and the driver script make it. *)
Corollary CreateBraggCurve_default_falloff (depths : ndarray) (braggPosition : R) :
  StronglySorted Rlt depths ->
  exists dose,
    CreateBraggCurve_default depths braggPosition = Ok dose /\
    length dose = length depths /\
    forall i j, (i < j < length depths)%nat ->
                braggPosition < nth i depths 0 ->
                nth j dose 0 < nth i dose 0.
Proof.
  intros Hsorted. unfold CreateBraggCurve_default.
  set (dose_at := bragg_dose_at braggPosition 1.0 0.3 8 5).
  exists (map dose_at depths).
  split; [apply CreateBraggCurve_pointwise |].
  split; [apply length_map |].
  intros i j Hij Hi.
  rewrite !(nth_indep (map dose_at depths) 0 (dose_at 0))
    by (rewrite length_map; lia).
  rewrite !map_nth. apply dose_at_decreasing; try lra.
  apply StronglySorted_nth_lt; assumption.
Qed.

(** ** Sums of arrays *)

Lemma fold_left_Rplus_acc (a : ndarray) (acc : R) :
  fold_left Rplus a acc = acc + fold_left Rplus a 0.
Proof.
  revert acc. induction a as [| x a IH]; simpl; intros acc.
  - ring.
  - rewrite (IH (acc + x)), (IH (0 + x)). ring.
Qed.

Lemma np_sum_nil : np_sum [] = 0.
Proof. reflexivity. Qed.

Lemma np_sum_cons (x : R) (a : ndarray) : np_sum (x :: a) = x + np_sum a.
Proof.
  unfold np_sum. simpl. rewrite fold_left_Rplus_acc. ring.
Qed.

Lemma np_sum_scale (f : R -> R) (c : R) (a : ndarray) :
  (forall x, f x = c * x) -> np_sum (map f a) = c * np_sum a.
Proof.
  intros Hf. induction a as [| x a IH]; simpl.
  - rewrite np_sum_nil. ring.
  - rewrite !np_sum_cons, IH, Hf. ring.
Qed.

Lemma np_sum_zip_plus (a b : ndarray) :
  length a = length b ->
  np_sum (zip_with Rplus a b) = np_sum a + np_sum b.
Proof.
  revert b. induction a as [| x a IH]; intros [| y b]; simpl; intros Hlen;
    try discriminate.
  - rewrite np_sum_nil. ring.
  - rewrite !np_sum_cons, IH by lia. ring.
Qed.

Lemma np_sum_zeros {A : Type} (l : list A) : np_sum (map (fun _ => 0) l) = 0.
Proof.
  induction l as [| x l IH]; simpl.
  - reflexivity.
  - rewrite np_sum_cons, IH. ring.
Qed.

Lemma np_sum_pos (a : ndarray) :
  a <> [] -> Forall (fun x => 0 < x) a -> 0 < np_sum a.
Proof.
  intros Hne Hall. destruct a as [| x a]; [congruence |].
  clear Hne. revert x Hall. induction a as [| y a IH]; intros x Hall.
  - inversion Hall; subst. rewrite np_sum_cons, np_sum_nil. lra.
  - inversion Hall as [| ? ? Hx Hrest]; subst.
    rewrite np_sum_cons. specialize (IH y Hrest). lra.
Qed.

(** ** Gaussian back-projection weights *)

Section Weights.
Variables (tExpected : ndarray) (tBin sigma : R).

Lemma gaussian_weights_length :
  length (gaussian_weights tExpected tBin sigma) = length tExpected.
Proof.
  unfold gaussian_weights. rewrite !length_map. reflexivity.
Qed.

Lemma raw_weights_pos :
  Forall (fun w => 0 < w)
         (map (fun d => exp ((- (d ^ 2)) / (2 * sigma ^ 2)))
              (map (fun t => Rabs (t - tBin)) tExpected)).
Proof.
  rewrite Forall_forall. intros w Hw.
  apply in_map_iff in Hw. destruct Hw as (d & <- & _). apply exp_pos.
Qed.

Lemma gaussian_weights_sum :
  tExpected <> [] -> np_sum (gaussian_weights tExpected tBin sigma) = 1.
Proof.
  intros Hne. unfold gaussian_weights.
  set (raw := map (fun d => exp ((- (d ^ 2)) / (2 * sigma ^ 2)))
                  (map (fun t => Rabs (t - tBin)) tExpected)).
  assert (Hpos : 0 < np_sum raw).
  { apply np_sum_pos; [| apply raw_weights_pos].
    unfold raw. destruct tExpected; [congruence | discriminate]. }
  rewrite (np_sum_scale _ (/ np_sum raw)) by (intros x; unfold Rdiv; ring).
  apply Rinv_l. lra.
Qed.

Lemma gaussian_weights_pos :
  tExpected <> [] ->
  Forall (fun w => 0 < w) (gaussian_weights tExpected tBin sigma).
Proof.
  intros Hne. unfold gaussian_weights.
  set (raw := map (fun d => exp ((- (d ^ 2)) / (2 * sigma ^ 2)))
                  (map (fun t => Rabs (t - tBin)) tExpected)).
  assert (Hpos : 0 < np_sum raw).
  { apply np_sum_pos; [| apply raw_weights_pos].
    unfold raw. destruct tExpected; [congruence | discriminate]. }
  rewrite Forall_forall. intros w Hw.
  apply in_map_iff in Hw. destruct Hw as (r & <- & Hr).
  pose proof raw_weights_pos as Hraw. rewrite Forall_forall in Hraw.
  apply Rdiv_lt_0_compat; [apply Hraw; exact Hr | exact Hpos].
Qed.

End Weights.

(** C3: for a time bin that holds at least one count, a positive [sigma]
    and at least one depth bin, the loop adds [count] times the weights
    [gaussian_weights], and these weights are positive and sum to exactly
    [1]. *)
Theorem gaussian_weights_normalized
        (tExpected : ndarray) (sigma tBin : R) (count : Z)
        (rest : list (R * Z)) (reconstructed : ndarray) :
  0 < sigma -> tExpected <> [] -> count <> 0%Z ->
  reconstruction_loop tExpected sigma ((tBin, count) :: rest) reconstructed
  = (r <- iadd reconstructed
            (map (fun w => IZR count * w) (gaussian_weights tExpected tBin sigma)) ;;
     reconstruction_loop tExpected sigma rest r) /\
  Forall (fun w => 0 < w) (gaussian_weights tExpected tBin sigma) /\
  np_sum (gaussian_weights tExpected tBin sigma) = 1.
Proof.
  intros Hsigma Hne Hcount. split; [| split].
  - simpl. destruct (Z.eqb_spec count 0) as [E | _]; [congruence | reflexivity].
  - apply gaussian_weights_pos. exact Hne.
  - apply gaussian_weights_sum. exact Hne.
Qed.

Lemma gaussian_weights_normalized_witness :
  reconstruction_loop [0; 1; 2] 1 [(1, 3%Z)] [0; 0; 0]
  = (r <- iadd [0; 0; 0]
            (map (fun w => IZR 3 * w) (gaussian_weights [0; 1; 2] 1 1)) ;;
     reconstruction_loop [0; 1; 2] 1 [] r) /\
  Forall (fun w => 0 < w) (gaussian_weights [0; 1; 2] 1 1) /\
  np_sum (gaussian_weights [0; 1; 2] 1 1) = 1.
Proof.
  apply (gaussian_weights_normalized [0; 1; 2] 1 1 3 [] [0; 0; 0]).
  - lra.
  - discriminate.
  - discriminate.
Defined.

(** Without a depth bin there is nothing to normalize: the weight vector is
    empty and its sum is [0]. *)
Remark gaussian_weights_no_depth_bin (tBin sigma : R) :
  np_sum (gaussian_weights [] tBin sigma) = 0.
Proof. reflexivity. Qed.

(** ** Reconstruction: degenerate inputs *)

Lemma broadcast2_same_length (f : R -> R -> R) (a b : ndarray) :
  length a = length b -> broadcast2 f a b = Ok (zip_with f a b).
Proof.
  intros H. unfold broadcast2. rewrite H, Nat.eqb_refl. reflexivity.
Qed.

(** Whatever its operands, [broadcast2] either returns or raises
    [ValueError]. *)
Lemma broadcast2_cases (f : R -> R -> R) (a b : ndarray) :
  (exists c, broadcast2 f a b = Ok c) \/
  broadcast2 f a b = Raise (ValueError "operands could not be broadcast together").
Proof.
  unfold broadcast2. destruct (length a =? length b)%nat; [left; eauto |].
  destruct a as [| x [| x' a]]; destruct b as [| y [| y' b]]; eauto.
Qed.

(** C2, as the code has it: on an empty timestamp array [Reconstruction]
    raises a [ValueError] that comes out of NumPy: the one of [min()] on a
    zero-size array, unless adding [tp] and [gammaTOF] already failed to
    broadcast.  No histogram is built and no profile is returned. *)
Theorem Reconstruction_empty_timestamps
        (phantom tp gammaTOF : ndarray) (tBinWidth sigma dArea : R)
        (distMag : ndarray) (aFactor : operand) :
  Reconstruction phantom [] tp gammaTOF tBinWidth sigma dArea distMag aFactor
  = Raise (ValueError "zero-size array to reduction operation minimum which has no identity")
  \/
  (broadcast2 Rplus tp gammaTOF
   = Raise (ValueError "operands could not be broadcast together") /\
   Reconstruction phantom [] tp gammaTOF tBinWidth sigma dArea distMag aFactor
   = Raise (ValueError "operands could not be broadcast together")).
Proof.
  unfold Reconstruction, accumulate.
  destruct (broadcast2_cases Rplus tp gammaTOF) as [[tE HtE] | Hfail].
  - left. rewrite HtE. reflexivity.
  - right. rewrite Hfail. split; reflexivity.
Qed.

(** C2, as the specification words it, does not hold: the error raised for an empty timestamp
    array is NumPy's [ValueError], not an [InvalidInput] of the function's
    own. *)
Lemma Reconstruction_empty_not_InvalidInput :
  Reconstruction [0; 1] [] [0; 0] [0; 0] 1 1 1 [1; 1] (Scalar 1)
  = Raise (ValueError "zero-size array to reduction operation minimum which has no identity")
  /\
  ~ (exists msg,
        Reconstruction [0; 1] [] [0; 0] [0; 0] 1 1 1 [1; 1] (Scalar 1)
        = Raise (InvalidInput msg)).
Proof.
  split.
  - reflexivity.
  - intros [msg H]. discriminate H.
Qed.

Lemma fold_left_Rmin_repeat (x : R) (n : nat) : fold_left Rmin (repeat x n) x = x.
Proof.
  induction n as [| n IH]; simpl; [reflexivity |].
  rewrite Rmin_left by lra. exact IH.
Qed.

Lemma fold_left_Rmax_repeat (x : R) (n : nat) : fold_left Rmax (repeat x n) x = x.
Proof.
  induction n as [| n IH]; simpl; [reflexivity |].
  rewrite Rmax_left by lra. exact IH.
Qed.

Lemma Zceil_one_step (x w : R) : w <> 0 -> Zceil ((x + w - x) / w) = 1%Z.
Proof.
  intros Hw. replace ((x + w - x) / w) with 1 by (field; exact Hw).
  apply Zceil_eq. lra.
Qed.

(** When all timestamps coincide, [np.arange(min, max + w, w)] has the single
    edge [min]: the histogram has no bin at all. *)
Lemma time_histogram_constant (x w : R) (n : nat) :
  w <> 0 ->
  time_histogram (x :: repeat x n) w = Ok ([], [x + INR 0 * w]).
Proof.
  intros Hw. unfold time_histogram, np_min, np_max.
  rewrite fold_left_Rmin_repeat, fold_left_Rmax_repeat. simpl.
  unfold np_arange. destruct (Req_dec_T w 0) as [E | _]; [congruence |].
  rewrite Zceil_one_step by exact Hw. simpl.
  reflexivity.
Qed.

Lemma reconstruction_loop_no_counts (tExpected : ndarray) (sigma : R)
      (bins : list (R * Z)) (reconstructed : ndarray) :
  Forall (fun b => snd b = 0%Z) bins ->
  reconstruction_loop tExpected sigma bins reconstructed = Ok reconstructed.
Proof.
  intros H. induction H as [| [tBin count] bins Hc _ IH]; simpl.
  - reflexivity.
  - simpl in Hc. subst count. simpl. exact IH.
Qed.


Lemma combine_snd_Forall {A B : Type} (P : B -> Prop) (a : list A) (b : list B) :
  Forall P b -> Forall (fun ab => P (snd ab)) (combine a b).
Proof.
  intros H. revert a. induction H as [| y b Hy _ IH]; intros [| x a]; simpl;
    constructor; auto.
Qed.

Lemma accumulate_no_counts (phantom detectorData tp gammaTOF : ndarray)
      (tBinWidth sigma : R) (tCounts : list Z) (tBinEdges tExpected : ndarray) :
  broadcast2 Rplus tp gammaTOF = Ok tExpected ->
  time_histogram detectorData tBinWidth = Ok (tCounts, tBinEdges) ->
  Forall (fun count => count = 0%Z) tCounts ->
  accumulate phantom detectorData tp gammaTOF tBinWidth sigma
  = Ok (map (fun _ => 0) phantom).
Proof.
  intros HtE Hh Hz. unfold accumulate. rewrite HtE. simpl. rewrite Hh. simpl.
  apply reconstruction_loop_no_counts.
  apply (combine_snd_Forall (fun c => c = 0%Z)). exact Hz.
Qed.


(** A sample whose timestamps all coincide is dropped as a whole, whatever
    its size. *)
Lemma accumulate_constant_sample (phantom tp gammaTOF : ndarray)
      (x tBinWidth sigma : R) (n : nat) :
  tBinWidth <> 0 -> length tp = length gammaTOF ->
  accumulate phantom (x :: repeat x n) tp gammaTOF tBinWidth sigma
  = Ok (map (fun _ => 0) phantom).
Proof.
  intros Hw Hlen.
  apply (accumulate_no_counts phantom (x :: repeat x n) tp gammaTOF tBinWidth sigma
           [] [x + INR 0 * tBinWidth] (zip_with Rplus tp gammaTOF)).
  - apply broadcast2_same_length. exact Hlen.
  - apply time_histogram_constant. exact Hw.
  - constructor.
Qed.

(** C10 at a one-photon sample: the single timestamp falls in no bin and the
    accumulated profile sums to [0], not to the number of timestamps. *)
Theorem accumulate_drops_lone_timestamp :
  time_histogram [5] 1 = Ok ([], [5 + INR 0 * 1]) /\
  accumulate [0; 1] [5] [0; 0] [0; 0] 1 1 = Ok [0; 0] /\
  np_sum [0; 0] <> INR (length [5]).
Proof.
  assert (Hh : time_histogram [5] 1 = Ok ([], [5 + INR 0 * 1])).
  { apply (time_histogram_constant 5 1 0). lra. }
  split; [exact Hh |]. split.
  - apply (accumulate_no_counts [0; 1] [5] [0; 0] [0; 0] 1 1 [] [5 + INR 0 * 1] [0 + 0; 0 + 0]).
    + reflexivity.
    + exact Hh.
    + constructor.
  - rewrite !np_sum_cons, np_sum_nil. simpl. lra.
Qed.

(** ** Reconstruction: conservation of counts *)

Lemma fold_left_Rmin_spec (rest : ndarray) (acc : R) :
  fold_left Rmin rest acc <= acc /\
  Forall (fun y => fold_left Rmin rest acc <= y) rest.
Proof.
  revert acc. induction rest as [| y rest IH]; simpl; intros acc.
  - split; [lra | constructor].
  - destruct (IH (Rmin acc y)) as [Hle Hall].
    pose proof (Rmin_l acc y). pose proof (Rmin_r acc y).
    split; [lra |]. constructor; [lra | exact Hall].
Qed.

Lemma fold_left_Rmax_spec (rest : ndarray) (acc : R) :
  acc <= fold_left Rmax rest acc /\
  Forall (fun y => y <= fold_left Rmax rest acc) rest.
Proof.
  revert acc. induction rest as [| y rest IH]; simpl; intros acc.
  - split; [lra | constructor].
  - destruct (IH (Rmax acc y)) as [Hle Hall].
    pose proof (Rmax_l acc y). pose proof (Rmax_r acc y).
    split; [lra |]. constructor; [lra | exact Hall].
Qed.

Lemma np_min_spec (a : ndarray) :
  a <> [] -> exists lo, np_min a = Ok lo /\ Forall (fun y => lo <= y) a.
Proof.
  destruct a as [| x rest]; [congruence |]. intros _.
  exists (fold_left Rmin rest x). split; [reflexivity |].
  destruct (fold_left_Rmin_spec rest x) as [Hle Hall].
  constructor; assumption.
Qed.

Lemma np_max_spec (a : ndarray) :
  a <> [] -> exists hi, np_max a = Ok hi /\ Forall (fun y => y <= hi) a.
Proof.
  destruct a as [| x rest]; [congruence |]. intros _.
  exists (fold_left Rmax rest x). split; [reflexivity |].
  destruct (fold_left_Rmax_spec rest x) as [Hle Hall].
  constructor; assumption.
Qed.

Lemma monotonic_arange (start step : R) (s n : nat) :
  0 <= step ->
  monotonic (map (fun i => start + INR i * step) (seq s n)) = true.
Proof.
  intros Hstep. revert s. induction n as [| n IH]; intros s; [reflexivity |].
  destruct n as [| n]; [reflexivity |].
  change (negb (Rltb (start + INR (S s) * step) (start + INR s * step))
          && monotonic (map (fun i => start + INR i * step) (seq (S s) (S n)))
          = true).
  rewrite IH, andb_true_r. unfold Rltb.
  destruct (Rlt_dec _ _) as [Hlt | _]; [| reflexivity].
  rewrite S_INR in Hlt. nra.
Qed.

Lemma last_indep {A : Type} (l : list A) (d d' : A) :
  l <> [] -> last l d = last l d'.
Proof.
  induction l as [| x [| y l] IH]; intros H; [congruence | reflexivity |].
  change (last (y :: l) d = last (y :: l) d'). apply IH. discriminate.
Qed.

Lemma diffZ_telescope (x : Z) (c : list Z) :
  np_sum (map IZR (diffZ (x :: c))) = IZR (last (x :: c) x) - IZR x.
Proof.
  revert x. induction c as [| y c IH]; intros x.
  - simpl. rewrite np_sum_nil. ring.
  - change (diffZ (x :: y :: c)) with ((y - x)%Z :: diffZ (y :: c)).
    simpl map. rewrite np_sum_cons, IH, minus_IZR.
    change (last (x :: y :: c) x) with (last (y :: c) x).
    rewrite (last_indep (y :: c) x y) by discriminate. ring.
Qed.

Lemma diffZ_length (c : list Z) : length (diffZ c) = (length c - 1)%nat.
Proof.
  unfold diffZ. rewrite zip_with_length.
  assert (H : length (removelast c) = (length c - 1)%nat).
  { induction c as [| x [| y c] IH]; simpl in *; auto. lia. }
  rewrite H. destruct c; simpl; lia.
Qed.

Lemma filter_none (p : R -> bool) (a : ndarray) :
  Forall (fun x => p x = false) a -> filter p a = [].
Proof.
  intros H. induction H as [| x a Hx _ IH]; simpl; [reflexivity |].
  rewrite Hx. exact IH.
Qed.

Lemma filter_all (p : R -> bool) (a : ndarray) :
  Forall (fun x => p x = true) a -> filter p a = a.
Proof.
  intros H. induction H as [| x a Hx _ IH]; simpl; [reflexivity |].
  rewrite Hx, IH. reflexivity.
Qed.

(** The cumulative counts start with the samples below the first edge and
    end with the samples not above the last one. *)
Lemma search_sorted_inclusive_ends (a : ndarray) (e0 e1 : R) (r : ndarray) :
  exists c,
    search_sorted_inclusive a (e0 :: e1 :: r) = searchsorted_left a e0 :: c /\
    last (searchsorted_left a e0 :: c) (searchsorted_left a e0)
    = searchsorted_right a (last (e0 :: e1 :: r) 0) /\
    length (searchsorted_left a e0 :: c) = length (e0 :: e1 :: r).
Proof.
  unfold search_sorted_inclusive.
  change (removelast (e0 :: e1 :: r)) with (e0 :: removelast (e1 :: r)).
  change (last_slice (e0 :: e1 :: r)) with [last (e0 :: e1 :: r) 0].
  rewrite map_cons.
  exists (map (searchsorted_left a) (removelast (e1 :: r)) ++
          map (searchsorted_right a) [last (e0 :: e1 :: r) 0]).
  split; [reflexivity |]. split.
  - rewrite map_cons, app_comm_cons. apply last_last.
  - cbn [length]. rewrite length_app, !length_map, removelast_length_pred.
    cbn [length]. lia.
Qed.

Lemma arange_last (start step : R) (m : nat) :
  last (map (fun i => start + INR i * step) (seq 0 (S m))) 0
  = start + INR m * step.
Proof.
  rewrite seq_S, map_app. simpl. apply last_last.
Qed.

(** The number of samples that a second threshold adds to a first one is
    the number of samples between the two. *)
Lemma filter_length_diff (p q : R -> bool) (a : ndarray) :
  (forall x, q x = true -> p x = true) ->
  (Z.of_nat (length (filter p a)) - Z.of_nat (length (filter q a)))%Z
  = Z.of_nat (length (filter (fun x => negb (q x) && p x) a)).
Proof.
  intros Hqp. induction a as [| x a IH]; simpl; [reflexivity |].
  destruct (q x) eqn:Hq; simpl.
  - rewrite (Hqp x Hq). simpl length. lia.
  - destruct (p x); simpl length; lia.
Qed.

Lemma search_sorted_inclusive_cons (a : ndarray) (e0 e1 : R) (r : ndarray) :
  search_sorted_inclusive a (e0 :: e1 :: r)
  = searchsorted_left a e0 :: search_sorted_inclusive a (e1 :: r).
Proof. reflexivity. Qed.

(** The implementation of [np.histogram] (cumulative counts, differenced)
    computes what its documentation says: per-bin interval counts. *)
Lemma np_histogram_bin_counts (a edges : ndarray) :
  monotonic edges = true ->
  diffZ (search_sorted_inclusive a edges) = bin_counts a edges.
Proof.
  induction edges as [| e0 rest IH]; intros Hmono; [reflexivity |].
  destruct rest as [| e1 r]; [reflexivity |].
  change (monotonic (e0 :: e1 :: r))
    with (negb (Rltb e1 e0) && monotonic (e1 :: r)) in Hmono.
  apply andb_true_iff in Hmono. destruct Hmono as [H01 Hrest].
  assert (Hle : e0 <= e1).
  { unfold Rltb in H01. destruct (Rlt_dec e1 e0); [discriminate | lra]. }
  rewrite search_sorted_inclusive_cons.
  specialize (IH Hrest).
  destruct r as [| e2 r'].
  - unfold search_sorted_inclusive. cbn [removelast map last_slice last app].
    unfold diffZ. cbn [tl removelast zip_with bin_counts].
    f_equal. unfold searchsorted_left, searchsorted_right.
    rewrite filter_length_diff.
    + apply (f_equal Z.of_nat), (f_equal (@length R)), filter_ext. intros x.
      unfold Rltb, Rleb.
      destruct (Rlt_dec x e0), (Rle_dec e0 x); try reflexivity; lra.
    + intros x. unfold Rltb, Rleb.
      destruct (Rlt_dec x e0), (Rle_dec x e1); intros H;
        try reflexivity; try discriminate H; lra.
  - rewrite search_sorted_inclusive_cons in IH |- *.
    change (diffZ (searchsorted_left a e0 :: searchsorted_left a e1
                   :: search_sorted_inclusive a (e2 :: r')))
      with ((searchsorted_left a e1 - searchsorted_left a e0)%Z
            :: diffZ (searchsorted_left a e1 :: search_sorted_inclusive a (e2 :: r'))).
    rewrite IH. cbn [bin_counts]. f_equal.
    unfold searchsorted_left. rewrite filter_length_diff.
    + apply (f_equal Z.of_nat), (f_equal (@length R)), filter_ext. intros x.
      unfold Rltb, Rleb.
      destruct (Rlt_dec x e0), (Rle_dec e0 x); try reflexivity; lra.
    + intros x. unfold Rltb.
      destruct (Rlt_dec x e0), (Rlt_dec x e1); intros H;
        try reflexivity; try discriminate H; lra.
Qed.

Section Histogram.
Variables (detectorData : ndarray) (tBinWidth : R).
Hypothesis width_pos : 0 < tBinWidth.
Hypothesis two_values :
  exists x y, In x detectorData /\ In y detectorData /\ x < y.

Lemma detectorData_nonempty : detectorData <> [].
Proof.
  destruct two_values as (x & _ & Hx & _). intros E. rewrite E in Hx. inversion Hx.
Qed.

(** With two distinct timestamps the bin range has at least one bin, starts
    at the minimum and reaches the maximum: the counts add up to the sample
    size. *)
Lemma time_histogram_total :
  exists tCounts tBinEdges,
    time_histogram detectorData tBinWidth = Ok (tCounts, tBinEdges) /\
    S (length tCounts) = length tBinEdges /\
    np_sum (map IZR tCounts) = INR (length detectorData).
Proof.
  destruct (np_min_spec detectorData detectorData_nonempty) as (lo & Hmin & Hlo).
  destruct (np_max_spec detectorData detectorData_nonempty) as (hi & Hmax & Hhi).
  assert (Hlohi : lo < hi).
  { destruct two_values as (x & y & Hx & Hy & Hxy).
    rewrite Forall_forall in Hlo, Hhi.
    specialize (Hlo x Hx). specialize (Hhi y Hy). lra. }
  set (q := (hi + tBinWidth - lo) / tBinWidth).
  assert (Hq : 1 < q).
  { unfold q. apply (Rmult_lt_reg_r tBinWidth); [exact width_pos |].
    unfold Rdiv. rewrite Rmult_assoc, Rinv_l by lra. lra. }
  pose proof (Zceil_bound q) as Hc.
  assert (Hc2 : (2 <= Zceil q)%Z).
  { assert (1 < Zceil q)%Z by (apply lt_IZR; lra). lia. }
  destruct (Z.to_nat (Zceil q)) as [| [| m]] eqn:Hn; [lia | lia |].
  assert (Hm : INR (S (S m)) = IZR (Zceil q)).
  { rewrite <- Hn, INR_IZR_INZ, Z2Nat.id by lia. reflexivity. }
  set (edges := map (fun i => lo + INR i * tBinWidth) (seq 0 (S (S m)))).
  assert (Hrun : time_histogram detectorData tBinWidth
                 = np_histogram detectorData edges).
  { unfold time_histogram. rewrite Hmin, Hmax. cbn [bind]. unfold np_arange.
    destruct (Req_dec_T tBinWidth 0) as [E | _]; [lra |].
    fold q. rewrite Hn. reflexivity. }
  assert (Hedges : exists e1 r, edges = lo + INR 0 * tBinWidth :: e1 :: r).
  { unfold edges. simpl. eauto. }
  destruct Hedges as (e1 & r & Hedges).
  destruct (search_sorted_inclusive_ends detectorData (lo + INR 0 * tBinWidth) e1 r)
    as (c & Hcum & Hlast & Hlen).
  exists (diffZ (search_sorted_inclusive detectorData edges)), edges.
  split; [| split].
  - rewrite Hrun. unfold np_histogram.
    unfold edges at 1. rewrite monotonic_arange by lra. reflexivity.
  - rewrite diffZ_length, Hedges, Hcum, Hlen. simpl. lia.
  - rewrite Hedges, Hcum, diffZ_telescope, Hlast, <- Hedges.
    unfold edges. rewrite arange_last.
    unfold searchsorted_left, searchsorted_right.
    rewrite (filter_none (fun x => Rltb x _)), (filter_all (fun x => Rleb x _)).
    + simpl. rewrite <- INR_IZR_INZ. ring.
    + eapply Forall_impl; [| exact Hhi]. cbv beta. intros x Hx. unfold Rleb.
      destruct (Rle_dec _ _) as [_ | n]; [reflexivity |]. exfalso. apply n.
      assert (Hqm : q <= INR (S m) + 1) by (rewrite <- S_INR; lra).
      assert (Hqw : q * tBinWidth = hi + tBinWidth - lo).
      { unfold q. field. lra. }
      nra.
    + eapply Forall_impl; [| exact Hlo]. cbv beta. intros x Hx. unfold Rltb.
      destruct (Rlt_dec _ _) as [Hlt | _]; [| reflexivity].
      change (INR 0) with 0 in Hlt. lra.
Qed.

End Histogram.

Lemma iadd_same_length (reconstructed x : ndarray) :
  length x = length reconstructed ->
  iadd reconstructed x = Ok (zip_with Rplus reconstructed x).
Proof.
  intros H. unfold iadd. rewrite H, Nat.eqb_refl. reflexivity.
Qed.

Lemma map_snd_combine_same {A B : Type} (a : list A) (b : list B) :
  length a = length b -> map snd (combine a b) = b.
Proof.
  revert b. induction a as [| x a IH]; intros [| y b]; simpl; intros H;
    try discriminate; auto.
  rewrite IH by lia. reflexivity.
Qed.

(** Every pass of the loop adds the count of its bin to the sum of the
    accumulator: a skipped bin has count [0], a processed one adds [count]
    times weights that sum to [1]. *)
Lemma reconstruction_loop_sum (tExpected : ndarray) (sigma : R)
      (bins : list (R * Z)) (reconstructed : ndarray) :
  tExpected <> [] ->
  length tExpected = length reconstructed ->
  exists r,
    reconstruction_loop tExpected sigma bins reconstructed = Ok r /\
    length r = length reconstructed /\
    np_sum r = np_sum reconstructed + np_sum (map IZR (map snd bins)).
Proof.
  intros Hne. revert reconstructed.
  induction bins as [| [tBin count] bins IH]; intros reconstructed Hlen.
  - exists reconstructed. simpl. rewrite np_sum_nil. repeat split. ring.
  - cbn [reconstruction_loop map snd]. rewrite np_sum_cons.
    destruct (Z.eqb_spec count 0) as [E | E].
    + destruct (IH reconstructed Hlen) as (r & Hr & Hl & Hs).
      exists r. rewrite E. repeat split; auto. rewrite Hs. simpl. ring.
    + set (w := gaussian_weights tExpected tBin sigma).
      assert (Hw : length (map (fun x => IZR count * x) w) = length reconstructed).
      { rewrite length_map. unfold w. rewrite gaussian_weights_length. exact Hlen. }
      rewrite (iadd_same_length _ _ Hw). cbn [bind].
      destruct (IH (zip_with Rplus reconstructed (map (fun x => IZR count * x) w)))
        as (r & Hr & Hl & Hs).
      { rewrite zip_with_length, Hw, Nat.min_id. exact Hlen. }
      exists r. split; [exact Hr |]. split.
      * rewrite Hl, zip_with_length, Hw, Nat.min_id. reflexivity.
      * rewrite Hs, np_sum_zip_plus by (symmetry; exact Hw).
        rewrite (np_sum_scale _ (IZR count)) by reflexivity.
        unfold w. rewrite gaussian_weights_sum by exact Hne. ring.
Qed.

(** X19: conservation of counts: for a sample with two distinct timestamps, a
    positive bin width and a non-empty depth axis with aligned [tp] and
    [gammaTOF], the accumulated profile (before the correction) sums to the
    number of timestamps. *)
Theorem accumulate_conserves_counts
        (phantom detectorData tp gammaTOF : ndarray) (tBinWidth sigma : R) :
  0 < tBinWidth -> 0 < sigma ->
  (exists x y, In x detectorData /\ In y detectorData /\ x < y) ->
  phantom <> [] ->
  length tp = length phantom ->
  length gammaTOF = length phantom ->
  exists reconstructed,
    accumulate phantom detectorData tp gammaTOF tBinWidth sigma = Ok reconstructed /\
    length reconstructed = length phantom /\
    np_sum reconstructed = INR (length detectorData).
Proof.
  intros Hw _ Htwo Hne Htp Hg.
  destruct (time_histogram_total detectorData tBinWidth Hw Htwo)
    as (tCounts & tBinEdges & Hh & Hlen & Hsum).
  unfold accumulate.
  rewrite broadcast2_same_length by congruence. cbn [bind].
  rewrite Hh. cbn [bind].
  set (centres := zip_with (fun a b => (a + b) / 2) (removelast tBinEdges) (tl tBinEdges)).
  assert (Hc : length centres = length tCounts).
  { unfold centres. rewrite zip_with_length, removelast_length_pred.
    destruct tBinEdges; simpl in *; lia. }
  destruct (reconstruction_loop_sum (zip_with Rplus tp gammaTOF) sigma
              (combine centres tCounts) (map (fun _ => 0) phantom))
    as (r & Hr & Hl & Hs).
  - intros E. apply (f_equal (@length R)) in E.
    rewrite zip_with_length in E. destruct phantom; [congruence |].
    simpl in *. lia.
  - rewrite zip_with_length, !length_map. lia.
  - exists r. split; [exact Hr |]. split.
    + rewrite Hl, length_map. reflexivity.
    + rewrite Hs, np_sum_zeros, map_snd_combine_same by exact Hc.
      rewrite Hsum. ring.
Qed.

(** ** Burst simulation *)

Section Burst.
Variable RS : RandomSource.

Lemma poisson_each_length (lam : ndarray) (g : rng RS) :
  length (fst (poisson_each RS lam g)) = length lam.
Proof.
  revert g. induction lam as [| l lam IH]; intros g; simpl; [reflexivity |].
  destruct (poisson1 RS l g) as [k g1].
  specialize (IH g1). destruct (poisson_each RS lam g1) as [ks g2].
  simpl in *. lia.
Qed.

Lemma normal_each_length (loc scale : R) (size : nat) (g : rng RS) :
  length (fst (normal_each RS loc scale size g)) = size.
Proof.
  revert g. induction size as [| size IH]; intros g; simpl; [reflexivity |].
  destruct (normal1 RS loc scale g) as [x g1].
  specialize (IH g1). destruct (normal_each RS loc scale size g1) as [xs g2].
  simpl in *. lia.
Qed.

Lemma existsb_none (lam : ndarray) (f : R -> bool) :
  (forall l, In l lam -> f l = false) -> existsb f lam = false.
Proof.
  intros H. induction lam as [| l lam IH]; simpl; [reflexivity |].
  rewrite (H l) by (left; reflexivity). apply IH.
  intros x Hx. apply H. right. exact Hx.
Qed.

(** The draw is accepted when every mean lies between [0] and the largest
    mean of the generator. *)
Lemma random_poisson_in_range (lam : ndarray) (g : rng RS) :
  Forall (fun l => 0 <= l) lam ->
  Forall (fun l => l <= POISSON_LAM_MAX) lam ->
  random_poisson RS lam g = Ok (poisson_each RS lam g).
Proof.
  intros H0 Hmax. unfold random_poisson.
  rewrite Forall_forall in H0, Hmax.
  rewrite (existsb_none lam (fun l => Rltb POISSON_LAM_MAX l)).
  2:{ intros l Hl. unfold Rltb.
      destruct (Rlt_dec POISSON_LAM_MAX l) as [Hlt | _]; [| reflexivity].
      specialize (Hmax l Hl). lra. }
  rewrite (existsb_none lam (fun l => Rltb l 0)); [reflexivity |].
  intros l Hl. unfold Rltb.
  destruct (Rlt_dec l 0) as [Hlt | _]; [| reflexivity].
  specialize (H0 l Hl). lra.
Qed.

(** A mean above the largest one is refused, whatever the other means. *)
Lemma random_poisson_too_large (lam : ndarray) (g : rng RS) :
  Exists (fun l => POISSON_LAM_MAX < l) lam ->
  random_poisson RS lam g = Raise (ValueError "lam value too large").
Proof.
  intros H. unfold random_poisson.
  replace (existsb (fun l => Rltb POISSON_LAM_MAX l) lam) with true; [reflexivity |].
  symmetry. apply existsb_exists. apply Exists_exists in H.
  destruct H as (l & Hin & Hl). exists l. split; [exact Hin |].
  unfold Rltb. destruct (Rlt_dec POISSON_LAM_MAX l); [reflexivity | lra].
Qed.

(** The background draw of mean [2] per bin is always accepted. *)
Lemma random_poisson_background (size : nat) (g : rng RS) :
  random_poisson_size RS 2 size g = Ok (poisson_each RS (repeat 2 size) g).
Proof.
  unfold random_poisson_size, Rltb, POISSON_LAM_MAX.
  destruct (Rlt_dec 2 0) as [H | _]; [lra |].
  destruct (Rlt_dec 9223372006484770816 2) as [H | _]; [lra | reflexivity].
Qed.

Lemma concat_repeat_length (a : ndarray) (k : list nat) :
  length a = length k ->
  length (concat (zip_with (fun x n => repeat x n) a k)) = list_sum k.
Proof.
  revert k. induction a as [| x a IH]; intros [| n k]; simpl; intros H;
    try discriminate; [reflexivity |].
  rewrite length_app, repeat_length, IH by lia. reflexivity.
Qed.

Lemma zip_with_Forall3 {A B C : Type} (f : A -> B -> C)
      (P : A -> Prop) (Q : B -> Prop) (S : C -> Prop) (a : list A) (b : list B) :
  (forall x y, P x -> Q y -> S (f x y)) ->
  Forall P a -> Forall Q b -> Forall S (zip_with f a b).
Proof.
  intros Hf Ha. revert b. induction Ha as [| x a Hx _ IH]; intros b Hb.
  - constructor.
  - destruct Hb as [| y b Hy Hb]; simpl; constructor; auto.
Qed.

(** The expected count of a bin is the emission at the peak, scaled by the
    normalised dose of the bin, which is at most [1]: the expected counts
    stay below the largest mean of the generator when the emission at the
    peak, seen from each distance, does. *)
Lemma expected_counts_within_limit (dose distMag : ndarray)
      (m pPB yiel dArea mu : R) :
  0 < m ->
  Forall (fun d => 0 < d) dose -> Forall (fun d => d <= m) dose ->
  0 <= pPB -> 0 <= yiel -> 0 <= dArea ->
  Forall (fun d => d <> 0) distMag ->
  Forall (fun d => pPB * yiel * (dArea / (4 * PI * (d / 1000) ^ 2))
                    * exp (- mu * (d / 10)) <= POISSON_LAM_MAX) distMag ->
  Forall (fun x => x <= POISSON_LAM_MAX)
         (zip_with Rmult
            (zip_with Rmult
               (map (fun d => pPB * yiel * d) (map (fun d => d / m) dose))
               (map (fun d => dArea / (4 * PI * (d / 1000) ^ 2)) distMag))
            (map (fun d => exp (- mu * (d / 10))) distMag)).
Proof.
  intros Hm Hpos Hle HpPB Hyiel HdArea Hnz Hmax. revert distMag Hnz Hmax.
  induction dose as [| x dose IH]; intros distMag Hnz Hmax.
  - constructor.
  - destruct distMag as [| d distMag]; [constructor |].
    inversion Hpos as [| ? ? Hx Hpos']; subst.
    inversion Hle as [| ? ? Hxm Hle']; subst.
    inversion Hnz as [| ? ? Hd Hnz']; subst.
    inversion Hmax as [| ? ? Hb Hmax']; subst.
    cbn [map zip_with]. constructor; [| apply IH; assumption].
    set (s := dArea / (4 * PI * (d / 1000) ^ 2)) in *.
    set (a := exp (- mu * (d / 10))) in *.
    assert (Hs : 0 <= s).
    { unfold s. assert (0 < (d / 1000) ^ 2).
      { rewrite <- Rsqr_pow2. apply Rlt_0_sqr. lra. }
      pose proof PI_RGT_0.
      apply Rmult_le_pos; [lra |]. apply Rlt_le, Rinv_0_lt_compat. nra. }
    assert (Ha : 0 < a) by apply exp_pos.
    assert (Hq : 0 <= x / m <= 1).
    { split; [apply Rlt_le, Rdiv_lt_0_compat; lra |].
      apply Rmult_le_reg_r with m; [lra |]. field_simplify; lra. }
    assert (Hc : 0 <= pPB * yiel) by nra.
    assert (Hsa : 0 <= s * a) by nra.
    assert (Hcsa : 0 <= pPB * yiel * (s * a)) by nra.
    apply Rle_trans with (pPB * yiel * s * a); [| exact Hb].
    replace (pPB * yiel * (x / m) * s * a) with ((x / m) * (pPB * yiel * (s * a)))
      by ring.
    replace (pPB * yiel * s * a) with (1 * (pPB * yiel * (s * a))) by ring.
    apply Rmult_le_compat_r; [exact Hcsa | lra].
Qed.

(** The emission at the peak seen from a distance of at least [1] mm stays
    below the largest mean as soon as [pPB * yiel * dArea * 100000] does:
    the solid-angle factor is at most [dArea * 1000000 / (4 * PI)] and the
    attenuation at most [1]. *)
Lemma peak_emission_within_limit (c dArea mu d : R) :
  0 <= c -> 0 <= dArea -> 0 <= mu -> 1 <= d ->
  c * dArea * 100000 <= POISSON_LAM_MAX ->
  c * (dArea / (4 * PI * (d / 1000) ^ 2)) * exp (- mu * (d / 10))
  <= POISSON_LAM_MAX.
Proof.
  intros Hc HdA Hmu Hd Hlim.
  assert (Hpi : 3 < PI) by (pose proof PI2_3_2; lra).
  assert (Hden : 1 / 100000 <= 4 * PI * (d / 1000) ^ 2).
  { assert (1 / 1000000 <= (d / 1000) ^ 2).
    { replace ((d / 1000) ^ 2) with (d * d / 1000000) by field. nra. }
    nra. }
  set (den := 4 * PI * (d / 1000) ^ 2) in *.
  assert (Hs : 0 <= dArea / den <= dArea * 100000).
  { assert (0 < den) by lra.
    split; [apply Rmult_le_pos; [lra | apply Rlt_le, Rinv_0_lt_compat; lra] |].
    apply Rmult_le_reg_r with den; [lra |].
    replace (dArea / den * den) with dArea by (field; lra). nra. }
  assert (Ha : 0 < exp (- mu * (d / 10)) <= 1).
  { split; [apply exp_pos |].
    destruct (Req_dec (- mu * (d / 10)) 0) as [E | E].
    - rewrite E, exp_0. lra.
    - rewrite <- exp_0. apply Rlt_le, exp_increasing. nra. }
  set (a := exp (- mu * (d / 10))) in *.
  set (s := dArea / den) in *.
  apply Rle_trans with (c * dArea * 100000); [| exact Hlim].
  assert (0 <= c * s) by nra.
  assert (c * s <= c * (dArea * 100000)) by nra.
  nra.
Qed.

(** The expected detected counts are non-negative and below the largest
    mean, so the Poisson draws are accepted. *)
Lemma detected_counts_returns (phantom distMag : ndarray)
      (peak pPB yiel dArea mu : R) (g : rng RS) :
  phantom <> [] -> length distMag = length phantom ->
  0 <= pPB -> 0 <= yiel -> 0 <= dArea ->
  Forall (fun d => d <> 0) distMag ->
  Forall (fun d => pPB * yiel * (dArea / (4 * PI * (d / 1000) ^ 2))
                    * exp (- mu * (d / 10)) <= POISSON_LAM_MAX) distMag ->
  exists k g1,
    detected_counts RS phantom distMag peak pPB yiel dArea mu g = Ok (k, g1) /\
    length k = length phantom.
Proof.
  intros Hne Hd HpPB Hyiel HdArea Hnz Hlim.
  unfold detected_counts, CreateBraggCurve_default.
  rewrite CreateBraggCurve_pointwise. cbn [bind].
  set (dose := map (bragg_dose_at peak 1.0 0.3 8 5) phantom).
  assert (Hdose : Forall (fun d => 0 < d) dose).
  { unfold dose. rewrite Forall_forall. intros d Hin.
    apply in_map_iff in Hin. destruct Hin as (z & <- & _).
    apply dose_at_pos; lra. }
  assert (Hdne : dose <> []).
  { unfold dose. destruct phantom; [congruence | discriminate]. }
  destruct (np_max_spec dose Hdne) as (m & Hm & Hle). rewrite Hm. cbn [bind].
  assert (Hmpos : 0 < m).
  { destruct dose as [| d0 dose']; [congruence |].
    inversion Hdose; subst. inversion Hle; subst. lra. }
  set (nEmit := map (fun d => pPB * yiel * d) (map (fun d => d / m) dose)).
  set (solid := map (fun d => dArea / (4 * PI * (d / 1000) ^ 2)) distMag).
  set (att := map (fun d => exp (- mu * (d / 10))) distMag).
  assert (HnE : Forall (fun x => 0 <= x) nEmit).
  { unfold nEmit. rewrite Forall_forall. intros x Hin.
    apply in_map_iff in Hin. destruct Hin as (y & <- & Hin).
    apply in_map_iff in Hin. destruct Hin as (d & <- & Hin).
    rewrite Forall_forall in Hdose. specialize (Hdose d Hin).
    assert (0 <= d / m) by (apply Rlt_le, Rdiv_lt_0_compat; lra).
    assert (0 <= pPB * yiel) by nra. nra. }
  assert (Hso : Forall (fun x => 0 <= x) solid).
  { unfold solid. rewrite Forall_forall. intros x Hin.
    apply in_map_iff in Hin. destruct Hin as (d & <- & Hin).
    rewrite Forall_forall in Hnz. specialize (Hnz d Hin).
    assert (0 < (d / 1000) ^ 2).
    { rewrite <- Rsqr_pow2. apply Rlt_0_sqr. lra. }
    pose proof PI_RGT_0.
    apply Rmult_le_pos; [lra |]. apply Rlt_le, Rinv_0_lt_compat. nra. }
  assert (Hat : Forall (fun x => 0 <= x) att).
  { unfold att. rewrite Forall_forall. intros x Hin.
    apply in_map_iff in Hin. destruct Hin as (d & <- & _).
    apply Rlt_le, exp_pos. }
  assert (Hl1 : length nEmit = length solid).
  { unfold nEmit, solid, dose. rewrite !length_map. lia. }
  rewrite (broadcast2_same_length Rmult nEmit solid Hl1). cbn [bind].
  assert (Hl2 : length (zip_with Rmult nEmit solid) = length att).
  { rewrite zip_with_length. unfold att. rewrite length_map.
    unfold nEmit, solid, dose in *. rewrite !length_map in *. lia. }
  rewrite (broadcast2_same_length Rmult _ att Hl2). cbn [bind].
  set (mean := zip_with Rmult (zip_with Rmult nEmit solid) att).
  assert (Hmean : Forall (fun x => 0 <= x) mean).
  { unfold mean.
    apply (zip_with_Forall3 Rmult (fun x => 0 <= x) (fun x => 0 <= x)); auto.
    - intros; nra.
    - apply (zip_with_Forall3 Rmult (fun x => 0 <= x) (fun x => 0 <= x)); auto.
      intros; nra. }
  assert (Hmax : Forall (fun x => x <= POISSON_LAM_MAX) mean).
  { unfold mean, nEmit, solid, att.
    apply expected_counts_within_limit; assumption. }
  rewrite (random_poisson_in_range mean g Hmean Hmax). cbn [bind].
  pose proof (poisson_each_length mean g) as Hk.
  destruct (poisson_each RS mean g) as [k g1]. cbn [fst] in Hk.
  rewrite random_poisson_background. cbn [bind].
  pose proof (poisson_each_length (repeat 2 (length k)) g1) as Hb.
  destruct (poisson_each RS (repeat 2 (length k)) g1) as [bg g2]. cbn [fst] in Hb.
  rewrite repeat_length in Hb.
  exists (zip_with Nat.add k bg), g2. split; [reflexivity |].
  rewrite zip_with_length, Hb, Nat.min_id, Hk. unfold mean.
  rewrite zip_with_length, Hl2, Nat.min_id. unfold att. rewrite length_map. exact Hd.
Qed.

End Burst.

(** C7: [SimulateBurst] returns one timestamp per detected count.  Before
    the jitter, bin [i] with drawn count [k_i] contributes [k_i] copies of
    its base time [distMag_i / c + tp_i]; the jitter is one draw of
    [normal(0, dTRes)] per timestamp, added elementwise.  (That the draws are
    independent and Gaussian is the generator's contract.)  The counts are
    drawn only at means the Poisson generator accepts: the emission at the
    peak, seen from each distance, has to stay below [POISSON_LAM_MAX],
    beyond which the draw raises [ValueError]
    ([random_poisson_too_large]). *)
Theorem SimulateBurst_event_list
        (RS : RandomSource) (phantom distMag : ndarray)
        (peak pPB yiel dArea mu : R) (tp : ndarray) (dTRes : R) (g : rng RS) :
  phantom <> [] ->
  length distMag = length phantom ->
  length tp = length phantom ->
  0 <= pPB -> 0 <= yiel -> 0 <= dArea ->
  Forall (fun d => d <> 0) distMag ->
  Forall (fun d => pPB * yiel * (dArea / (4 * PI * (d / 1000) ^ 2))
                    * exp (- mu * (d / 10)) <= POISSON_LAM_MAX) distMag ->
  0 <= dTRes ->
  exists k g1 baseTime timingJitter g2 measuredTime,
    detected_counts RS phantom distMag peak pPB yiel dArea mu g = Ok (k, g1) /\
    length k = length phantom /\
    base_times distMag tp = Ok baseTime /\
    length baseTime = length phantom /\
    (forall i, (i < length phantom)%nat ->
               nth i baseTime 0 = nth i distMag 0 / c_light + nth i tp 0) /\
    random_normal RS 0 dTRes (list_sum k) g1 = Ok (timingJitter, g2) /\
    length timingJitter = list_sum k /\
    SimulateBurst RS phantom distMag peak pPB yiel dArea mu tp dTRes g
    = Ok (measuredTime, g2) /\
    measuredTime
    = zip_with Rplus (concat (zip_with (fun b n => repeat b n) baseTime k))
                     timingJitter /\
    length measuredTime = list_sum k.
Proof.
  intros Hne Hd Htp HpPB Hyiel HdArea Hnz Hlim Hres.
  destruct (detected_counts_returns RS phantom distMag peak pPB yiel dArea mu g
              Hne Hd HpPB Hyiel HdArea Hnz Hlim) as (k & g1 & Hk & Hklen).
  set (baseTime := zip_with Rplus (map (fun d => d / 3e8) distMag) tp).
  assert (Hbase : base_times distMag tp = Ok baseTime).
  { unfold base_times. apply broadcast2_same_length. rewrite length_map. lia. }
  assert (Hblen : length baseTime = length phantom).
  { unfold baseTime. rewrite zip_with_length, length_map. lia. }
  set (events := concat (zip_with (fun b n => repeat b n) baseTime k)).
  assert (Hev : length events = list_sum k).
  { unfold events. apply concat_repeat_length. lia. }
  assert (Hnorm : random_normal RS 0 dTRes (list_sum k) g1
                  = Ok (normal_each RS 0 dTRes (list_sum k) g1)).
  { unfold random_normal, Rltb. destruct (Rlt_dec dTRes 0); [lra | reflexivity]. }
  pose proof (normal_each_length RS 0 dTRes (list_sum k) g1) as Hjlen.
  destruct (normal_each RS 0 dTRes (list_sum k) g1) as [jitter g2] eqn:Hj.
  cbn [fst] in Hjlen.
  exists k, g1, baseTime, jitter, g2, (zip_with Rplus events jitter).
  repeat split; auto.
  - intros i Hi. unfold baseTime.
    rewrite (zip_with_nth Rplus _ _ i 0 0 0) by (rewrite ?length_map; lia).
    f_equal.
    rewrite (nth_indep _ 0 ((fun d => d / 3e8) 0)) by (rewrite length_map; lia).
    rewrite (map_nth (fun d => d / 3e8)). reflexivity.
  - unfold SimulateBurst. rewrite Hk. cbn [bind]. rewrite Hbase. cbn [bind].
    unfold np_repeat.
    replace (length k =? length baseTime)%nat with true
      by (symmetry; apply Nat.eqb_eq; lia).
    cbn [bind]. fold events. rewrite Hev, Hnorm. reflexivity.
  - rewrite zip_with_length, Hev, Hjlen, Nat.min_id. reflexivity.
Qed.

Lemma SimulateBurst_event_list_witness :
  exists k g1 baseTime timingJitter g2 measuredTime,
    detected_counts counting_source [149; 150; 151] [200; 201; 202]
                    150 5e13 1e-4 0.0025 0.06 (0%nat) = Ok (k, g1) /\
    length k = length [149; 150; 151] /\
    base_times [200; 201; 202] [1; 2; 3] = Ok baseTime /\
    length baseTime = length [149; 150; 151] /\
    (forall i, (i < length [149; 150; 151])%nat ->
               nth i baseTime 0 = nth i [200; 201; 202] 0 / c_light + nth i [1; 2; 3] 0) /\
    random_normal counting_source 0 0.5e-9 (list_sum k) g1 = Ok (timingJitter, g2) /\
    length timingJitter = list_sum k /\
    SimulateBurst counting_source [149; 150; 151] [200; 201; 202]
                  150 5e13 1e-4 0.0025 0.06 [1; 2; 3] 0.5e-9 (0%nat)
    = Ok (measuredTime, g2) /\
    measuredTime
    = zip_with Rplus (concat (zip_with (fun b n => repeat b n) baseTime k))
                     timingJitter /\
    length measuredTime = list_sum k.
Proof.
  apply (SimulateBurst_event_list counting_source [149; 150; 151] [200; 201; 202]
           150 5e13 1e-4 0.0025 0.06 [1; 2; 3] 0.5e-9 (0%nat)).
  - discriminate.
  - reflexivity.
  - reflexivity.
  - lra.
  - lra.
  - lra.
  - repeat constructor; lra.
  - repeat apply Forall_cons; try apply Forall_nil;
      apply (peak_emission_within_limit (5e13 * 1e-4));
      unfold POISSON_LAM_MAX; lra.
  - lra.
Defined.

(** ** Reconstruction: time bins without a count *)








(** ** The model on small inputs *)

(** A proton that stands still at the middle bin: the integrand is
    [1/2, 0, 1/2] and each trapezoid has area [1/4]. *)
Example ProtonTime_three_bins :
  ProtonTime [2; 0; 2] [0; 1; 2] = Ok [0; 1 / 4; 1 / 2].
Proof.
  unfold ProtonTime. rewrite integrand_loop_app. cbn [app map].
  destruct (Req_dec_T 2 0) as [E | _]; [lra |].
  destruct (Req_dec_T 0 0) as [_ | n]; [| lra].
  unfold cumulative_trapezoid, np_diff, np_cumsum.
  cbn [length Nat.eqb Nat.sub negb tl removelast zip_with cumsum_from bind].
  do 2 f_equal. f_equal; [lra |]. f_equal. lra.
Qed.

(** Two timestamps one bin width apart: [arange(0, 2, 1)] is [[0, 1]], a
    single closed bin that holds both. *)
Example time_histogram_two_timestamps :
  time_histogram [0; 1] 1 = Ok ([2%Z], [0 + INR 0 * 1; 0 + INR 1 * 1]).
Proof.
  unfold time_histogram, np_min, np_max. cbn [fold_left].
  rewrite Rmin_left, Rmax_right by lra. cbn [bind].
  unfold np_arange. destruct (Req_dec_T 1 0) as [E | _]; [lra |].
  replace (Zceil ((1 + 1 - 0) / 1)) with 2%Z
    by (symmetry; apply Zceil_eq; lra).
  change (Z.to_nat 2) with 2%nat. cbn [bind].
  unfold np_histogram.
  rewrite (monotonic_arange 0 1 0 2) by lra.
  rewrite np_histogram_bin_counts by (apply (monotonic_arange 0 1 0 2); lra).
  cbn [seq map bin_counts filter]. unfold Rleb. change (INR 0) with 0. change (INR 1) with 1.
  repeat (match goal with
          | |- context [Rle_dec ?a ?b] => destruct (Rle_dec a b); try lra
          end).
  reflexivity.
Qed.

(** One depth bin and the two timestamps above: the whole count lands on
    the only depth bin. *)
Example accumulate_two_timestamps :
  exists r, accumulate [0] [0; 1] [0] [0] 1 1 = Ok [r] /\ r = 2.
Proof.
  unfold accumulate. cbn [broadcast2 length Nat.eqb zip_with bind].
  rewrite time_histogram_two_timestamps.
  cbn [bind removelast tl zip_with combine map reconstruction_loop Z.eqb].
  unfold gaussian_weights. cbn [map]. rewrite np_sum_cons, np_sum_nil.
  cbn [iadd length map Nat.eqb zip_with bind reconstruction_loop].
  eexists. split; [reflexivity |].
  assert (H : 0 < exp (- Rabs (0 + 0 - (0 + INR 0 * 1 + (0 + INR 1 * 1)) / 2) ^ 2
                       / (2 * 1 ^ 2))) by apply exp_pos.
  field_simplify; [lra | lra].
Qed.

(** * Further properties of the code *)

(** ** [velocities]: the entries behind the entrance override *)

Section VelocityEntries.
Variable energies : dict.
Variable initialE : R.

(** The loop appends, in order, the velocity of each depth. *)
Lemma velocities_loop_nth (phantom vel vel' : ndarray) :
  velocities_loop energies initialE phantom vel = Ok vel' ->
  length vel' = (length vel + length phantom)%nat /\
  (forall i, (i < length vel)%nat -> nth i vel' 0 = nth i vel 0) /\
  (forall i, (i < length phantom)%nat ->
             velocity_at energies initialE (nth i phantom 0)
             = Ok (nth (length vel + i) vel' 0)).
Proof.
  revert vel. induction phantom as [| z rest IH]; intros vel H.
  - simpl in H. injection H as <-. split; [simpl; lia |]. split; [auto |].
    intros i Hi. simpl in Hi. lia.
  - cbn [velocities_loop] in H. apply bind_Ok_inv in H.
    destruct H as (v & Hv & H). apply IH in H.
    destruct H as (Hlen & Hold & Hnew).
    rewrite length_app in Hlen, Hold, Hnew. cbn [length] in *.
    split; [lia |]. split.
    + intros i Hi. rewrite Hold by lia. apply app_nth1. exact Hi.
    + intros [| i] Hi.
      * cbn [nth]. rewrite Nat.add_0_r, Hold by lia.
        rewrite app_nth2 by lia. rewrite Nat.sub_diag. exact Hv.
      * cbn [nth]. replace (length vel + S i)%nat with (length vel + 1 + i)%nat by lia.
        apply Hnew. lia.
Qed.

(** Behind the two overridden bins every entry is what the loop body
    computes for its depth. *)
Lemma velocities_entry (phantom vel : ndarray) (i : nat) :
  velocities energies phantom initialE = Ok vel ->
  (2 <= i)%nat -> (i < length phantom)%nat ->
  velocity_at energies initialE (nth i phantom 0) = Ok (nth i vel 0).
Proof.
  intros H Hi Hlt. unfold velocities in H.
  apply bind_Ok_inv in H. destruct H as (v0 & Hv0 & H).
  apply bind_Ok_inv in H. destruct H as (v1 & Hv1 & H).
  apply bind_Ok_inv in H. destruct H as (v2 & Hv2 & H).
  injection H as <-.
  unfold setitem in Hv1, Hv2.
  destruct (0 <? length v0)%nat; [| discriminate]. injection Hv1 as <-.
  destruct (1 <? _)%nat; [| discriminate]. injection Hv2 as <-.
  rewrite !replace_nth_other by lia.
  destruct (velocities_loop_nth phantom [] v0 Hv0) as (_ & _ & Hnew).
  apply (Hnew i Hlt).
Qed.

Lemma beta_increasing (e1 e2 : R) :
  0 <= e1 -> e1 <= e2 ->
  sqrt (1 - (938.3 / (e1 + 938.3)) ^ 2) <= sqrt (1 - (938.3 / (e2 + 938.3)) ^ 2).
Proof.
  intros H1 H12. apply sqrt_le_1_alt.
  assert (Hq : 938.3 / (e2 + 938.3) <= 938.3 / (e1 + 938.3)).
  { unfold Rdiv. apply Rmult_le_compat_l; [lra |].
    apply Rinv_le_contravar; lra. }
  assert (Hq2 : 0 < 938.3 / (e2 + 938.3)) by (apply Rdiv_lt_0_compat; lra).
  nra.
Qed.

Lemma beta_strict (e : R) :
  0 < e -> 0 < sqrt (1 - (938.3 / (e + 938.3)) ^ 2) < 1.
Proof.
  intros He.
  assert (Hq : 0 < 938.3 / (e + 938.3) < 1).
  { split; [apply Rdiv_lt_0_compat; lra |].
    apply (Rmult_lt_reg_r (e + 938.3)); [lra |].
    unfold Rdiv. rewrite Rmult_assoc, Rinv_l by lra. lra. }
  set (q := 938.3 / (e + 938.3)) in *.
  split.
  - apply sqrt_lt_R0. nra.
  - rewrite <- sqrt_1 at 2. apply sqrt_lt_1_alt. nra.
Qed.

End VelocityEntries.

(** X1: when the table covers the axis, behind the two entrance bins the
    velocity at a depth is [0] if the table energy of that depth reaches the
    initial energy (the proton has stopped), and lies strictly between [0]
    and [c] if some energy remains. *)
Theorem velocities_stop_or_move
        (energies : dict) (phantom : ndarray) (initialE : R) :
  Forall (fun z => dict_get energies z <> None) phantom ->
  (2 <= length phantom)%nat ->
  exists vel,
    velocities energies phantom initialE = Ok vel /\
    forall i e,
      (2 <= i)%nat -> (i < length phantom)%nat ->
      dict_get energies (nth i phantom 0) = Some e ->
      (initialE <= e -> nth i vel 0 = 0) /\
      (e < initialE -> 0 < nth i vel 0 < c_light).
Proof.
  intros Hk Hlen.
  destruct (velocities_loop_total energies initialE phantom [] Hk) as [v0 Hv0].
  destruct (velocities_loop_nth energies initialE phantom [] v0 Hv0) as (Hl & _ & _).
  cbn [length] in Hl.
  pose proof (velocities_override energies phantom initialE v0 Hv0 ltac:(lia)) as Hrun.
  eexists. split; [exact Hrun |].
  intros i e Hi Hlt He.
  pose proof (velocities_entry energies initialE phantom _ i Hrun Hi Hlt) as Hv.
  split.
  - intros Hle.
    rewrite (velocity_at_stopped energies initialE _ e He Hle) in Hv.
    injection Hv as <-. reflexivity.
  - intros Hgt. unfold velocity_at in Hv. rewrite He in Hv. cbv zeta in Hv.
    destruct (Rle_dec (initialE - e) 0) as [Hle | _]; [lra |].
    injection Hv as Hv. rewrite <- Hv.
    pose proof (beta_strict (initialE - e) ltac:(lra)) as Hb.
    unfold pow in Hb |- *. set (b := sqrt _) in *. unfold c_light. nra.
Qed.

Lemma table_covers_three_bins :
  Forall (fun z => dict_get [(0, 0); (1, 10); (2, 200)] z <> None) [0; 1; 2].
Proof.
  repeat constructor; simpl;
    repeat (match goal with
            | |- context [Req_dec_T ?a ?b] => destruct (Req_dec_T a b); try lra
            end);
    discriminate.
Qed.

Lemma velocities_stop_or_move_witness :
  exists vel,
    velocities [(0, 0); (1, 10); (2, 200)] [0; 1; 2] 145.722222 = Ok vel /\
    forall i e,
      (2 <= i)%nat -> (i < length [0; 1; 2])%nat ->
      dict_get [(0, 0); (1, 10); (2, 200)] (nth i [0; 1; 2] 0) = Some e ->
      (145.722222 <= e -> nth i vel 0 = 0) /\
      (e < 145.722222 -> 0 < nth i vel 0 < c_light).
Proof.
  apply (velocities_stop_or_move [(0, 0); (1, 10); (2, 200)] [0; 1; 2] 145.722222).
  - exact table_covers_three_bins.
  - simpl. lia.
Defined.

(** X2: the proton never speeds up where the table energy grows: behind the
    entrance bins, a depth with a larger table energy has a velocity that
    is not larger. *)
Theorem velocities_slow_down
        (energies : dict) (phantom : ndarray) (initialE : R) :
  Forall (fun z => dict_get energies z <> None) phantom ->
  (2 <= length phantom)%nat ->
  exists vel,
    velocities energies phantom initialE = Ok vel /\
    forall i j ei ej,
      (2 <= i)%nat -> (i < length phantom)%nat ->
      (2 <= j)%nat -> (j < length phantom)%nat ->
      dict_get energies (nth i phantom 0) = Some ei ->
      dict_get energies (nth j phantom 0) = Some ej ->
      ei <= ej -> nth j vel 0 <= nth i vel 0.
Proof.
  intros Hk Hlen.
  destruct (velocities_loop_total energies initialE phantom [] Hk) as [v0 Hv0].
  destruct (velocities_loop_nth energies initialE phantom [] v0 Hv0) as (Hl & _ & _).
  cbn [length] in Hl.
  pose proof (velocities_override energies phantom initialE v0 Hv0 ltac:(lia)) as Hrun.
  eexists. split; [exact Hrun |].
  intros i j ei ej Hi Hilt Hj Hjlt Hei Hej Hle.
  pose proof (velocities_entry energies initialE phantom _ i Hrun Hi Hilt) as Hvi.
  pose proof (velocities_entry energies initialE phantom _ j Hrun Hj Hjlt) as Hvj.
  unfold velocity_at in Hvi, Hvj. rewrite Hei in Hvi. rewrite Hej in Hvj.
  cbv zeta in Hvi, Hvj. injection Hvi as Hvi. injection Hvj as Hvj.
  rewrite <- Hvi, <- Hvj.
  apply Rmult_le_compat_r; [lra |].
  apply beta_increasing.
  - destruct (Rle_dec (initialE - ej) 0); lra.
  - destruct (Rle_dec (initialE - ej) 0), (Rle_dec (initialE - ei) 0); lra.
Qed.

Lemma velocities_slow_down_witness :
  exists vel,
    velocities [(0, 0); (1, 10); (2, 200)] [0; 1; 2] 145.722222 = Ok vel /\
    forall i j ei ej,
      (2 <= i)%nat -> (i < length [0; 1; 2])%nat ->
      (2 <= j)%nat -> (j < length [0; 1; 2])%nat ->
      dict_get [(0, 0); (1, 10); (2, 200)] (nth i [0; 1; 2] 0) = Some ei ->
      dict_get [(0, 0); (1, 10); (2, 200)] (nth j [0; 1; 2] 0) = Some ej ->
      ei <= ej -> nth j vel 0 <= nth i vel 0.
Proof.
  apply (velocities_slow_down [(0, 0); (1, 10); (2, 200)] [0; 1; 2] 145.722222).
  - exact table_covers_three_bins.
  - simpl. lia.
Defined.

(** X3: on an axis of fewer than two bins that the table covers, the
    entrance override runs off the end of the profile: [velocities] raises
    [IndexError] (a [LookupError]) for the index equal to the length of the
    axis. *)
Theorem velocities_axis_too_short
        (energies : dict) (phantom : ndarray) (initialE : R) :
  Forall (fun z => dict_get energies z <> None) phantom ->
  (length phantom < 2)%nat ->
  velocities energies phantom initialE
  = Raise (IndexError (length phantom) (length phantom)) /\
  is_LookupError (IndexError (length phantom) (length phantom)) = true.
Proof.
  intros Hk Hlen.
  destruct (velocities_loop_total energies initialE phantom [] Hk) as [v0 Hv0].
  destruct (velocities_loop_nth energies initialE phantom [] v0 Hv0) as (Hl & _ & _).
  cbn [length] in Hl. rewrite Nat.add_0_l in Hl.
  split; [| reflexivity].
  unfold velocities. rewrite Hv0. cbn [bind]. unfold setitem.
  destruct v0 as [| a [| b v0]]; cbn [length] in *.
  - rewrite <- Hl. reflexivity.
  - rewrite <- Hl. reflexivity.
  - lia.
Qed.

Lemma velocities_axis_too_short_witness :
  velocities [(0, 0)] [0] 145.722222 = Raise (IndexError (length [0]) (length [0])) /\
  is_LookupError (IndexError (length [0]) (length [0])) = true.
Proof.
  apply (velocities_axis_too_short [(0, 0)] [0] 145.722222).
  - repeat constructor. simpl. destruct (Req_dec_T 0 0); [discriminate | lra].
  - simpl. lia.
Defined.

(** ** [loadEnergyDict]: what a lookup in the loaded table returns *)

Lemma dict_get_app (a b : dict) (k : R) :
  dict_get (a ++ b) k
  = match dict_get a k with
    | Some v => Some v
    | None => dict_get b k
    end.
Proof.
  induction a as [| [k' v'] a IH]; simpl; [reflexivity |].
  destruct (Req_dec_T k k'); [reflexivity | exact IH].
Qed.

Lemma dict_get_In (d : dict) (k : R) :
  dict_get d k <> None <-> In k (map fst d).
Proof.
  induction d as [| [k' v'] d IH]; simpl.
  - split; [congruence | tauto].
  - destruct (Req_dec_T k k') as [E | N].
    + split; [intros _; left; congruence | discriminate].
    + rewrite IH. split; [tauto |]. intros [E | H]; [congruence | exact H].
Qed.

Lemma loadEnergyDict_rev (Range_mm Energy_MeV : ndarray) :
  loadEnergyDict Range_mm Energy_MeV = rev (combine Range_mm Energy_MeV).
Proof.
  unfold loadEnergyDict.
  assert (H : forall rows d,
             fold_left (fun d row => dict_set d (fst row) (snd row)) rows d
             = rev rows ++ d).
  { induction rows as [| [k v] rows IH]; intros d; simpl; [reflexivity |].
    rewrite IH, <- app_assoc. reflexivity. }
  rewrite H, app_nil_r. reflexivity.
Qed.

Lemma loadEnergyDict_keys (Range_mm Energy_MeV : ndarray) (k : R) :
  length Range_mm = length Energy_MeV ->
  (In k (map fst (loadEnergyDict Range_mm Energy_MeV)) <-> In k Range_mm).
Proof.
  intros Hlen. rewrite loadEnergyDict_rev, map_rev, <- in_rev.
  revert Energy_MeV Hlen.
  induction Range_mm as [| k0 ks IH]; intros [| v0 vs] Hlen; simpl in *;
    try discriminate; [tauto |].
  rewrite IH by lia. tauto.
Qed.

(** X4: a lookup in the loaded table returns the energy of the last row
    that carries the range: row [i] answers for its range whenever no later
    row repeats it.  With pairwise distinct ranges every row is found. *)
Theorem loadEnergyDict_last_row_wins (Range_mm Energy_MeV : ndarray) (i : nat) :
  length Range_mm = length Energy_MeV ->
  (i < length Range_mm)%nat ->
  (forall j, (i < j < length Range_mm)%nat -> nth j Range_mm 0 <> nth i Range_mm 0) ->
  dict_get (loadEnergyDict Range_mm Energy_MeV) (nth i Range_mm 0)
  = Some (nth i Energy_MeV 0).
Proof.
  rewrite loadEnergyDict_rev. revert Energy_MeV i.
  induction Range_mm as [| k0 ks IH]; intros [| v0 vs] i Hlen Hi Hlater;
    simpl in Hlen, Hi; try lia.
  cbn [combine rev]. rewrite dict_get_app.
  destruct i as [| i].
  - cbn [nth].
    assert (Hnone : dict_get (rev (combine ks vs)) k0 = None).
    { destruct (dict_get (rev (combine ks vs)) k0) eqn:E; [| reflexivity].
      exfalso.
      assert (Hin : In k0 ks).
      { apply (loadEnergyDict_keys ks vs k0); [lia |].
        rewrite loadEnergyDict_rev. apply dict_get_In. congruence. }
      apply (In_nth _ _ 0) in Hin. destruct Hin as (j & Hj & Hnth).
      apply (Hlater (S j)); [simpl; lia |]. simpl. exact Hnth. }
    rewrite Hnone. simpl. destruct (Req_dec_T k0 k0); [reflexivity | lra].
  - cbn [nth]. rewrite (IH vs i); [reflexivity | lia | lia |].
    intros j Hj. apply (Hlater (S j)). simpl. lia.
Qed.

Lemma loadEnergyDict_last_row_wins_witness :
  dict_get (loadEnergyDict [0; 1; 1] [5; 6; 7]) (nth 2 [0; 1; 1] 0)
  = Some (nth 2 [5; 6; 7] 0).
Proof.
  apply (loadEnergyDict_last_row_wins [0; 1; 1] [5; 6; 7] 2).
  - reflexivity.
  - simpl. lia.
  - intros j Hj. simpl in Hj. lia.
Defined.

(** X5: with the table loaded from two columns of equal length,
    [velocities] raises [KeyError] exactly when some depth of the axis is
    not in the range column, and returns when the column holds every depth
    of an axis of at least two bins. *)
Theorem velocities_on_loaded_table
        (Range_mm Energy_MeV phantom : ndarray) (initialE : R) :
  length Range_mm = length Energy_MeV ->
  (Exists (fun z => ~ In z Range_mm) phantom ->
   exists z, In z phantom /\ ~ In z Range_mm /\
             velocities (loadEnergyDict Range_mm Energy_MeV) phantom initialE
             = Raise (KeyError z)) /\
  (Forall (fun z => In z Range_mm) phantom -> (2 <= length phantom)%nat ->
   exists vel,
     velocities (loadEnergyDict Range_mm Energy_MeV) phantom initialE = Ok vel /\
     length vel = length phantom).
Proof.
  intros Hlen.
  set (energies := loadEnergyDict Range_mm Energy_MeV).
  assert (Hkey : forall z, dict_get energies z <> None <-> In z Range_mm).
  { intros z. unfold energies. rewrite dict_get_In.
    apply loadEnergyDict_keys. exact Hlen. }
  split.
  - intros Hex.
    assert (Hex' : Exists (fun z => dict_get energies z = None) phantom).
    { eapply Exists_impl; [| exact Hex]. cbv beta. intros z Hz.
      destruct (dict_get energies z) eqn:E; [| reflexivity].
      exfalso. apply Hz, Hkey. congruence. }
    destruct (velocities_loop_missing energies initialE phantom [] Hex')
      as (z & Hin & Hnone & Hrun).
    exists z. split; [exact Hin |]. split.
    + intros Hz. apply Hkey in Hz. congruence.
    + unfold velocities. rewrite Hrun. reflexivity.
  - intros Hall Hlen2.
    assert (Hk : Forall (fun z => dict_get energies z <> None) phantom).
    { eapply Forall_impl; [| exact Hall]. cbv beta. intros z Hz. apply Hkey, Hz. }
    destruct (velocities_loop_total energies initialE phantom [] Hk) as [v0 Hv0].
    destruct (velocities_loop_nth energies initialE phantom [] v0 Hv0) as (Hl & _ & _).
    cbn [length] in Hl.
    eexists. split; [apply (velocities_override _ _ _ v0 Hv0); lia |].
    rewrite !replace_nth_length. lia.
Qed.

Lemma velocities_on_loaded_table_witness :
  (exists z, In z [0; 1; 7] /\ ~ In z [0; 1; 2] /\
             velocities (loadEnergyDict [0; 1; 2] [0; 10; 20]) [0; 1; 7] 145.722222
             = Raise (KeyError z)) /\
  (exists vel,
     velocities (loadEnergyDict [0; 1; 2] [0; 10; 20]) [0; 1; 2] 145.722222 = Ok vel /\
     length vel = length [0; 1; 2]).
Proof.
  split.
  - apply (proj1 (velocities_on_loaded_table [0; 1; 2] [0; 10; 20] [0; 1; 7] 145.722222
                    eq_refl)).
    apply Exists_cons_tl, Exists_cons_tl, Exists_cons_hd.
    simpl. intros [H | [H | [H | H]]]; lra.
  - apply (proj2 (velocities_on_loaded_table [0; 1; 2] [0; 10; 20] [0; 1; 2] 145.722222
                    eq_refl)).
    + rewrite Forall_forall. intros z Hz. exact Hz.
    + simpl. lia.
Defined.

(** ** [ProtonTime]: closed forms and shape errors *)

Lemma ProtonTime_unfold (velocities phantom : ndarray) :
  velocities <> [] -> length velocities = length phantom ->
  ProtonTime velocities phantom
  = Ok (0 :: cumsum_from 0
               (zip_with (fun di s => di * s / 2) (np_diff phantom)
                  (zip_with Rplus
                     (tl (map (fun v => if Req_dec_T v 0 then 0 else 1 / v) velocities))
                     (removelast
                        (map (fun v => if Req_dec_T v 0 then 0 else 1 / v) velocities))))).
Proof.
  intros Hne Hlen. unfold ProtonTime, cumulative_trapezoid.
  rewrite integrand_loop_app. cbn [app].
  rewrite length_map, np_diff_length, Hlen, Nat.eqb_refl.
  destruct phantom as [| x0 xr]; [destruct velocities; [congruence | discriminate] |].
  reflexivity.
Qed.

Lemma trapezoids_cons (x0 x1 y0 y1 : R) (xr yr : ndarray) :
  zip_with (fun di s => di * s / 2) (np_diff (x0 :: x1 :: xr))
           (zip_with Rplus (tl (y0 :: y1 :: yr)) (removelast (y0 :: y1 :: yr)))
  = (x1 - x0) * (y1 + y0) / 2
    :: zip_with (fun di s => di * s / 2) (np_diff (x1 :: xr))
                (zip_with Rplus (tl (y1 :: yr)) (removelast (y1 :: yr))).
Proof. reflexivity. Qed.

Lemma cumsum_constant_integrand (y0 x0 acc : R) (xr : ndarray) :
  cumsum_from acc
    (zip_with (fun di s => di * s / 2) (np_diff (x0 :: xr))
       (zip_with Rplus (tl (map (fun _ => y0) (x0 :: xr)))
                       (removelast (map (fun _ => y0) (x0 :: xr)))))
  = map (fun x => acc + (x - x0) * y0) xr.
Proof.
  revert x0 acc. induction xr as [| x1 xr IH]; intros x0 acc; [reflexivity |].
  cbn [map]. rewrite trapezoids_cons. cbn [cumsum_from map].
  change (y0 :: map (fun _ : R => y0) xr) with (map (fun _ : R => y0) (x1 :: xr)).
  rewrite IH. f_equal; [field |].
  apply map_ext. intros x. field.
Qed.

(** X6: at a constant non-zero velocity the proton time at a depth is the
    path length from the first bin divided by the velocity (the trapezoid
    rule is exact on a constant integrand), on any non-empty axis. *)
Theorem ProtonTime_constant_velocity (v : R) (phantom : ndarray) :
  v <> 0 -> phantom <> [] ->
  ProtonTime (map (fun _ => v) phantom) phantom
  = Ok (map (fun x => (x - hd 0 phantom) / v) phantom).
Proof.
  intros Hv Hne. destruct phantom as [| x0 xr]; [congruence |].
  rewrite ProtonTime_unfold;
    [| cbn [map]; discriminate | rewrite length_map; reflexivity].
  rewrite map_map.
  destruct (Req_dec_T v 0) as [E | _]; [congruence |].
  rewrite cumsum_constant_integrand. cbn [map hd]. f_equal. f_equal.
  - field. exact Hv.
  - apply map_ext. intros x. field. exact Hv.
Qed.

Lemma ProtonTime_constant_velocity_witness :
  ProtonTime (map (fun _ => 2) [0; 1; 3]) [0; 1; 3]
  = Ok (map (fun x => (x - hd 0 [0; 1; 3]) / 2) [0; 1; 3]).
Proof.
  apply (ProtonTime_constant_velocity 2 [0; 1; 3]).
  - lra.
  - discriminate.
Defined.

Lemma nth_cons_S {A : Type} (a : A) (l : list A) (d : A) (j : nat) :
  nth (S j) (a :: l) d = nth j l d.
Proof. reflexivity. Qed.

Lemma nth_cons_0 {A : Type} (a : A) (l : list A) (d : A) :
  nth 0 (a :: l) d = a.
Proof. reflexivity. Qed.

Lemma cumsum_stalls (x y : ndarray) (acc : R) (i j : nat) :
  length y = length x ->
  (i <= j)%nat -> (j < length x)%nat ->
  (forall m, (i <= m)%nat -> (m < length x)%nat -> nth m y 0 = 0) ->
  nth j (acc :: cumsum_from acc
                  (zip_with (fun di s => di * s / 2) (np_diff x)
                            (zip_with Rplus (tl y) (removelast y)))) 0
  = nth i (acc :: cumsum_from acc
                    (zip_with (fun di s => di * s / 2) (np_diff x)
                              (zip_with Rplus (tl y) (removelast y)))) 0.
Proof.
  revert y acc i j. induction x as [| x0 xr IH]; intros y acc i j Hlen Hij Hj Hz.
  - simpl in Hj. lia.
  - destruct y as [| y0 yr]; [discriminate |].
    destruct xr as [| x1 xr].
    + simpl in Hj. assert (j = 0)%nat by lia. assert (i = 0)%nat by lia.
      subst. reflexivity.
    + destruct yr as [| y1 yr]; [discriminate |].
      rewrite trapezoids_cons. cbn [cumsum_from].
      destruct j as [| j].
      * assert (i = 0)%nat by lia. subst. reflexivity.
      * destruct i as [| i].
        -- pose proof (Hz 0%nat ltac:(lia) ltac:(simpl; lia)) as H0.
           pose proof (Hz 1%nat ltac:(lia) ltac:(simpl; lia)) as H1.
           cbn [nth] in H0, H1. subst y0 y1.
           rewrite nth_cons_S, nth_cons_0.
           rewrite (IH (0 :: yr) (acc + (x1 - x0) * (0 + 0) / 2) 0%nat j);
             [rewrite nth_cons_0; field | simpl in *; lia | lia | simpl in *; lia |].
           intros m _ Hm. apply (Hz (S m)); [lia | simpl in *; lia].
        -- rewrite !nth_cons_S.
           apply (IH (y1 :: yr) (acc + (x1 - x0) * (y1 + y0) / 2) i j);
             [simpl in *; lia | lia | simpl in *; lia |].
           intros m Him Hm. apply (Hz (S m)); [lia | simpl in *; lia].
Qed.

(** X7: once the proton has stopped the clock stops too: if all
    velocities from bin [i] on are [0], the proton time of every later bin
    equals that of bin [i]. *)
Theorem ProtonTime_stalls_after_stop (velocities phantom : ndarray) :
  velocities <> [] -> length velocities = length phantom ->
  exists tp,
    ProtonTime velocities phantom = Ok tp /\
    length tp = length phantom /\
    forall i j,
      (i <= j)%nat -> (j < length phantom)%nat ->
      (forall m, (i <= m)%nat -> (m < length phantom)%nat -> nth m velocities 0 = 0) ->
      nth j tp 0 = nth i tp 0.
Proof.
  intros Hne Hlen. rewrite (ProtonTime_unfold velocities phantom Hne Hlen).
  set (recip := fun v => if Req_dec_T v 0 then 0 else 1 / v).
  eexists. split; [reflexivity |]. split.
  - cbn [length]. rewrite cumsum_from_length, !zip_with_length, np_diff_length,
      removelast_length_pred, length_map.
    destruct velocities as [| v0 vr]; [congruence |].
    cbn [map tl length] in *. rewrite length_map. lia.
  - intros i j Hij Hj Hz.
    apply cumsum_stalls; [rewrite length_map; exact Hlen | exact Hij | exact Hj |].
    intros m Him Hm.
    replace 0 with (recip 0) at 1
      by (unfold recip; destruct (Req_dec_T 0 0); [reflexivity | lra]).
    rewrite map_nth, (Hz m Him Hm). unfold recip.
    destruct (Req_dec_T 0 0); [reflexivity | lra].
Qed.

Lemma ProtonTime_stalls_after_stop_witness :
  exists tp,
    ProtonTime [2; 1; 0; 0] [0; 1; 2; 3] = Ok tp /\
    length tp = length [0; 1; 2; 3] /\
    forall i j,
      (i <= j)%nat -> (j < length [0; 1; 2; 3])%nat ->
      (forall m, (i <= m)%nat -> (m < length [0; 1; 2; 3])%nat ->
                 nth m [2; 1; 0; 0] 0 = 0) ->
      nth j tp 0 = nth i tp 0.
Proof.
  apply (ProtonTime_stalls_after_stop [2; 1; 0; 0] [0; 1; 2; 3]).
  - discriminate.
  - reflexivity.
Defined.

(** X8: [ProtonTime] rejects profiles that do not fit the axis: without any
    velocity, or with a number of velocities different from the number of
    bins of a non-empty axis, SciPy's integration raises [ValueError]. *)
Theorem ProtonTime_shape_mismatch (velocities phantom : ndarray) :
  velocities = [] \/ (phantom <> [] /\ length velocities <> length phantom) ->
  exists msg, ProtonTime velocities phantom = Raise (ValueError msg).
Proof.
  intros [E | [Hne Hlen]].
  - subst. eexists. reflexivity.
  - unfold ProtonTime, cumulative_trapezoid.
    rewrite integrand_loop_app. cbn [app]. rewrite length_map, np_diff_length.
    destruct velocities as [| v0 vr]; [eexists; reflexivity |].
    destruct phantom as [| x0 xr]; [congruence |].
    cbn [length Nat.eqb] in *.
    replace (S (length xr) - 1 =? S (length vr) - 1)%nat with false
      by (symmetry; apply Nat.eqb_neq; lia).
    eexists. reflexivity.
Qed.

Lemma ProtonTime_shape_mismatch_witness :
  exists msg, ProtonTime [1; 1] [0; 1; 2] = Raise (ValueError msg).
Proof.
  apply (ProtonTime_shape_mismatch [1; 1] [0; 1; 2]).
  right. split; [discriminate | simpl; lia].
Defined.

Lemma trapezoids_pos (x y : ndarray) :
  StronglySorted Rlt x ->
  Forall (fun v => 0 < v) y ->
  Forall (fun t => 0 < t)
         (zip_with (fun di s => di * s / 2) (np_diff x)
                   (zip_with Rplus (tl y) (removelast y))).
Proof.
  revert y. induction x as [| x0 l IH]; intros y Hx Hy.
  - constructor.
  - destruct l as [| x1 xr]; [constructor |].
    destruct y as [| y0 [| y1 yr]]; try (simpl; constructor).
    + inversion Hx as [| ? ? _ Hall]; subst. inversion Hall; subst.
      inversion Hy as [| ? ? Hy0 Hy']; subst. inversion Hy'; subst. nra.
    + apply (IH (y1 :: yr)).
      * inversion Hx; assumption.
      * inversion Hy; assumption.
Qed.

Lemma cumsum_from_strictly_sorted (acc : R) (a : ndarray) :
  Forall (fun t => 0 < t) a ->
  StronglySorted Rlt (acc :: cumsum_from acc a).
Proof.
  intros Ha. revert acc. induction Ha as [| t a Ht _ IH]; intros acc; simpl.
  - constructor; constructor.
  - specialize (IH (acc + t)). constructor; [exact IH |].
    apply StronglySorted_inv in IH. destruct IH as [_ Hall].
    constructor; [lra |].
    eapply Forall_impl; [| exact Hall]. cbv beta. intros; lra.
Qed.

(** X9: while the proton moves, the clock runs: with strictly positive
    velocities on a strictly increasing axis the proton times strictly
    increase, so no two depths share a proton time. *)
Theorem ProtonTime_strictly_increasing (velocities phantom : ndarray) :
  Forall (fun v => 0 < v) velocities ->
  StronglySorted Rlt phantom ->
  length velocities = length phantom ->
  phantom <> [] ->
  exists tp,
    ProtonTime velocities phantom = Ok tp /\
    length tp = length phantom /\
    StronglySorted Rlt tp.
Proof.
  intros Hv Hx Hlen Hne.
  assert (Hvne : velocities <> []).
  { destruct velocities; [destruct phantom; [congruence | discriminate] | discriminate]. }
  rewrite (ProtonTime_unfold velocities phantom Hvne Hlen).
  eexists. split; [reflexivity |]. split.
  - cbn [length]. rewrite cumsum_from_length, !zip_with_length, np_diff_length,
      removelast_length_pred, length_map.
    destruct velocities as [| v0 vr]; [congruence |].
    cbn [map tl length] in *. rewrite length_map. lia.
  - apply cumsum_from_strictly_sorted, trapezoids_pos; [exact Hx |].
    rewrite Forall_forall. intros y Hy. apply in_map_iff in Hy.
    destruct Hy as (v & <- & Hin). rewrite Forall_forall in Hv. specialize (Hv v Hin).
    destruct (Req_dec_T v 0); [lra |]. apply Rdiv_lt_0_compat; lra.
Qed.

Lemma ProtonTime_strictly_increasing_witness :
  exists tp,
    ProtonTime [3; 2; 1] [0; 1; 2] = Ok tp /\
    length tp = length [0; 1; 2] /\
    StronglySorted Rlt tp.
Proof.
  apply (ProtonTime_strictly_increasing [3; 2; 1] [0; 1; 2]).
  - repeat constructor; lra.
  - repeat constructor; lra.
  - reflexivity.
  - discriminate.
Defined.

(** ** [CreateBraggCurve]: range of the dose and rise to the peak *)

Lemma fold_left_Rmax_In (rest : ndarray) (acc : R) :
  fold_left Rmax rest acc = acc \/ In (fold_left Rmax rest acc) rest.
Proof.
  revert acc. induction rest as [| y rest IH]; intros acc; simpl; [left; reflexivity |].
  destruct (IH (Rmax acc y)) as [E | Hin]; [| right; right; exact Hin].
  rewrite E. unfold Rmax. destruct (Rle_dec acc y); [right; left; reflexivity | left; reflexivity].
Qed.

Lemma np_max_attained (a : ndarray) (M : R) :
  Forall (fun v => v <= M) a -> In M a -> np_max a = Ok M.
Proof.
  intros Hle Hin. destruct a as [| x rest]; [inversion Hin |].
  cbn [np_max]. f_equal.
  destruct (fold_left_Rmax_spec rest x) as [Hx Hall].
  assert (Hhi : In (fold_left Rmax rest x) (x :: rest)).
  { destruct (fold_left_Rmax_In rest x) as [E | H]; [left; symmetry; exact E | right; exact H]. }
  rewrite Forall_forall in Hle. specialize (Hle _ Hhi).
  assert (M <= fold_left Rmax rest x).
  { destruct Hin as [E | Hin]; [subst; exact Hx |].
    rewrite Forall_forall in Hall. apply Hall, Hin. }
  lra.
Qed.

Section BraggRange.
Variables braggPosition peakHeight entranceDose peakWidth falloffSteepness : R.
Hypothesis peakHeight_nonneg : 0 <= peakHeight.
Hypothesis entranceDose_nonneg : 0 <= entranceDose.
Hypothesis dose_not_null : 0 < peakHeight + entranceDose.
Hypothesis peakWidth_nonzero : peakWidth <> 0.
Hypothesis falloffSteepness_pos : 0 < falloffSteepness.

Local Notation "'dose_at'" :=
  (bragg_dose_at braggPosition peakHeight entranceDose peakWidth falloffSteepness)
  (at level 0).

Lemma gaussian_factor_le_1 (d : R) :
  0 < exp ((- ((d - braggPosition) ^ 2)) / (2 * peakWidth ^ 2)) <= 1.
Proof.
  split; [apply exp_pos |].
  rewrite <- exp_0.
  assert (Hw : 0 < 2 * peakWidth ^ 2).
  { assert (0 < peakWidth ^ 2).
    { rewrite <- Rsqr_pow2. apply Rlt_0_sqr. exact peakWidth_nonzero. }
    lra. }
  assert (Ha : 0 <= (d - braggPosition) ^ 2) by (rewrite <- Rsqr_pow2; apply Rle_0_sqr).
  assert (Hi : 0 < / (2 * peakWidth ^ 2)) by (apply Rinv_0_lt_compat; exact Hw).
  set (q := (- ((d - braggPosition) ^ 2)) / (2 * peakWidth ^ 2)).
  assert (Hq : q <= 0) by (unfold q, Rdiv; nra).
  destruct (Rle_lt_or_eq_dec q 0 Hq) as [Hlt | E].
  - apply Rlt_le, exp_increasing. exact Hlt.
  - rewrite E. lra.
Qed.

Lemma dose_at_le_peak (d : R) : dose_at d <= peakHeight + entranceDose.
Proof.
  unfold bragg_dose_at.
  pose proof (gaussian_factor_le_1 d) as Hg.
  set (g := exp ((- ((d - braggPosition) ^ 2)) / (2 * peakWidth ^ 2))) in *.
  unfold Rltb. destruct (Rlt_dec braggPosition d) as [Hd | _]; [| nra].
  assert (Hf : 0 < exp ((- (d - braggPosition)) / falloffSteepness) < 1).
  { split; [apply exp_pos |]. rewrite <- exp_0. apply exp_increasing.
    unfold Rdiv. assert (0 < / falloffSteepness) by (apply Rinv_0_lt_compat; lra). nra. }
  set (f := exp ((- (d - braggPosition)) / falloffSteepness)) in *.
  assert (Ha : 0 <= entranceDose * 1 + peakHeight * g <= peakHeight + entranceDose) by nra.
  set (a := entranceDose * 1 + peakHeight * g) in *. nra.
Qed.

Lemma dose_at_peak : dose_at braggPosition = entranceDose + peakHeight.
Proof.
  unfold bragg_dose_at, Rltb.
  destruct (Rlt_dec braggPosition braggPosition) as [H | _]; [lra |].
  replace ((- ((braggPosition - braggPosition) ^ 2)) / (2 * peakWidth ^ 2)) with 0.
  - rewrite exp_0. ring.
  - unfold Rdiv. ring.
Qed.

Lemma dose_at_rising (d1 d2 : R) :
  0 < peakHeight -> d1 < d2 -> d2 <= braggPosition -> dose_at d1 < dose_at d2.
Proof.
  intros Hh H12 H2. unfold bragg_dose_at, Rltb.
  destruct (Rlt_dec braggPosition d1) as [H | _]; [lra |].
  destruct (Rlt_dec braggPosition d2) as [H | _]; [lra |].
  assert (Hw : 0 < 2 * peakWidth ^ 2).
  { assert (0 < peakWidth ^ 2).
    { rewrite <- Rsqr_pow2. apply Rlt_0_sqr. exact peakWidth_nonzero. }
    lra. }
  assert (Hg : exp ((- ((d1 - braggPosition) ^ 2)) / (2 * peakWidth ^ 2))
               < exp ((- ((d2 - braggPosition) ^ 2)) / (2 * peakWidth ^ 2))).
  { apply exp_increasing. unfold Rdiv.
    apply Rmult_lt_compat_r; [apply Rinv_0_lt_compat; exact Hw | nra]. }
  nra.
Qed.

Lemma dose_at_nondecreasing (d1 d2 : R) :
  d1 < d2 -> d2 <= braggPosition -> dose_at d1 <= dose_at d2.
Proof.
  intros H12 H2.
  destruct (Rle_lt_or_eq_dec 0 peakHeight peakHeight_nonneg) as [Hh | Hh0].
  - apply Rlt_le, dose_at_rising; assumption.
  - unfold bragg_dose_at, Rltb.
    destruct (Rlt_dec braggPosition d1) as [H | _]; [lra |].
    destruct (Rlt_dec braggPosition d2) as [H | _]; [lra |].
    rewrite <- Hh0. lra.
Qed.

End BraggRange.

(** X10: for a non-negative peak height and entrance dose that are not both
    zero, a non-zero peak width and a positive falloff steepness, every dose
    value is positive and at most [entranceDose + peakHeight]; that value
    is taken at a bin located exactly at the Bragg position, and is then the
    maximum by which [SimulateBurst] normalizes. *)
Theorem CreateBraggCurve_range
        (depths : ndarray)
        (braggPosition peakHeight entranceDose peakWidth falloffSteepness : R) :
  0 <= peakHeight -> 0 <= entranceDose -> 0 < peakHeight + entranceDose ->
  peakWidth <> 0 -> 0 < falloffSteepness ->
  exists dose,
    CreateBraggCurve depths braggPosition peakHeight entranceDose peakWidth
                     falloffSteepness = Ok dose /\
    length dose = length depths /\
    Forall (fun v => 0 < v <= entranceDose + peakHeight) dose /\
    (forall i, (i < length depths)%nat -> nth i depths 0 = braggPosition ->
               nth i dose 0 = entranceDose + peakHeight) /\
    (In braggPosition depths -> np_max dose = Ok (entranceDose + peakHeight)).
Proof.
  intros Hh He Hhe Hw Hs.
  set (dose_at := bragg_dose_at braggPosition peakHeight entranceDose peakWidth
                                falloffSteepness).
  assert (Hrange : Forall (fun v => 0 < v <= entranceDose + peakHeight)
                          (map dose_at depths)).
  { rewrite Forall_forall. intros v Hv. apply in_map_iff in Hv.
    destruct Hv as (d & <- & _). split.
    - apply dose_at_pos; assumption.
    - rewrite Rplus_comm. apply dose_at_le_peak; assumption. }
  exists (map dose_at depths).
  split; [apply CreateBraggCurve_pointwise |].
  split; [apply length_map |].
  split; [exact Hrange |]. split.
  - intros i Hi Hd.
    rewrite (nth_indep (map dose_at depths) 0 (dose_at 0)) by (rewrite length_map; lia).
    rewrite map_nth, Hd. apply dose_at_peak.
  - intros Hin. apply np_max_attained.
    + eapply Forall_impl; [| exact Hrange]. cbv beta. intros v Hv. lra.
    + apply in_map_iff. exists braggPosition. split; [apply dose_at_peak | exact Hin].
Qed.

Lemma CreateBraggCurve_range_witness :
  exists dose,
    CreateBraggCurve [149; 150; 151] 150 1.0 0.3 8 5 = Ok dose /\
    length dose = length [149; 150; 151] /\
    Forall (fun v => 0 < v <= 0.3 + 1.0) dose /\
    (forall i, (i < length [149; 150; 151])%nat -> nth i [149; 150; 151] 0 = 150 ->
               nth i dose 0 = 0.3 + 1.0) /\
    (In 150 [149; 150; 151] -> np_max dose = Ok (0.3 + 1.0)).
Proof.
  apply (CreateBraggCurve_range [149; 150; 151] 150 1.0 0.3 8 5); lra.
Defined.

(** X11: on a strictly increasing axis the dose never decreases over the
    bins up to and including the Bragg position, for a peak height that is
    not negative; in exact real arithmetic it rises strictly there when the
    peak height is positive.  (In doubles the Gaussian term underflows far
    below the peak and the rise is flat there: only the first statement
    carries over.) *)
Theorem CreateBraggCurve_rises_to_peak
        (depths : ndarray)
        (braggPosition peakHeight entranceDose peakWidth falloffSteepness : R) :
  0 <= peakHeight -> peakWidth <> 0 ->
  StronglySorted Rlt depths ->
  exists dose,
    CreateBraggCurve depths braggPosition peakHeight entranceDose peakWidth
                     falloffSteepness = Ok dose /\
    forall i j, (i < j < length depths)%nat ->
                nth j depths 0 <= braggPosition ->
                nth i dose 0 <= nth j dose 0 /\
                (0 < peakHeight -> nth i dose 0 < nth j dose 0).
Proof.
  intros Hh Hw Hsorted.
  set (dose_at := bragg_dose_at braggPosition peakHeight entranceDose peakWidth
                                falloffSteepness).
  exists (map dose_at depths).
  split; [apply CreateBraggCurve_pointwise |].
  intros i j Hij Hj.
  rewrite !(nth_indep (map dose_at depths) 0 (dose_at 0))
    by (rewrite length_map; lia).
  rewrite !map_nth.
  assert (Hlt : nth i depths 0 < nth j depths 0)
    by (apply StronglySorted_nth_lt; assumption).
  split.
  - apply dose_at_nondecreasing; assumption.
  - intros Hpos. apply dose_at_rising; assumption.
Qed.

Lemma CreateBraggCurve_rises_to_peak_witness :
  exists dose,
    CreateBraggCurve [148; 149; 150; 151] 150 1.0 0.3 8 5 = Ok dose /\
    forall i j, (i < j < length [148; 149; 150; 151])%nat ->
                nth j [148; 149; 150; 151] 0 <= 150 ->
                nth i dose 0 <= nth j dose 0 /\
                (0 < 1.0 -> nth i dose 0 < nth j dose 0).
Proof.
  apply (CreateBraggCurve_rises_to_peak [148; 149; 150; 151] 150 1.0 0.3 8 5).
  - lra.
  - lra.
  - repeat constructor; lra.
Defined.

(** ** [CreatePhantom] and [CalculateDistances] *)

Lemma np_linspace_integers (n : nat) :
  np_linspace 0 (INR (S n)) (S (S n)) = map INR (seq 0 (S (S n))).
Proof.
  unfold np_linspace.
  rewrite (seq_S (S n) 0), !map_app. cbn [map Nat.add].
  rewrite removelast_last.
  f_equal.
  apply map_ext. intros i.
  assert (INR (S n) <> 0) by (apply not_0_INR; lia).
  field. assumption.
Qed.

Lemma seq_INR_sorted (a n : nat) : StronglySorted Rlt (map INR (seq a n)).
Proof.
  revert a. induction n as [| n IH]; intros a; cbn [seq map]; constructor.
  - apply IH.
  - rewrite Forall_forall. intros x Hx. apply in_map_iff in Hx.
    destruct Hx as (i & <- & Hi). apply in_seq in Hi. apply lt_INR. lia.
Qed.

Lemma INR_300 : INR 300 = 300.
Proof. rewrite INR_IZR_INZ. reflexivity. Qed.

Lemma CreatePhantom_fst : fst CreatePhantom = map INR (seq 0 301).
Proof.
  unfold CreatePhantom. cbn [fst]. rewrite <- INR_300.
  exact (np_linspace_integers 299).
Qed.

Lemma CreatePhantom_snd :
  snd CreatePhantom = map (fun x => (x, 0)) (fst CreatePhantom).
Proof.
  unfold CreatePhantom. cbn [fst snd].
  generalize (np_linspace 0 300 301). intros l.
  induction l as [| x l IH]; [reflexivity |].
  cbn [map combine]. rewrite IH. reflexivity.
Qed.

(** X12: the phantom is the axis of the 301 integer depths [0, 1, ..., 300]
    (bin [i] at depth [i] mm), strictly increasing, and its two-column form
    puts every bin on the line [y = 0]. *)
Theorem CreatePhantom_axis :
  fst CreatePhantom = map INR (seq 0 301) /\
  length (fst CreatePhantom) = 301%nat /\
  (forall i, (i < 301)%nat -> nth i (fst CreatePhantom) 0 = INR i) /\
  StronglySorted Rlt (fst CreatePhantom) /\
  (forall i, (i < 301)%nat -> nth i (snd CreatePhantom) (0, 0) = (INR i, 0)).
Proof.
  pose proof CreatePhantom_fst as H.
  split; [exact H |]. split; [| split; [| split]].
  - rewrite H, length_map, length_seq. reflexivity.
  - intros i Hi. rewrite H.
    rewrite (nth_indep _ 0 (INR 0)) by (rewrite length_map, length_seq; exact Hi).
    rewrite map_nth, seq_nth by exact Hi. reflexivity.
  - rewrite H. apply seq_INR_sorted.
  - intros i Hi. rewrite CreatePhantom_snd, H, map_map.
    rewrite (nth_indep _ (0, 0) ((fun x => (INR x, 0)) 0%nat))
      by (rewrite length_map, length_seq; exact Hi).
    rewrite (map_nth (fun x => (INR x, 0))), seq_nth by exact Hi. reflexivity.
Qed.

Section Distances.
Variables (phantomXY : points) (detectorLocation : R * R).

Lemma distance_magnitude_bounds (dx dy : R) :
  Rabs dx <= sqrt (dx ^ 2 + dy ^ 2) /\ Rabs dy <= sqrt (dx ^ 2 + dy ^ 2).
Proof.
  assert (Hx : 0 <= dx ^ 2) by (rewrite <- Rsqr_pow2; apply Rle_0_sqr).
  assert (Hy : 0 <= dy ^ 2) by (rewrite <- Rsqr_pow2; apply Rle_0_sqr).
  split.
  - rewrite <- (sqrt_pow2 (Rabs dx)) at 1 by apply Rabs_pos.
    apply sqrt_le_1_alt. rewrite pow2_abs. lra.
  - rewrite <- (sqrt_pow2 (Rabs dy)) at 1 by apply Rabs_pos.
    apply sqrt_le_1_alt. rewrite pow2_abs. lra.
Qed.

Lemma CalculateDistances_entries :
  let '(distances, distMag) := CalculateDistances phantomXY detectorLocation in
  length distances = length phantomXY /\
  length distMag = length phantomXY /\
  forall i, (i < length phantomXY)%nat ->
    nth i distances (0, 0)
    = (fst detectorLocation - fst (nth i phantomXY (0, 0)),
       snd detectorLocation - snd (nth i phantomXY (0, 0))) /\
    nth i distMag 0
    = sqrt ((fst detectorLocation - fst (nth i phantomXY (0, 0))) ^ 2 +
            (snd detectorLocation - snd (nth i phantomXY (0, 0))) ^ 2).
Proof.
  unfold CalculateDistances. rewrite !length_map.
  split; [reflexivity |]. split; [reflexivity |].
  intros i Hi.
  set (f := fun bin : R * R =>
              (fst detectorLocation - fst bin, snd detectorLocation - snd bin)).
  set (m := fun distance : R * R => sqrt (fst distance ^ 2 + snd distance ^ 2)).
  split.
  - rewrite (nth_indep (map f phantomXY) (0, 0) (f (0, 0)))
      by (rewrite length_map; exact Hi).
    rewrite map_nth. reflexivity.
  - rewrite (nth_indep (map m (map f phantomXY)) 0 (m (f (0, 0))))
      by (rewrite !length_map; exact Hi).
    rewrite !map_nth. reflexivity.
Qed.

End Distances.

(** X13: [CalculateDistances] returns one difference vector and one
    magnitude per bin; a magnitude is never negative, is at least the
    offset of the detector from the bin along either coordinate, and is
    zero only for a bin at the detector itself. *)
Theorem CalculateDistances_magnitudes
        (phantomXY : points) (detectorLocation : R * R) (i : nat) :
  (i < length phantomXY)%nat ->
  length (fst (CalculateDistances phantomXY detectorLocation)) = length phantomXY /\
  length (snd (CalculateDistances phantomXY detectorLocation)) = length phantomXY /\
  Rabs (fst detectorLocation - fst (nth i phantomXY (0, 0)))
  <= nth i (snd (CalculateDistances phantomXY detectorLocation)) 0 /\
  Rabs (snd detectorLocation - snd (nth i phantomXY (0, 0)))
  <= nth i (snd (CalculateDistances phantomXY detectorLocation)) 0 /\
  (nth i (snd (CalculateDistances phantomXY detectorLocation)) 0 = 0 ->
   nth i phantomXY (0, 0) = detectorLocation).
Proof.
  intros Hi.
  pose proof (CalculateDistances_entries phantomXY detectorLocation) as H.
  destruct (CalculateDistances phantomXY detectorLocation) as [distances distMag].
  destruct H as (Hl1 & Hl2 & Hnth). cbn [fst snd].
  destruct (Hnth i Hi) as [_ Hm]. rewrite Hm.
  set (dx := fst detectorLocation - fst (nth i phantomXY (0, 0))).
  set (dy := snd detectorLocation - snd (nth i phantomXY (0, 0))).
  destruct (distance_magnitude_bounds dx dy) as [Hx Hy].
  repeat split; auto.
  intros Hz. rewrite Hz in Hx, Hy.
  pose proof (Rabs_pos dx). pose proof (Rabs_pos dy).
  assert (Hdx : dx = 0).
  { destruct (Req_dec_T dx 0) as [E | N]; [exact E |].
    apply Rabs_pos_lt in N. lra. }
  assert (Hdy : dy = 0).
  { destruct (Req_dec_T dy 0) as [E | N]; [exact E |].
    apply Rabs_pos_lt in N. lra. }
  unfold dx, dy in *.
  destruct (nth i phantomXY (0, 0)) as [bx by_], detectorLocation as [cx cy].
  cbn [fst snd] in *. f_equal; lra.
Qed.

Lemma CalculateDistances_magnitudes_witness :
  length (fst (CalculateDistances [(0, 0); (3, 0)] (3, 4))) = length [(0, 0); (3, 0)] /\
  length (snd (CalculateDistances [(0, 0); (3, 0)] (3, 4))) = length [(0, 0); (3, 0)] /\
  Rabs (fst (3, 4) - fst (nth 0 [(0, 0); (3, 0)] (0, 0)))
  <= nth 0 (snd (CalculateDistances [(0, 0); (3, 0)] (3, 4))) 0 /\
  Rabs (snd (3, 4) - snd (nth 0 [(0, 0); (3, 0)] (0, 0)))
  <= nth 0 (snd (CalculateDistances [(0, 0); (3, 0)] (3, 4))) 0 /\
  (nth 0 (snd (CalculateDistances [(0, 0); (3, 0)] (3, 4))) 0 = 0 ->
   nth 0 [(0, 0); (3, 0)] (0, 0) = (3, 4)).
Proof.
  apply (CalculateDistances_magnitudes [(0, 0); (3, 0)] (3, 4) 0).
  simpl. lia.
Defined.

(** X14: in the geometry of the driver (the phantom of [CreatePhantom], the
    detector at [(350, 50)]) there is one distance per depth bin and every
    distance lies between the lateral offset [50] mm and [354] mm: all
    distances are strictly positive. *)
Theorem driver_distances :
  length (snd (CalculateDistances (snd CreatePhantom) (350, 50))) = 301%nat /\
  Forall (fun d => 50 <= d <= 354)
         (snd (CalculateDistances (snd CreatePhantom) (350, 50))).
Proof.
  rewrite CreatePhantom_snd, CreatePhantom_fst. unfold CalculateDistances. cbn [snd fst].
  rewrite !map_map. cbn [fst snd].
  split; [rewrite length_map, length_seq; reflexivity |]. rewrite Forall_forall. intros d Hd.
  apply in_map_iff in Hd. destruct Hd as (i & <- & Hi).
  apply in_seq in Hi.
  assert (H0 : 0 <= INR i) by apply pos_INR.
  assert (H1 : INR i <= 300).
  { rewrite <- INR_300. apply le_INR. lia. }
  split.
  - rewrite <- (sqrt_pow2 50) at 1 by lra.
    apply sqrt_le_1_alt. nra.
  - rewrite <- (sqrt_pow2 354) by lra.
    apply sqrt_le_1_alt. nra.
Qed.

(** ** [SimulateBurst]: rejected inputs and the burst without photons *)

Section BurstEdges.
Variable RS : RandomSource.

(** The counts are one signal draw plus one background draw of mean [2] per
    bin, the signal draws taken first, at means that the generator accepts. *)
Lemma detected_counts_structure (phantom distMag : ndarray)
      (peak pPB yiel dArea mu : R) (g : rng RS) :
  phantom <> [] -> length distMag = length phantom ->
  0 <= pPB -> 0 <= yiel -> 0 <= dArea ->
  Forall (fun d => d <> 0) distMag ->
  Forall (fun d => pPB * yiel * (dArea / (4 * PI * (d / 1000) ^ 2))
                    * exp (- mu * (d / 10)) <= POISSON_LAM_MAX) distMag ->
  exists mean,
    length mean = length phantom /\
    Forall (fun l => 0 <= l <= POISSON_LAM_MAX) mean /\
    detected_counts RS phantom distMag peak pPB yiel dArea mu g
    = Ok (zip_with Nat.add
            (fst (poisson_each RS mean g))
            (fst (poisson_each RS (repeat 2 (length phantom))
                               (snd (poisson_each RS mean g)))),
          snd (poisson_each RS (repeat 2 (length phantom))
                            (snd (poisson_each RS mean g)))).
Proof.
  intros Hne Hd HpPB Hyiel HdArea Hnz Hlim.
  unfold detected_counts, CreateBraggCurve_default.
  rewrite CreateBraggCurve_pointwise. cbn [bind].
  set (dose := map (bragg_dose_at peak 1.0 0.3 8 5) phantom).
  assert (Hdose : Forall (fun d => 0 < d) dose).
  { unfold dose. rewrite Forall_forall. intros d Hin.
    apply in_map_iff in Hin. destruct Hin as (z & <- & _).
    apply dose_at_pos; lra. }
  assert (Hdne : dose <> []).
  { unfold dose. destruct phantom; [congruence | discriminate]. }
  destruct (np_max_spec dose Hdne) as (m & Hm & Hle). rewrite Hm. cbn [bind].
  assert (Hmpos : 0 < m).
  { destruct dose as [| d0 dose']; [congruence |].
    inversion Hdose; subst. inversion Hle; subst. lra. }
  set (nEmit := map (fun d => pPB * yiel * d) (map (fun d => d / m) dose)).
  set (solid := map (fun d => dArea / (4 * PI * (d / 1000) ^ 2)) distMag).
  set (att := map (fun d => exp (- mu * (d / 10))) distMag).
  assert (HnE : Forall (fun x => 0 <= x) nEmit).
  { unfold nEmit. rewrite Forall_forall. intros x Hin.
    apply in_map_iff in Hin. destruct Hin as (y & <- & Hin).
    apply in_map_iff in Hin. destruct Hin as (d & <- & Hin).
    rewrite Forall_forall in Hdose. specialize (Hdose d Hin).
    assert (0 <= d / m) by (apply Rlt_le, Rdiv_lt_0_compat; lra).
    assert (0 <= pPB * yiel) by nra. nra. }
  assert (Hso : Forall (fun x => 0 <= x) solid).
  { unfold solid. rewrite Forall_forall. intros x Hin.
    apply in_map_iff in Hin. destruct Hin as (d & <- & Hin).
    rewrite Forall_forall in Hnz. specialize (Hnz d Hin).
    assert (0 < (d / 1000) ^ 2).
    { rewrite <- Rsqr_pow2. apply Rlt_0_sqr. lra. }
    pose proof PI_RGT_0.
    apply Rmult_le_pos; [lra |]. apply Rlt_le, Rinv_0_lt_compat. nra. }
  assert (Hat : Forall (fun x => 0 <= x) att).
  { unfold att. rewrite Forall_forall. intros x Hin.
    apply in_map_iff in Hin. destruct Hin as (d & <- & _).
    apply Rlt_le, exp_pos. }
  assert (Hl1 : length nEmit = length solid).
  { unfold nEmit, solid, dose. rewrite !length_map. lia. }
  rewrite (broadcast2_same_length Rmult nEmit solid Hl1). cbn [bind].
  assert (Hl2 : length (zip_with Rmult nEmit solid) = length att).
  { rewrite zip_with_length. unfold att. rewrite length_map.
    unfold nEmit, solid, dose in *. rewrite !length_map in *. lia. }
  rewrite (broadcast2_same_length Rmult _ att Hl2). cbn [bind].
  set (mean := zip_with Rmult (zip_with Rmult nEmit solid) att).
  assert (Hmean : Forall (fun x => 0 <= x) mean).
  { unfold mean.
    apply (zip_with_Forall3 Rmult (fun x => 0 <= x) (fun x => 0 <= x)); auto.
    - intros; nra.
    - apply (zip_with_Forall3 Rmult (fun x => 0 <= x) (fun x => 0 <= x)); auto.
      intros; nra. }
  assert (Hmlen : length mean = length phantom).
  { unfold mean. rewrite zip_with_length, Hl2, Nat.min_id.
    unfold att. rewrite length_map. exact Hd. }
  assert (Hmax : Forall (fun x => x <= POISSON_LAM_MAX) mean).
  { unfold mean, nEmit, solid, att.
    apply expected_counts_within_limit; assumption. }
  exists mean. split; [exact Hmlen |]. split.
  { rewrite Forall_forall in Hmean, Hmax |- *. intros x Hx.
    split; [apply Hmean | apply Hmax]; exact Hx. }
  rewrite (random_poisson_in_range RS mean g Hmean Hmax). cbn [bind].
  pose proof (poisson_each_length RS mean g) as Hk.
  destruct (poisson_each RS mean g) as [k g1]. cbn [fst snd] in *.
  rewrite random_poisson_background. cbn [bind]. rewrite Hk, Hmlen.
  destruct (poisson_each RS (repeat 2 (length phantom)) g1) as [bg g2].
  reflexivity.
Qed.

Lemma concat_repeat_zero (a : ndarray) (k : list nat) :
  Forall (fun n => n = 0%nat) k ->
  concat (zip_with (fun x n => repeat x n) a k) = [].
Proof.
  intros Hk. revert a. induction Hk as [| n k Hn _ IH]; intros [| x a];
    try reflexivity.
  subst n. cbn [zip_with concat repeat app]. apply IH.
Qed.

Lemma list_sum_pos_not_all_zero (k : list nat) :
  ~ Forall (fun n => n = 0%nat) k -> (0 < list_sum k)%nat.
Proof.
  induction k as [| n k IH]; intros H.
  - exfalso. apply H. constructor.
  - destruct n as [| n]; simpl; [| lia].
    apply IH. intros Hk. apply H. constructor; [reflexivity | exact Hk].
Qed.

End BurstEdges.

(** An empty depth axis is rejected before any variate is drawn: the
    dose profile is empty and taking its maximum raises [ValueError]. *)
Remark SimulateBurst_empty_axis
        (RS : RandomSource) (distMag : ndarray) (peak pPB yiel dArea mu : R)
        (tp : ndarray) (dTRes : R) (g : rng RS) :
  SimulateBurst RS [] distMag peak pPB yiel dArea mu tp dTRes g
  = Raise (ValueError "zero-size array to reduction operation maximum which has no identity") /\
  detected_counts RS [] distMag peak pPB yiel dArea mu g
  = Raise (ValueError "zero-size array to reduction operation maximum which has no identity").
Proof. split; reflexivity. Qed.

(** X15: a negative timing resolution is rejected, but only after the
    counts have been drawn: on otherwise well-formed input, whose expected
    counts the Poisson generator accepts (the emission at the peak, seen
    from each distance, is at most [POISSON_LAM_MAX]), [SimulateBurst]
    raises the [ValueError] of the normal generator. *)
Theorem SimulateBurst_negative_resolution
        (RS : RandomSource) (phantom distMag : ndarray)
        (peak pPB yiel dArea mu : R) (tp : ndarray) (dTRes : R) (g : rng RS) :
  phantom <> [] ->
  length distMag = length phantom ->
  length tp = length phantom ->
  0 <= pPB -> 0 <= yiel -> 0 <= dArea ->
  Forall (fun d => d <> 0) distMag ->
  Forall (fun d => pPB * yiel * (dArea / (4 * PI * (d / 1000) ^ 2))
                    * exp (- mu * (d / 10)) <= POISSON_LAM_MAX) distMag ->
  dTRes < 0 ->
  (exists k g1, detected_counts RS phantom distMag peak pPB yiel dArea mu g = Ok (k, g1)) /\
  SimulateBurst RS phantom distMag peak pPB yiel dArea mu tp dTRes g
  = Raise (ValueError "scale < 0").
Proof.
  intros Hne Hd Htp HpPB Hyiel HdArea Hnz Hlim Hres.
  destruct (detected_counts_returns RS phantom distMag peak pPB yiel dArea mu g
              Hne Hd HpPB Hyiel HdArea Hnz Hlim) as (k & g1 & Hk & Hklen).
  split; [eauto |].
  unfold SimulateBurst. rewrite Hk. cbn [bind].
  unfold base_times. rewrite broadcast2_same_length by (rewrite length_map; lia).
  cbn [bind]. unfold np_repeat.
  replace (length k =? _)%nat with true
    by (symmetry; apply Nat.eqb_eq; rewrite zip_with_length, length_map; lia).
  cbn [bind]. unfold random_normal, Rltb.
  destruct (Rlt_dec dTRes 0); [reflexivity | lra].
Qed.

Lemma SimulateBurst_negative_resolution_witness :
  (exists k g1, detected_counts counting_source [149; 150; 151] [200; 201; 202]
                                150 5e13 1e-4 0.0025 0.06 (0%nat) = Ok (k, g1)) /\
  SimulateBurst counting_source [149; 150; 151] [200; 201; 202]
                150 5e13 1e-4 0.0025 0.06 [1; 2; 3] (-1) (0%nat)
  = Raise (ValueError "scale < 0").
Proof.
  apply (SimulateBurst_negative_resolution counting_source [149; 150; 151] [200; 201; 202]
           150 5e13 1e-4 0.0025 0.06 [1; 2; 3] (-1) (0%nat)).
  - discriminate.
  - reflexivity.
  - reflexivity.
  - lra.
  - lra.
  - lra.
  - repeat constructor; lra.
  - repeat apply Forall_cons; try apply Forall_nil;
      apply (peak_emission_within_limit (5e13 * 1e-4));
      unfold POISSON_LAM_MAX; lra.
  - lra.
Defined.

(** X16: the burst is empty exactly when no photon was detected, and an
    empty burst cannot be reconstructed: on well-formed input, whose
    expected counts the Poisson generator accepts (the emission at the peak,
    seen from each distance, is at most [POISSON_LAM_MAX]), [SimulateBurst]
    returns the empty array if every drawn count is [0] and a non-empty one
    otherwise, and [Reconstruction] raises [ValueError] on the empty array
    whatever its other arguments. *)
Theorem SimulateBurst_without_photons
        (RS : RandomSource) (phantom distMag : ndarray)
        (peak pPB yiel dArea mu : R) (tp : ndarray) (dTRes : R) (g : rng RS) :
  phantom <> [] ->
  length distMag = length phantom ->
  length tp = length phantom ->
  0 <= pPB -> 0 <= yiel -> 0 <= dArea ->
  Forall (fun d => d <> 0) distMag ->
  Forall (fun d => pPB * yiel * (dArea / (4 * PI * (d / 1000) ^ 2))
                    * exp (- mu * (d / 10)) <= POISSON_LAM_MAX) distMag ->
  0 <= dTRes ->
  exists k g1 measuredTime g2,
    detected_counts RS phantom distMag peak pPB yiel dArea mu g = Ok (k, g1) /\
    SimulateBurst RS phantom distMag peak pPB yiel dArea mu tp dTRes g
    = Ok (measuredTime, g2) /\
    (Forall (fun n => n = 0%nat) k -> measuredTime = [] /\ g2 = g1) /\
    (~ Forall (fun n => n = 0%nat) k -> measuredTime <> []) /\
    (measuredTime = [] ->
     forall gammaTOF tBinWidth sigma aFactor,
     exists msg,
       Reconstruction phantom measuredTime tp gammaTOF tBinWidth sigma dArea
                      distMag aFactor
       = Raise (ValueError msg)).
Proof.
  intros Hne Hd Htp HpPB Hyiel HdArea Hnz Hlim Hres.
  destruct (detected_counts_returns RS phantom distMag peak pPB yiel dArea mu g
              Hne Hd HpPB Hyiel HdArea Hnz Hlim) as (k & g1 & Hk & Hklen).
  set (baseTime := zip_with Rplus (map (fun d => d / 3e8) distMag) tp).
  assert (Hblen : length baseTime = length phantom).
  { unfold baseTime. rewrite zip_with_length, length_map. lia. }
  set (events := concat (zip_with (fun b n => repeat b n) baseTime k)).
  assert (Hev : length events = list_sum k).
  { unfold events. apply concat_repeat_length. lia. }
  pose proof (normal_each_length RS 0 dTRes (length events) g1) as Hjlen.
  destruct (normal_each RS 0 dTRes (length events) g1) as [jitter g2] eqn:Hj.
  cbn [fst] in Hjlen.
  assert (Hrun : SimulateBurst RS phantom distMag peak pPB yiel dArea mu tp dTRes g
                 = Ok (zip_with Rplus events jitter, g2)).
  { unfold SimulateBurst. rewrite Hk. cbn [bind].
    unfold base_times. rewrite broadcast2_same_length by (rewrite length_map; lia).
    cbn [bind]. fold baseTime. unfold np_repeat.
    replace (length k =? length baseTime)%nat with true
      by (symmetry; apply Nat.eqb_eq; lia).
    cbn [bind]. fold events. unfold random_normal, Rltb.
    destruct (Rlt_dec dTRes 0); [lra |]. cbn [bind]. rewrite Hj. reflexivity. }
  exists k, g1, (zip_with Rplus events jitter), g2.
  split; [exact Hk |]. split; [exact Hrun |]. split; [| split].
  - intros Hz.
    assert (He : events = []) by (apply concat_repeat_zero; exact Hz).
    rewrite He in Hj |- *. cbn [length normal_each] in Hj.
    injection Hj as <- <-. split; reflexivity.
  - intros Hnz' E. apply list_sum_pos_not_all_zero in Hnz'.
    apply (f_equal (@length R)) in E.
    rewrite zip_with_length, Hev, Hjlen, Hev, Nat.min_id in E. simpl in E. lia.
  - intros E gammaTOF tBinWidth sigma aFactor. rewrite E.
    unfold Reconstruction, accumulate.
    destruct (broadcast2_cases Rplus tp gammaTOF) as [[tE HtE] | Hfail].
    + rewrite HtE. eexists. reflexivity.
    + rewrite Hfail. eexists. reflexivity.
Qed.

Lemma poisson_each_silent (lam : ndarray) (g : nat) :
  poisson_each silent_source lam g = (repeat 0%nat (length lam), (g + length lam)%nat).
Proof.
  revert g. induction lam as [| l lam IH]; intros g; cbn [poisson_each length repeat].
  - rewrite Nat.add_0_r. reflexivity.
  - cbn [silent_source poisson1]. rewrite IH. f_equal. lia.
Qed.

Lemma zip_add_zeros (a b : nat) :
  Forall (fun n => n = 0%nat) (zip_with Nat.add (repeat 0%nat a) (repeat 0%nat b)).
Proof.
  revert b. induction a as [| a IH]; intros [| b]; cbn [repeat zip_with];
    constructor; [reflexivity | apply IH].
Qed.

(** The witness runs the silent generator: its burst is empty. *)
Lemma SimulateBurst_without_photons_witness :
  exists g2,
    SimulateBurst silent_source [149; 150; 151] [200; 201; 202]
                  150 5e13 1e-4 0.0025 0.06 [1; 2; 3] 0.5e-9 (0%nat)
    = Ok ([], g2).
Proof.
  destruct (SimulateBurst_without_photons silent_source [149; 150; 151] [200; 201; 202]
              150 5e13 1e-4 0.0025 0.06 [1; 2; 3] 0.5e-9 (0%nat))
    as (k & g1 & ts & g2 & Hk & Hrun & Hzero & _ & _).
  - discriminate.
  - reflexivity.
  - reflexivity.
  - lra.
  - lra.
  - lra.
  - repeat constructor; lra.
  - repeat apply Forall_cons; try apply Forall_nil;
      apply (peak_emission_within_limit (5e13 * 1e-4));
      unfold POISSON_LAM_MAX; lra.
  - lra.
  - destruct (detected_counts_structure silent_source [149; 150; 151] [200; 201; 202]
                150 5e13 1e-4 0.0025 0.06 (0%nat))
      as (mean & Hmlen & _ & Hk').
    + discriminate.
    + reflexivity.
    + lra.
    + lra.
    + lra.
    + repeat constructor; lra.
    + repeat apply Forall_cons; try apply Forall_nil;
        apply (peak_emission_within_limit (5e13 * 1e-4));
        unfold POISSON_LAM_MAX; lra.
    + rewrite Hk in Hk'. rewrite !poisson_each_silent in Hk'. cbn [fst snd] in Hk'.
      injection Hk' as Hkeq _.
      assert (Hz : Forall (fun n => n = 0%nat) k).
      { rewrite Hkeq. apply (zip_add_zeros (length mean) 3). }
      destruct (Hzero Hz) as [Hts _]. exists g2. rewrite Hrun, Hts. reflexivity.
Defined.

(** ** [Reconstruction]: shape, sign and symmetry of the profile *)

Lemma search_sorted_inclusive_length (a v : ndarray) :
  length (search_sorted_inclusive a v) = length v.
Proof.
  unfold search_sorted_inclusive, last_slice.
  rewrite length_app, !length_map, removelast_length_pred.
  destruct v; simpl; lia.
Qed.

Lemma bin_counts_nonneg (a edges : ndarray) :
  Forall (fun count => (0 <= count)%Z) (bin_counts a edges).
Proof.
  induction edges as [| e0 rest IH]; [constructor |].
  destruct rest as [| e1 r]; [constructor |].
  cbn [bin_counts]. constructor; [apply Nat2Z.is_nonneg | exact IH].
Qed.

(** Any non-empty sample gets a histogram when the bin width is positive:
    as many counts as gaps between the edges, none of them negative. *)
Lemma time_histogram_returns (detectorData : ndarray) (tBinWidth : R) :
  detectorData <> [] -> 0 < tBinWidth ->
  exists tCounts tBinEdges,
    time_histogram detectorData tBinWidth = Ok (tCounts, tBinEdges) /\
    S (length tCounts) = length tBinEdges /\
    Forall (fun count => (0 <= count)%Z) tCounts.
Proof.
  intros Hne Hw.
  destruct (np_min_spec detectorData Hne) as (lo & Hmin & Hlo).
  destruct (np_max_spec detectorData Hne) as (hi & Hmax & Hhi).
  assert (Hlohi : lo <= hi).
  { destruct detectorData as [| x rest]; [congruence |].
    inversion Hlo; subst. inversion Hhi; subst. lra. }
  set (q := (hi + tBinWidth - lo) / tBinWidth).
  assert (Hq : 1 <= q).
  { unfold q. apply (Rmult_le_reg_r tBinWidth); [exact Hw |].
    unfold Rdiv. rewrite Rmult_assoc, Rinv_l by lra. lra. }
  pose proof (Zceil_bound q) as Hc.
  assert (Hc1 : (1 <= Zceil q)%Z).
  { assert (0 < Zceil q)%Z by (apply lt_IZR; lra). lia. }
  destruct (Z.to_nat (Zceil q)) as [| m] eqn:Hn; [lia |].
  set (edges := map (fun i => lo + INR i * tBinWidth) (seq 0 (S m))).
  assert (Hmono : monotonic edges = true) by (apply monotonic_arange; lra).
  exists (diffZ (search_sorted_inclusive detectorData edges)), edges.
  split; [| split].
  - unfold time_histogram. rewrite Hmin, Hmax. cbn [bind]. unfold np_arange.
    destruct (Req_dec_T tBinWidth 0) as [E | _]; [lra |].
    fold q. rewrite Hn. cbn [bind]. fold edges. unfold np_histogram.
    rewrite Hmono. reflexivity.
  - rewrite diffZ_length, search_sorted_inclusive_length.
    unfold edges. rewrite length_map, length_seq. lia.
  - rewrite np_histogram_bin_counts by exact Hmono. apply bin_counts_nonneg.
Qed.

Lemma reconstruction_loop_nonneg (tExpected : ndarray) (sigma : R)
      (bins : list (R * Z)) (reconstructed : ndarray) :
  tExpected <> [] ->
  length tExpected = length reconstructed ->
  Forall (fun b => (0 <= snd b)%Z) bins ->
  Forall (fun v => 0 <= v) reconstructed ->
  exists r,
    reconstruction_loop tExpected sigma bins reconstructed = Ok r /\
    length r = length reconstructed /\
    Forall (fun v => 0 <= v) r.
Proof.
  intros Hne Hlen Hbins. revert reconstructed Hlen.
  induction Hbins as [| [tBin count] bins Hc _ IH]; intros reconstructed Hlen Hrec.
  - exists reconstructed. repeat split; auto.
  - cbn [reconstruction_loop]. cbn [snd] in Hc.
    destruct (Z.eqb_spec count 0) as [E | E]; [apply IH; assumption |].
    set (w := gaussian_weights tExpected tBin sigma).
    assert (Hw : length (map (fun x => IZR count * x) w) = length reconstructed).
    { rewrite length_map. unfold w. rewrite gaussian_weights_length. exact Hlen. }
    rewrite (iadd_same_length _ _ Hw). cbn [bind].
    destruct (IH (zip_with Rplus reconstructed (map (fun x => IZR count * x) w)))
      as (r & Hr & Hl & Hpos).
    + rewrite zip_with_length, Hw, Nat.min_id. exact Hlen.
    + apply (zip_with_Forall3 Rplus (fun x => 0 <= x) (fun x => 0 <= x));
        [intros; lra | exact Hrec |].
      rewrite Forall_forall. intros x Hx. apply in_map_iff in Hx.
      destruct Hx as (y & <- & Hy).
      pose proof (gaussian_weights_pos tExpected tBin sigma Hne) as Hwp.
      rewrite Forall_forall in Hwp. specialize (Hwp y Hy).
      assert (0 <= IZR count) by (apply IZR_le; exact Hc). nra.
    + exists r. split; [exact Hr |]. split; [| exact Hpos].
      rewrite Hl, zip_with_length, Hw, Nat.min_id. reflexivity.
Qed.

Lemma accumulate_returns_nonneg (phantom detectorData tp gammaTOF : ndarray)
      (tBinWidth sigma : R) :
  detectorData <> [] -> 0 < tBinWidth -> phantom <> [] ->
  length tp = length phantom -> length gammaTOF = length phantom ->
  exists reconstructed,
    accumulate phantom detectorData tp gammaTOF tBinWidth sigma = Ok reconstructed /\
    length reconstructed = length phantom /\
    Forall (fun v => 0 <= v) reconstructed.
Proof.
  intros Hne Hw Hp Htp Hg.
  destruct (time_histogram_returns detectorData tBinWidth Hne Hw)
    as (tCounts & tBinEdges & Hh & Hlen & Hpos).
  unfold accumulate.
  rewrite broadcast2_same_length by congruence. cbn [bind].
  rewrite Hh. cbn [bind].
  destruct (reconstruction_loop_nonneg (zip_with Rplus tp gammaTOF) sigma
              (combine
                 (zip_with (fun a b => (a + b) / 2) (removelast tBinEdges) (tl tBinEdges))
                 tCounts)
              (map (fun _ => 0) phantom))
    as (r & Hr & Hl & Hrpos).
  - intros E. apply (f_equal (@length R)) in E.
    rewrite zip_with_length in E. destruct phantom; [congruence |].
    simpl in *. lia.
  - rewrite zip_with_length, !length_map. lia.
  - apply (combine_snd_Forall (fun c => (0 <= c)%Z)). exact Hpos.
  - rewrite Forall_forall. intros v Hv. apply in_map_iff in Hv.
    destruct Hv as (x & <- & _). lra.
  - exists r. split; [exact Hr |]. split; [| exact Hrpos].
    rewrite Hl, length_map. reflexivity.
Qed.

Lemma sensitivity_pos (dArea : R) (distMag : ndarray) :
  0 < dArea -> Forall (fun d => d <> 0) distMag ->
  Forall (fun s => 0 < s) (map (fun d => dArea / (4 * PI * (d / 1000) ^ 2)) distMag).
Proof.
  intros HdArea Hnz. rewrite Forall_forall. intros x Hin.
  apply in_map_iff in Hin. destruct Hin as (d & <- & Hin).
  rewrite Forall_forall in Hnz. specialize (Hnz d Hin).
  assert (0 < (d / 1000) ^ 2).
  { rewrite <- Rsqr_pow2. apply Rlt_0_sqr. lra. }
  pose proof PI_RGT_0.
  apply Rdiv_lt_0_compat; [lra | nra].
Qed.

Lemma zip_with_div_nonneg (a b : ndarray) :
  Forall (fun v => 0 <= v) a -> Forall (fun s => 0 < s) b ->
  Forall (fun v => 0 <= v) (zip_with Rdiv a b).
Proof.
  apply (zip_with_Forall3 Rdiv (fun v => 0 <= v) (fun s => 0 < s)).
  intros x y Hx Hy. unfold Rdiv.
  apply Rmult_le_pos; [exact Hx |]. apply Rlt_le, Rinv_0_lt_compat. exact Hy.
Qed.

(** X18: in exact real arithmetic, for a non-empty sample, a positive bin
    width, a non-zero [sigma] (the weights divide by [2 * sigma ^ 2]), a
    non-empty depth axis with aligned [tp], [gammaTOF] and [distMag], a
    positive detector area, non-zero distances and a positive attenuation
    factor, [Reconstruction] returns a profile with one entry per depth bin
    and no negative entry. *)
Theorem Reconstruction_profile_nonneg
        (phantom detectorData tp gammaTOF : ndarray) (tBinWidth sigma dArea : R)
        (distMag : ndarray) (aFactor : operand) :
  detectorData <> [] -> 0 < tBinWidth -> sigma <> 0 -> phantom <> [] ->
  length tp = length phantom ->
  length gammaTOF = length phantom ->
  length distMag = length phantom ->
  0 < dArea ->
  Forall (fun d => d <> 0) distMag ->
  match aFactor with
  | Scalar x => 0 < x
  | Array a => length a = length phantom /\ Forall (fun x => 0 < x) a
  end ->
  exists correctedRecon,
    Reconstruction phantom detectorData tp gammaTOF tBinWidth sigma dArea distMag aFactor
    = Ok correctedRecon /\
    length correctedRecon = length phantom /\
    Forall (fun v => 0 <= v) correctedRecon.
Proof.
  intros Hne Hw Hsigma Hp Htp Hg Hd HdArea Hnz Ha.
  destruct (accumulate_returns_nonneg phantom detectorData tp gammaTOF tBinWidth sigma
              Hne Hw Hp Htp Hg) as (r & Hr & Hl & Hpos).
  unfold Reconstruction. rewrite Hr. cbn [bind].
  pose proof (sensitivity_pos dArea distMag HdArea Hnz) as Hs.
  set (sensitivity := map (fun d => dArea / (4 * PI * (d / 1000) ^ 2)) distMag) in *.
  assert (Hsl : length sensitivity = length phantom).
  { unfold sensitivity. rewrite length_map. exact Hd. }
  destruct aFactor as [x | a]; cbn [mul_operand bind].
  - rewrite broadcast2_same_length by (rewrite length_map; lia). cbn [bind].
    eexists. split; [reflexivity |]. split.
    + rewrite zip_with_length, length_map. lia.
    + apply zip_with_div_nonneg; [exact Hpos |].
      rewrite Forall_forall. intros v Hv. apply in_map_iff in Hv.
      destruct Hv as (s & <- & Hin). rewrite Forall_forall in Hs.
      specialize (Hs s Hin). nra.
  - destruct Ha as [Hla Hap].
    rewrite (broadcast2_same_length Rmult) by lia. cbn [bind].
    rewrite broadcast2_same_length by (rewrite zip_with_length; lia). cbn [bind].
    eexists. split; [reflexivity |]. split.
    + rewrite !zip_with_length. lia.
    + apply zip_with_div_nonneg; [exact Hpos |].
      apply (zip_with_Forall3 Rmult (fun s => 0 < s) (fun s => 0 < s));
        [intros; nra | exact Hs | exact Hap].
Qed.

Lemma Reconstruction_profile_nonneg_witness :
  exists correctedRecon,
    Reconstruction [0; 1] [5; 6; 6] [0; 1] [2; 1] 1 1 0.0025 [300; 200] (Scalar 1)
    = Ok correctedRecon /\
    length correctedRecon = length [0; 1] /\
    Forall (fun v => 0 <= v) correctedRecon.
Proof.
  apply (Reconstruction_profile_nonneg [0; 1] [5; 6; 6] [0; 1] [2; 1] 1 1 0.0025
           [300; 200] (Scalar 1)).
  - discriminate.
  - lra.
  - lra.
  - discriminate.
  - reflexivity.
  - reflexivity.
  - reflexivity.
  - lra.
  - repeat constructor; lra.
  - simpl. lra.
Defined.

(** [accumulate_conserves_counts] on the sample of the example above. *)
Lemma accumulate_conserves_counts_witness :
  exists reconstructed,
    accumulate [0; 1] [5; 6; 6] [0; 1] [2; 1] 1 1 = Ok reconstructed /\
    length reconstructed = length [0; 1] /\
    np_sum reconstructed = INR (length [5; 6; 6]).
Proof.
  apply (accumulate_conserves_counts [0; 1] [5; 6; 6] [0; 1] [2; 1] 1 1).
  - lra.
  - lra.
  - exists 5, 6. simpl. repeat split; auto. lra.
  - discriminate.
  - reflexivity.
  - reflexivity.
Defined.

Lemma fold_left_Rmin_In (rest : ndarray) (acc : R) :
  fold_left Rmin rest acc = acc \/ In (fold_left Rmin rest acc) rest.
Proof.
  revert acc. induction rest as [| y rest IH]; intros acc; simpl; [left; reflexivity |].
  destruct (IH (Rmin acc y)) as [E | Hin]; [| right; right; exact Hin].
  rewrite E. unfold Rmin. destruct (Rle_dec acc y); [left; reflexivity | right; left; reflexivity].
Qed.

Lemma np_min_characterized (a : ndarray) (lo : R) :
  np_min a = Ok lo <-> (In lo a /\ Forall (fun y => lo <= y) a).
Proof.
  destruct a as [| x rest]; cbn [np_min].
  - split; [discriminate | intros [[] _]].
  - destruct (fold_left_Rmin_spec rest x) as [Hx Hall].
    assert (Hin : In (fold_left Rmin rest x) (x :: rest)).
    { destruct (fold_left_Rmin_In rest x) as [E | H];
        [left; symmetry; exact E | right; exact H]. }
    split.
    + intros H. injection H as <-. split; [exact Hin |]. constructor; assumption.
    + intros [Hlo Hle]. f_equal.
      rewrite Forall_forall in Hle. specialize (Hle _ Hin).
      assert (fold_left Rmin rest x <= lo).
      { destruct Hlo as [E | Hlo]; [subst; exact Hx |].
        rewrite Forall_forall in Hall. apply Hall, Hlo. }
      lra.
Qed.

Lemma np_max_characterized (a : ndarray) (hi : R) :
  np_max a = Ok hi <-> (In hi a /\ Forall (fun y => y <= hi) a).
Proof.
  destruct a as [| x rest]; cbn [np_max].
  - split; [discriminate | intros [[] _]].
  - destruct (fold_left_Rmax_spec rest x) as [Hx Hall].
    assert (Hin : In (fold_left Rmax rest x) (x :: rest)).
    { destruct (fold_left_Rmax_In rest x) as [E | H];
        [left; symmetry; exact E | right; exact H]. }
    split.
    + intros H. injection H as <-. split; [exact Hin |]. constructor; assumption.
    + intros [Hhi Hle]. f_equal.
      rewrite Forall_forall in Hle. specialize (Hle _ Hin).
      assert (hi <= fold_left Rmax rest x).
      { destruct Hhi as [E | Hhi]; [subst; exact Hx |].
        rewrite Forall_forall in Hall. apply Hall, Hhi. }
      lra.
Qed.

Lemma np_min_Permutation (a b : ndarray) :
  Permutation a b -> np_min a = np_min b.
Proof.
  intros Hp. destruct (np_min a) as [lo | e] eqn:Ha.
  - symmetry. apply np_min_characterized. apply np_min_characterized in Ha.
    destruct Ha as [Hin Hle]. split.
    + eapply Permutation_in; eassumption.
    + eapply Permutation_Forall; eassumption.
  - destruct a as [| x a]; [| discriminate].
    apply Permutation_nil in Hp. subst. exact (eq_sym Ha).
Qed.

Lemma np_max_Permutation (a b : ndarray) :
  Permutation a b -> np_max a = np_max b.
Proof.
  intros Hp. destruct (np_max a) as [hi | e] eqn:Ha.
  - symmetry. apply np_max_characterized. apply np_max_characterized in Ha.
    destruct Ha as [Hin Hle]. split.
    + eapply Permutation_in; eassumption.
    + eapply Permutation_Forall; eassumption.
  - destruct a as [| x a]; [| discriminate].
    apply Permutation_nil in Hp. subst. exact (eq_sym Ha).
Qed.

Lemma filter_length_Permutation (p : R -> bool) (a b : ndarray) :
  Permutation a b -> length (filter p a) = length (filter p b).
Proof.
  intros Hp. induction Hp as [| x a b _ IH | x y a | a b c _ IH1 _ IH2]; simpl.
  - reflexivity.
  - destruct (p x); simpl; lia.
  - destruct (p x), (p y); reflexivity.
  - lia.
Qed.

Lemma time_histogram_Permutation (a b : ndarray) (tBinWidth : R) :
  Permutation a b -> time_histogram a tBinWidth = time_histogram b tBinWidth.
Proof.
  intros Hp. unfold time_histogram.
  rewrite (np_min_Permutation a b Hp), (np_max_Permutation a b Hp).
  destruct (np_min b) as [lo | e]; [| reflexivity]. cbn [bind].
  destruct (np_max b) as [hi | e]; [| reflexivity]. cbn [bind].
  destruct (np_arange lo (hi + tBinWidth) tBinWidth) as [bins | e]; [| reflexivity].
  cbn [bind]. unfold np_histogram.
  assert (H : search_sorted_inclusive a bins = search_sorted_inclusive b bins).
  { unfold search_sorted_inclusive. f_equal.
    - apply map_ext. intros v. unfold searchsorted_left.
      rewrite (filter_length_Permutation _ a b Hp). reflexivity.
    - apply map_ext. intros v. unfold searchsorted_right.
      rewrite (filter_length_Permutation _ a b Hp). reflexivity. }
  rewrite H. reflexivity.
Qed.

(** X20: the timestamps are a multiset to [Reconstruction]: reordering them
    changes neither the profile nor the error it raises. *)
Theorem Reconstruction_order_independent
        (phantom detectorData detectorData' tp gammaTOF : ndarray)
        (tBinWidth sigma dArea : R) (distMag : ndarray) (aFactor : operand) :
  Permutation detectorData detectorData' ->
  Reconstruction phantom detectorData tp gammaTOF tBinWidth sigma dArea distMag aFactor
  = Reconstruction phantom detectorData' tp gammaTOF tBinWidth sigma dArea distMag aFactor.
Proof.
  intros Hp. unfold Reconstruction, accumulate.
  rewrite (time_histogram_Permutation detectorData detectorData' tBinWidth Hp).
  reflexivity.
Qed.

Lemma Reconstruction_order_independent_witness :
  Reconstruction [0; 1] [5; 6; 7] [0; 1] [2; 1] 1 1 0.0025 [300; 200] (Scalar 1)
  = Reconstruction [0; 1] [6; 5; 7] [0; 1] [2; 1] 1 1 0.0025 [300; 200] (Scalar 1).
Proof.
  apply (Reconstruction_order_independent [0; 1] [5; 6; 7] [6; 5; 7]).
  apply perm_swap.
Defined.

(** X21: the back-projection favours the depths whose expected time is
    closest to the bin centre.  In exact real arithmetic, with a non-zero
    [sigma], of two depth bins the one whose expected time is not farther
    from [tBin] gets a weight that is not smaller; a strictly nearer one
    gets the strictly larger weight, and equally distant ones get equal
    weights.  (In doubles the weights of far bins underflow to [0.0] and
    tie: of the three statements the strict one does not carry over.) *)
Theorem gaussian_weights_favour_nearest
        (tExpected : ndarray) (tBin sigma : R) (i j : nat) :
  sigma <> 0 ->
  (i < length tExpected)%nat -> (j < length tExpected)%nat ->
  (Rabs (nth i tExpected 0 - tBin) <= Rabs (nth j tExpected 0 - tBin) ->
   nth j (gaussian_weights tExpected tBin sigma) 0
   <= nth i (gaussian_weights tExpected tBin sigma) 0) /\
  (Rabs (nth i tExpected 0 - tBin) < Rabs (nth j tExpected 0 - tBin) ->
   nth j (gaussian_weights tExpected tBin sigma) 0
   < nth i (gaussian_weights tExpected tBin sigma) 0) /\
  (Rabs (nth i tExpected 0 - tBin) = Rabs (nth j tExpected 0 - tBin) ->
   nth j (gaussian_weights tExpected tBin sigma) 0
   = nth i (gaussian_weights tExpected tBin sigma) 0).
Proof.
  intros Hs Hi Hj.
  assert (Hne : tExpected <> []) by (destruct tExpected; [simpl in Hi; lia | discriminate]).
  set (raw := fun t => exp ((- (Rabs (t - tBin) ^ 2)) / (2 * sigma ^ 2))).
  assert (Hraw : map (fun d => exp ((- (d ^ 2)) / (2 * sigma ^ 2)))
                     (map (fun t => Rabs (t - tBin)) tExpected)
                 = map raw tExpected) by (rewrite map_map; reflexivity).
  unfold gaussian_weights. cbv zeta. rewrite Hraw.
  set (total := np_sum (map raw tExpected)).
  assert (Htot : 0 < total).
  { unfold total. apply np_sum_pos.
    - destruct tExpected; [congruence | discriminate].
    - rewrite Forall_forall. intros w Hw. apply in_map_iff in Hw.
      destruct Hw as (t & <- & _). apply exp_pos. }
  assert (Hnth : forall k, (k < length tExpected)%nat ->
                           nth k (map (fun w => w / total) (map raw tExpected)) 0
                           = raw (nth k tExpected 0) / total).
  { intros k Hk. rewrite map_map.
    rewrite (nth_indep _ 0 ((fun x => raw x / total) 0)) by (rewrite length_map; exact Hk).
    rewrite (map_nth (fun x => raw x / total)). reflexivity. }
  rewrite (Hnth i Hi), (Hnth j Hj).
  assert (Hw : 0 < / (2 * sigma ^ 2)).
  { apply Rinv_0_lt_compat.
    assert (0 < sigma ^ 2) by (rewrite <- Rsqr_pow2; apply Rlt_0_sqr; exact Hs). lra. }
  assert (Hstrict : Rabs (nth i tExpected 0 - tBin) < Rabs (nth j tExpected 0 - tBin) ->
                    raw (nth j tExpected 0) / total < raw (nth i tExpected 0) / total).
  { intros Hlt.
    apply Rmult_lt_compat_r; [apply Rinv_0_lt_compat; exact Htot |].
    unfold raw. apply exp_increasing. unfold Rdiv.
    apply Rmult_lt_compat_r; [exact Hw |].
    pose proof (Rabs_pos (nth i tExpected 0 - tBin)). nra. }
  assert (Hequal : Rabs (nth i tExpected 0 - tBin) = Rabs (nth j tExpected 0 - tBin) ->
                   raw (nth j tExpected 0) / total = raw (nth i tExpected 0) / total).
  { intros Heq. unfold raw. rewrite Heq. reflexivity. }
  split; [| split; assumption].
  intros [Hlt | Heq].
  - apply Rlt_le, Hstrict. exact Hlt.
  - right. apply Hequal. exact Heq.
Qed.

Lemma gaussian_weights_favour_nearest_witness :
  (Rabs (nth 1 [0; 1; 3] 0 - 1) <= Rabs (nth 2 [0; 1; 3] 0 - 1) ->
   nth 2 (gaussian_weights [0; 1; 3] 1 0.5) 0
   <= nth 1 (gaussian_weights [0; 1; 3] 1 0.5) 0) /\
  (Rabs (nth 1 [0; 1; 3] 0 - 1) < Rabs (nth 2 [0; 1; 3] 0 - 1) ->
   nth 2 (gaussian_weights [0; 1; 3] 1 0.5) 0
   < nth 1 (gaussian_weights [0; 1; 3] 1 0.5) 0) /\
  (Rabs (nth 1 [0; 1; 3] 0 - 1) = Rabs (nth 2 [0; 1; 3] 0 - 1) ->
   nth 2 (gaussian_weights [0; 1; 3] 1 0.5) 0
   = nth 1 (gaussian_weights [0; 1; 3] 1 0.5) 0).
Proof.
  apply (gaussian_weights_favour_nearest [0; 1; 3] 1 0.5 1 2).
  - lra.
  - simpl. lia.
  - simpl. lia.
Defined.

Lemma reconstruction_loop_misaligned (tExpected : ndarray) (sigma : R)
      (bins : list (R * Z)) (reconstructed : ndarray) :
  length tExpected <> length reconstructed ->
  length tExpected <> 1%nat ->
  Exists (fun b => snd b <> 0%Z) bins ->
  reconstruction_loop tExpected sigma bins reconstructed
  = Raise (ValueError
             (if (length reconstructed =? 1)%nat
              then "non-broadcastable output operand"
              else "operands could not be broadcast together")).
Proof.
  intros Hlen H1 Hex.
  induction bins as [| [tBin count] bins IH]; [inversion Hex |].
  cbn [reconstruction_loop].
  destruct (Z.eqb_spec count 0) as [E | E].
  - apply IH. inversion Hex as [? ? Hnow | ? ? Hlater]; subst; [| exact Hlater].
    cbn [snd] in Hnow. congruence.
  - unfold iadd.
    pose proof (gaussian_weights_length tExpected tBin sigma) as Hw.
    set (x := map (fun w => IZR count * w) (gaussian_weights tExpected tBin sigma)).
    assert (Hx : length x = length tExpected) by (unfold x; rewrite length_map; exact Hw).
    replace (length x =? length reconstructed)%nat with false
      by (symmetry; apply Nat.eqb_neq; lia).
    destruct x as [| v [| v' x']]; cbn [length] in Hx;
      [| exfalso; lia |];
      destruct (length reconstructed =? 1)%nat; reflexivity.
Qed.

Lemma np_sum_IZR_nonzero (c : list Z) :
  np_sum (map IZR c) <> 0 -> Exists (fun count => count <> 0%Z) c.
Proof.
  induction c as [| x c IH]; cbn [map].
  - rewrite np_sum_nil. intros H. congruence.
  - rewrite np_sum_cons. intros H.
    destruct (Z.eq_dec x 0) as [E | N]; [| left; exact N].
    right. apply IH. subst x. lra.
Qed.

Lemma combine_snd_Exists {A B : Type} (P : B -> Prop) (a : list A) (b : list B) :
  length a = length b -> Exists P b -> Exists (fun ab => P (snd ab)) (combine a b).
Proof.
  intros Hlen Hex. revert a Hlen.
  induction Hex as [y b Hy | y b _ IH]; intros [| x a] Hlen; simpl in Hlen;
    try discriminate; cbn [combine].
  - left. exact Hy.
  - right. apply IH. lia.
Qed.

(** X22: expected times that do not fit the depth axis are fatal: when [tp]
    and [gammaTOF] agree in length but that length is neither the number of
    depth bins nor [1], a sample with two distinct timestamps makes
    [Reconstruction] raise [ValueError] at the first non-empty time bin.
    The in-place addition reports that the operands could not be broadcast
    together; only on a depth axis of a single bin, which would have to
    grow, does it report a non-broadcastable output operand. *)
Theorem Reconstruction_misaligned_expected_times
        (phantom detectorData tp gammaTOF : ndarray) (tBinWidth sigma dArea : R)
        (distMag : ndarray) (aFactor : operand) :
  0 < tBinWidth ->
  (exists x y, In x detectorData /\ In y detectorData /\ x < y) ->
  length tp = length gammaTOF ->
  length tp <> length phantom ->
  length tp <> 1%nat ->
  Reconstruction phantom detectorData tp gammaTOF tBinWidth sigma dArea distMag aFactor
  = Raise (ValueError
             (if (length phantom =? 1)%nat
              then "non-broadcastable output operand"
              else "operands could not be broadcast together")).
Proof.
  intros Hw Htwo Hlen Hmis H1.
  destruct (time_histogram_total detectorData tBinWidth Hw Htwo)
    as (tCounts & tBinEdges & Hh & Hl & Hsum).
  unfold Reconstruction, accumulate.
  rewrite broadcast2_same_length by exact Hlen. cbn [bind].
  rewrite Hh. cbn [bind].
  rewrite reconstruction_loop_misaligned;
    [rewrite length_map; reflexivity | | |].
  - rewrite zip_with_length, length_map. lia.
  - rewrite zip_with_length. lia.
  - apply (combine_snd_Exists (fun c => c <> 0%Z)).
    + rewrite zip_with_length, removelast_length_pred.
      destruct tBinEdges; simpl in *; lia.
    + apply np_sum_IZR_nonzero. rewrite Hsum.
      destruct Htwo as (x & _ & Hx & _).
      destruct detectorData; [inversion Hx |].
      apply not_0_INR. discriminate.
Qed.

Lemma Reconstruction_misaligned_expected_times_witness :
  Reconstruction [0; 1; 2] [5; 6] [0; 1] [2; 1] 1 1 0.0025 [300; 200; 100] (Scalar 1)
  = Raise (ValueError "operands could not be broadcast together").
Proof.
  apply (Reconstruction_misaligned_expected_times [0; 1; 2] [5; 6] [0; 1] [2; 1]).
  - lra.
  - exists 5, 6. simpl. repeat split; auto. lra.
  - reflexivity.
  - simpl. lia.
  - simpl. lia.
Defined.

(** ** The driver: peak estimate and one burst *)

Lemma argmax_from_spec (a pre : ndarray) (best : nat) :
  (best < length pre)%nat ->
  (forall j, (j < length pre)%nat -> nth j pre 0 <= nth best pre 0) ->
  (forall j, (j < best)%nat -> nth j pre 0 < nth best pre 0) ->
  let r := argmax_from a (length pre) best (nth best pre 0) in
  (r < length (pre ++ a))%nat /\
  (forall j, (j < length (pre ++ a))%nat -> nth j (pre ++ a) 0 <= nth r (pre ++ a) 0) /\
  (forall j, (j < r)%nat -> nth j (pre ++ a) 0 < nth r (pre ++ a) 0).
Proof.
  revert pre best. induction a as [| x a IH]; intros pre best Hb Hmax Hfirst.
  - cbn [argmax_from]. rewrite app_nil_r. auto.
  - cbn [argmax_from].
    replace (pre ++ x :: a) with ((pre ++ [x]) ++ a) by (rewrite <- app_assoc; reflexivity).
    assert (HS : S (length pre) = length (pre ++ [x]))
      by (rewrite length_app; simpl; lia).
    unfold Rltb. destruct (Rlt_dec (nth best pre 0) x) as [Hlt | Hge].
    + assert (Hx : nth (length pre) (pre ++ [x]) 0 = x).
      { rewrite app_nth2 by lia. rewrite Nat.sub_diag. reflexivity. }
      assert (H : let r := argmax_from a (length (pre ++ [x])) (length pre)
                             (nth (length pre) (pre ++ [x]) 0) in
                  (r < length ((pre ++ [x]) ++ a))%nat /\
                  (forall j, (j < length ((pre ++ [x]) ++ a))%nat ->
                             nth j ((pre ++ [x]) ++ a) 0 <= nth r ((pre ++ [x]) ++ a) 0) /\
                  (forall j, (j < r)%nat ->
                             nth j ((pre ++ [x]) ++ a) 0 < nth r ((pre ++ [x]) ++ a) 0)).
      { apply IH.
        - rewrite length_app. simpl. lia.
        - intros j Hj. rewrite Hx. rewrite length_app in Hj. simpl in Hj.
          destruct (Nat.eq_dec j (length pre)) as [E | N].
          + subst j. rewrite Hx. lra.
          + rewrite app_nth1 by lia. specialize (Hmax j ltac:(lia)). lra.
        - intros j Hj. rewrite Hx, app_nth1 by lia.
          specialize (Hmax j Hj). lra. }
      rewrite Hx, <- HS in H. exact H.
    + assert (Hbn : nth best (pre ++ [x]) 0 = nth best pre 0)
        by (apply app_nth1; exact Hb).
      assert (H : let r := argmax_from a (length (pre ++ [x])) best
                             (nth best (pre ++ [x]) 0) in
                  (r < length ((pre ++ [x]) ++ a))%nat /\
                  (forall j, (j < length ((pre ++ [x]) ++ a))%nat ->
                             nth j ((pre ++ [x]) ++ a) 0 <= nth r ((pre ++ [x]) ++ a) 0) /\
                  (forall j, (j < r)%nat ->
                             nth j ((pre ++ [x]) ++ a) 0 < nth r ((pre ++ [x]) ++ a) 0)).
      { apply IH.
        - rewrite length_app. simpl. lia.
        - intros j Hj. rewrite Hbn. rewrite length_app in Hj. simpl in Hj.
          destruct (Nat.eq_dec j (length pre)) as [E | N].
          + subst j. rewrite app_nth2 by lia. rewrite Nat.sub_diag. simpl. lra.
          + rewrite app_nth1 by lia. apply Hmax. lia.
        - intros j Hj. rewrite Hbn, app_nth1 by lia. apply Hfirst, Hj. }
      rewrite Hbn, <- HS in H. exact H.
Qed.

Lemma np_argmax_spec (a : ndarray) :
  a <> [] ->
  exists i,
    np_argmax a = Ok i /\ (i < length a)%nat /\
    (forall j, (j < length a)%nat -> nth j a 0 <= nth i a 0) /\
    (forall j, (j < i)%nat -> nth j a 0 < nth i a 0).
Proof.
  destruct a as [| x a]; [congruence |]. intros _.
  exists (argmax_from a 1 0 x). split; [reflexivity |].
  apply (argmax_from_spec a [x] 0).
  - simpl. lia.
  - intros j Hj. simpl in Hj. assert (j = 0)%nat by lia. subst. simpl. lra.
  - intros j Hj. lia.
Qed.

(** X24: the peak estimate of the driver is the depth of the first bin at
    which the reconstruction is largest, with its distance to the target
    depth [150]; without any reconstructed value, [np.argmax] raises
    [ValueError]. *)
Theorem peak_estimate_is_first_maximum (phantom reconstruction : ndarray) :
  length reconstruction = length phantom ->
  (reconstruction = [] ->
   exists msg, peak_estimate phantom reconstruction = Raise (ValueError msg)) /\
  (reconstruction <> [] ->
   exists i,
     (i < length phantom)%nat /\
     peak_estimate phantom reconstruction
     = Ok (nth i phantom 0, Rabs (nth i phantom 0 - 150)) /\
     (forall j, (j < length phantom)%nat ->
                nth j reconstruction 0 <= nth i reconstruction 0) /\
     (forall j, (j < i)%nat -> nth j reconstruction 0 < nth i reconstruction 0)).
Proof.
  intros Hlen. split.
  - intros E. subst. eexists. reflexivity.
  - intros Hne.
    destruct (np_argmax_spec reconstruction Hne) as (i & Hi & Hlt & Hmax & Hfirst).
    exists i. split; [lia |]. split; [| split].
    + unfold peak_estimate. rewrite Hi. cbn [bind]. unfold getitem.
      rewrite (nth_error_nth' phantom 0) by lia. reflexivity.
    + intros j Hj. apply Hmax. lia.
    + exact Hfirst.
Qed.

Lemma peak_estimate_is_first_maximum_witness :
  (([1; 3; 3] : ndarray) = [] ->
   exists msg, peak_estimate [149; 150; 151] [1; 3; 3] = Raise (ValueError msg)) /\
  (([1; 3; 3] : ndarray) <> [] ->
   exists i,
     (i < length [149; 150; 151])%nat /\
     peak_estimate [149; 150; 151] [1; 3; 3]
     = Ok (nth i [149; 150; 151] 0, Rabs (nth i [149; 150; 151] 0 - 150)) /\
     (forall j, (j < length [149; 150; 151])%nat ->
                nth j [1; 3; 3] 0 <= nth i [1; 3; 3] 0) /\
     (forall j, (j < i)%nat -> nth j [1; 3; 3] 0 < nth i [1; 3; 3] 0)).
Proof.
  apply (peak_estimate_is_first_maximum [149; 150; 151] [1; 3; 3]).
  reflexivity.
Defined.

Lemma ProtonTime_returns_aligned (velocities phantom : ndarray) :
  velocities <> [] -> length velocities = length phantom ->
  exists tp, ProtonTime velocities phantom = Ok tp /\ length tp = length phantom.
Proof.
  intros Hne Hlen. rewrite (ProtonTime_unfold velocities phantom Hne Hlen).
  eexists. split; [reflexivity |].
  cbn [length]. rewrite cumsum_from_length, !zip_with_length, np_diff_length,
    removelast_length_pred, length_map.
  destruct velocities as [| v0 vr]; [congruence |].
  cbn [map tl length] in *. rewrite length_map. lia.
Qed.

Lemma SimulateBurst_returns (RS : RandomSource) (phantom distMag : ndarray)
      (peak pPB yiel dArea mu : R) (tp : ndarray) (dTRes : R) (g : rng RS) :
  phantom <> [] ->
  length distMag = length phantom ->
  length tp = length phantom ->
  0 <= pPB -> 0 <= yiel -> 0 <= dArea ->
  Forall (fun d => d <> 0) distMag ->
  Forall (fun d => pPB * yiel * (dArea / (4 * PI * (d / 1000) ^ 2))
                    * exp (- mu * (d / 10)) <= POISSON_LAM_MAX) distMag ->
  0 <= dTRes ->
  exists measuredTime g2,
    SimulateBurst RS phantom distMag peak pPB yiel dArea mu tp dTRes g
    = Ok (measuredTime, g2).
Proof.
  intros Hne Hd Htp HpPB Hyiel HdArea Hnz Hlim Hres.
  destruct (detected_counts_returns RS phantom distMag peak pPB yiel dArea mu g
              Hne Hd HpPB Hyiel HdArea Hnz Hlim) as (k & g1 & Hk & Hklen).
  unfold SimulateBurst. rewrite Hk. cbn [bind].
  unfold base_times. rewrite broadcast2_same_length by (rewrite length_map; lia).
  cbn [bind]. unfold np_repeat.
  replace (length k =? _)%nat with true
    by (symmetry; apply Nat.eqb_eq; rewrite zip_with_length, length_map; lia).
  cbn [bind]. unfold random_normal, Rltb.
  destruct (Rlt_dec dTRes 0); [lra |]. cbn [bind].
  destruct (normal_each RS 0 dTRes _ g1) as [jitter g2].
  eexists. eexists. reflexivity.
Qed.

Lemma driver_distances_nonzero :
  length (snd (CalculateDistances (snd CreatePhantom) (350, 50))) = 301%nat /\
  Forall (fun d => d <> 0) (snd (CalculateDistances (snd CreatePhantom) (350, 50))).
Proof.
  rewrite CreatePhantom_snd, CreatePhantom_fst. unfold CalculateDistances. cbn [snd fst].
  rewrite !map_map. cbn [fst snd].
  split; [rewrite length_map, length_seq; reflexivity |].
  rewrite Forall_forall. intros d Hd.
  apply in_map_iff in Hd. destruct Hd as (i & <- & _).
  destruct (distance_magnitude_bounds (350 - INR i) (50 - 0)) as [_ Hy].
  rewrite Rabs_right in Hy by lra. lra.
Qed.

(** Every depth bin of the driver is at least [50] mm from the detector,
    so the expected counts of the driver stay far below the largest mean of
    the Poisson generator. *)
Lemma driver_expected_counts_within_limit :
  Forall (fun d => 5e13 * 1e-4 * (0.0025 / (4 * PI * (d / 1000) ^ 2))
                   * exp (- (0.06) * (d / 10)) <= POISSON_LAM_MAX)
         (snd (CalculateDistances (snd CreatePhantom) (350, 50))).
Proof.
  rewrite CreatePhantom_snd, CreatePhantom_fst. unfold CalculateDistances. cbn [snd fst].
  rewrite !map_map. cbn [fst snd].
  rewrite Forall_forall. intros d Hd.
  apply in_map_iff in Hd. destruct Hd as (i & <- & _).
  destruct (distance_magnitude_bounds (350 - INR i) (50 - 0)) as [_ Hy].
  rewrite Rabs_right in Hy by lra.
  apply (peak_emission_within_limit (5e13 * 1e-4));
    unfold POISSON_LAM_MAX; lra.
Qed.

Lemma Main_burst_unfold (RS : RandomSource) (energies : dict) (g : rng RS) :
  Main_burst RS energies g
  = (vel <- velocities energies (fst CreatePhantom) 145.722222 ;;
     tp <- ProtonTime vel (fst CreatePhantom) ;;
     '(detectorData, g) <-
       SimulateBurst RS (fst CreatePhantom)
                     (snd (CalculateDistances (snd CreatePhantom) (350, 50)))
                     150 5e13 1e-4 0.0025 0.06 tp 0.5e-9 g ;;
     reconstruction <-
       Reconstruction (fst CreatePhantom) detectorData tp
         (map (fun d => d / 3e8) (snd (CalculateDistances (snd CreatePhantom) (350, 50))))
         0.05e-9 0.5e-9 0.0025
         (snd (CalculateDistances (snd CreatePhantom) (350, 50)))
         (Array (map (fun d => exp (- (0.06) * (d / 10)))
                     (snd (CalculateDistances (snd CreatePhantom) (350, 50))))) ;;
     '(peakPosition, peakError) <- peak_estimate (fst CreatePhantom) reconstruction ;;
     Ok (peakPosition, peakError, g)).
Proof. reflexivity. Qed.

(** X25: one burst of the driver.  With an energy table that covers the 301
    depths of the phantom, whatever the generator draws, the burst either
    raises the [ValueError] of [min] on an empty array (no photon was
    detected, so the reconstruction has no timestamp to bin) or reports as
    peak one of the integer depths [0 .. 300], with an error that is its
    distance to [150] and therefore at most [150] mm.  No [KeyError],
    [IndexError], shape mismatch or rejected Poisson mean can occur. *)
Theorem Main_burst_outcome (RS : RandomSource) (energies : dict) (g : rng RS) :
  Forall (fun z => dict_get energies z <> None) (map INR (seq 0 301)) ->
  Main_burst RS energies g
  = Raise (ValueError "zero-size array to reduction operation minimum which has no identity") \/
  (exists i g',
     (i <= 300)%nat /\
     Main_burst RS energies g = Ok (INR i, Rabs (INR i - 150), g') /\
     Rabs (INR i - 150) <= 150).
Proof.
  intros Hk. rewrite Main_burst_unfold.
  pose proof CreatePhantom_fst as Hax.
  destruct driver_distances_nonzero as [Hdl Hdnz].
  set (phantom := fst CreatePhantom) in *.
  set (distMag := snd (CalculateDistances (snd CreatePhantom) (350, 50))) in *.
  assert (Hpl : length phantom = 301%nat).
  { rewrite Hax, length_map, length_seq. reflexivity. }
  assert (Hpne : phantom <> []).
  { intros E. rewrite E in Hpl. discriminate. }
  rewrite <- Hax in Hk.
  (* kinematics *)
  destruct (velocities_loop_total energies 145.722222 phantom [] Hk) as [v0 Hv0].
  destruct (velocities_loop_nth energies 145.722222 phantom [] v0 Hv0) as (Hl0 & _ & _).
  cbn [length] in Hl0.
  rewrite (velocities_override energies phantom 145.722222 v0 Hv0) by lia.
  cbn [bind].
  set (vel := replace_nth (replace_nth v0 0 (0.662 * 3e8)) 1 (0.662 * 3e8)).
  assert (Hvl : length vel = length phantom).
  { unfold vel. rewrite !replace_nth_length. lia. }
  destruct (ProtonTime_returns_aligned vel phantom) as (tp & Htp & Htl).
  { intros E. rewrite E in Hvl. simpl in Hvl. lia. }
  { exact Hvl. }
  rewrite Htp. cbn [bind].
  (* the burst *)
  destruct (SimulateBurst_returns RS phantom distMag 150 5e13 1e-4 0.0025 0.06 tp 0.5e-9 g)
    as (ts & g1 & Hts); try lra; try lia; try assumption.
  { exact driver_expected_counts_within_limit. }
  rewrite Hts. cbn [bind].
  destruct ts as [| t ts].
  - left. unfold Reconstruction, accumulate.
    rewrite broadcast2_same_length by (rewrite length_map; lia).
    reflexivity.
  - right.
    assert (Hacc : exists r,
               accumulate phantom (t :: ts) tp (map (fun d => d / 3e8) distMag)
                          0.05e-9 0.5e-9 = Ok r /\
               length r = length phantom).
    { destruct (accumulate_returns_nonneg phantom (t :: ts) tp
                  (map (fun d => d / 3e8) distMag) 0.05e-9 0.5e-9)
        as (r & Hr & Hrl & _).
      - discriminate.
      - lra.
      - exact Hpne.
      - exact Htl.
      - rewrite length_map. lia.
      - exists r. split; assumption. }
    destruct Hacc as (r & Hr & Hrl).
    unfold Reconstruction. rewrite Hr. cbn [bind mul_operand].
    rewrite (broadcast2_same_length Rmult) by (rewrite !length_map; reflexivity).
    cbn [bind].
    rewrite broadcast2_same_length by (rewrite zip_with_length, !length_map; lia).
    cbn [bind].
    set (corrected := zip_with Rdiv r _).
    assert (Hcl : length corrected = length phantom).
    { unfold corrected. rewrite !zip_with_length, !length_map. lia. }
    destruct (np_argmax_spec corrected) as (i & Hi & Hlt & _ & _).
    { intros E. rewrite E in Hcl. simpl in Hcl. lia. }
    exists i, g1.
    assert (Hi300 : (i <= 300)%nat) by lia.
    assert (Hnth : nth_error phantom i = Some (INR i)).
    { rewrite (nth_error_nth' phantom 0) by lia. f_equal.
      rewrite Hax.
      rewrite (nth_indep _ 0 (INR 0)) by (rewrite length_map, length_seq; lia).
      rewrite map_nth, seq_nth by lia. reflexivity. }
    split; [exact Hi300 |]. split.
    + unfold peak_estimate. rewrite Hi. cbn [bind]. unfold getitem.
      rewrite Hnth. reflexivity.
    + assert (0 <= INR i) by apply pos_INR.
      assert (INR i <= 300) by (rewrite <- INR_300; apply le_INR; lia).
      apply Rabs_le. lra.
Qed.

Lemma Main_burst_outcome_witness :
  Main_burst counting_source (map (fun i => (INR i, INR i)) (seq 0 301)) (0%nat)
  = Raise (ValueError "zero-size array to reduction operation minimum which has no identity") \/
  (exists i g',
     (i <= 300)%nat /\
     Main_burst counting_source (map (fun i => (INR i, INR i)) (seq 0 301)) (0%nat)
     = Ok (INR i, Rabs (INR i - 150), g') /\
     Rabs (INR i - 150) <= 150).
Proof.
  apply (Main_burst_outcome counting_source
           (map (fun i => (INR i, INR i)) (seq 0 301)) (0%nat)).
  rewrite Forall_forall. intros z Hz.
  apply dict_get_In. rewrite map_map. cbn [fst]. exact Hz.
Defined.

(** ** Shape mismatch in the burst, and shifting the clock *)

Lemma broadcast2_mismatch (f : R -> R -> R) (a b : ndarray) :
  length a <> length b -> length a <> 1%nat -> length b <> 1%nat ->
  broadcast2 f a b = Raise (ValueError "operands could not be broadcast together").
Proof.
  intros Hab Ha Hb. unfold broadcast2.
  replace (length a =? length b)%nat with false by (symmetry; apply Nat.eqb_neq; exact Hab).
  destruct a as [| x [| x' a]]; destruct b as [| y [| y' b]]; simpl in *;
    try reflexivity; lia.
Qed.

(** X17: distances that do not fit the depth axis are fatal to the burst:
    when the number of distances is neither the number of depth bins nor
    [1] (and the axis has more than one bin), [SimulateBurst] raises the
    broadcasting [ValueError] before any variate is drawn. *)
Theorem SimulateBurst_misaligned_distances
        (RS : RandomSource) (phantom distMag : ndarray)
        (peak pPB yiel dArea mu : R) (tp : ndarray) (dTRes : R) (g : rng RS) :
  length distMag <> length phantom ->
  length distMag <> 1%nat ->
  (1 < length phantom)%nat ->
  SimulateBurst RS phantom distMag peak pPB yiel dArea mu tp dTRes g
  = Raise (ValueError "operands could not be broadcast together") /\
  detected_counts RS phantom distMag peak pPB yiel dArea mu g
  = Raise (ValueError "operands could not be broadcast together").
Proof.
  intros Hmis H1 Hp.
  assert (Hc : detected_counts RS phantom distMag peak pPB yiel dArea mu g
               = Raise (ValueError "operands could not be broadcast together")).
  { unfold detected_counts, CreateBraggCurve_default.
    rewrite CreateBraggCurve_pointwise. cbn [bind].
    destruct (np_max_spec (map (bragg_dose_at peak 1.0 0.3 8 5) phantom))
      as (m & Hm & _).
    { destruct phantom; [simpl in Hp; lia | discriminate]. }
    rewrite Hm. cbn [bind].
    rewrite broadcast2_mismatch; [reflexivity | | |]; rewrite !length_map; lia. }
  split; [| exact Hc].
  unfold SimulateBurst. rewrite Hc. reflexivity.
Qed.

Lemma SimulateBurst_misaligned_distances_witness :
  SimulateBurst counting_source [149; 150; 151] [200; 201]
                150 5e13 1e-4 0.0025 0.06 [1; 2; 3] 0.5e-9 (0%nat)
  = Raise (ValueError "operands could not be broadcast together") /\
  detected_counts counting_source [149; 150; 151] [200; 201]
                  150 5e13 1e-4 0.0025 0.06 (0%nat)
  = Raise (ValueError "operands could not be broadcast together").
Proof.
  apply (SimulateBurst_misaligned_distances counting_source [149; 150; 151] [200; 201]
           150 5e13 1e-4 0.0025 0.06 [1; 2; 3] 0.5e-9 (0%nat)); simpl; lia.
Defined.

(** ** More protons than the Poisson generator can count *)

Lemma nth_map_in_range (f : R -> R) (l : ndarray) (i : nat) (d : R) :
  (i < length l)%nat -> nth i (map f l) d = f (nth i l d).
Proof.
  intros Hi. rewrite (nth_indep (map f l) d (f d)) by (rewrite length_map; exact Hi).
  apply map_nth.
Qed.

(** X26: the burst has an upper limit.  A depth bin located exactly at the
    Bragg position has the normalised dose [1], so its expected count is the
    emission [pPB * yiel] times the solid-angle fraction and the attenuation
    at its distance; when that exceeds the largest mean of the Poisson
    generator, [SimulateBurst] raises [ValueError] at the signal draw,
    whatever the other bins are. *)
Theorem SimulateBurst_too_many_protons
        (RS : RandomSource) (phantom distMag : ndarray)
        (peak pPB yiel dArea mu : R) (tp : ndarray) (dTRes : R) (g : rng RS)
        (i : nat) :
  length distMag = length phantom ->
  (i < length phantom)%nat ->
  nth i phantom 0 = peak ->
  POISSON_LAM_MAX
  < pPB * yiel * (dArea / (4 * PI * (nth i distMag 0 / 1000) ^ 2))
    * exp (- mu * (nth i distMag 0 / 10)) ->
  detected_counts RS phantom distMag peak pPB yiel dArea mu g
  = Raise (ValueError "lam value too large") /\
  SimulateBurst RS phantom distMag peak pPB yiel dArea mu tp dTRes g
  = Raise (ValueError "lam value too large").
Proof.
  intros Hd Hi Hpk Hbig.
  assert (Hc : detected_counts RS phantom distMag peak pPB yiel dArea mu g
               = Raise (ValueError "lam value too large")).
  { unfold detected_counts, CreateBraggCurve_default.
    rewrite CreateBraggCurve_pointwise. cbn [bind].
    set (dose_at := bragg_dose_at peak 1.0 0.3 8 5).
    assert (Hpeak : dose_at peak = 1.0 + 0.3).
    { unfold dose_at. rewrite dose_at_peak by lra. lra. }
    assert (Hm : np_max (map dose_at phantom) = Ok (1.0 + 0.3)).
    { apply np_max_attained.
      - rewrite Forall_forall. intros v Hv. apply in_map_iff in Hv.
        destruct Hv as (z & <- & _). apply dose_at_le_peak; lra.
      - apply in_map_iff. exists peak. split; [exact Hpeak |].
        rewrite <- Hpk. apply nth_In. exact Hi. }
    rewrite Hm. cbn [bind]. rewrite !map_map.
    rewrite broadcast2_same_length by (rewrite !length_map; lia). cbn [bind].
    rewrite broadcast2_same_length
      by (rewrite zip_with_length, !length_map; lia).
    cbn [bind].
    rewrite random_poisson_too_large; [reflexivity |].
    apply Exists_exists.
    match goal with
    | |- exists x, In x ?mean /\ _ => exists (nth i mean 0)
    end.
    split.
    - apply nth_In. rewrite !zip_with_length, !length_map. lia.
    - rewrite (zip_with_nth Rmult _ _ i 0 0 0)
        by (rewrite ?zip_with_length, !length_map; lia).
      rewrite (zip_with_nth Rmult _ _ i 0 0 0) by (rewrite !length_map; lia).
      rewrite !nth_map_in_range by lia.
      rewrite Hpk, Hpeak.
      replace ((1.0 + 0.3) / (1.0 + 0.3)) with 1 by (field; lra).
      rewrite Rmult_1_r. exact Hbig. }
  split; [exact Hc |].
  unfold SimulateBurst. rewrite Hc. reflexivity.
Qed.

(** The witness is a burst of [1e30] protons seen from [10] mm. *)
Lemma SimulateBurst_too_many_protons_witness :
  detected_counts counting_source [149; 150; 151] [10; 10; 10]
                  150 1e30 1e-4 0.0025 0.06 (0%nat)
  = Raise (ValueError "lam value too large") /\
  SimulateBurst counting_source [149; 150; 151] [10; 10; 10]
                150 1e30 1e-4 0.0025 0.06 [1; 2; 3] 0.5e-9 (0%nat)
  = Raise (ValueError "lam value too large").
Proof.
  apply (SimulateBurst_too_many_protons counting_source [149; 150; 151] [10; 10; 10]
           150 1e30 1e-4 0.0025 0.06 [1; 2; 3] 0.5e-9 (0%nat) 1%nat).
  - reflexivity.
  - simpl. lia.
  - reflexivity.
  - cbn [nth].
    pose proof (exp_ineq1_le (- (0.06) * (10 / 10))) as He.
    pose proof PI_4 as Hpi4. pose proof PI_RGT_0 as Hpi0.
    set (a := exp (- (0.06) * (10 / 10))) in *.
    assert (Hs : 1 <= 0.0025 / (4 * PI * (10 / 1000) ^ 2)).
    { replace (4 * PI * (10 / 1000) ^ 2) with (PI / 2500) by field.
      apply Rmult_le_reg_r with (PI / 2500); [lra |].
      replace (0.0025 / (PI / 2500) * (PI / 2500)) with 0.0025 by (field; lra).
      lra. }
    set (sa := 0.0025 / (4 * PI * (10 / 1000) ^ 2)) in *.
    unfold POISSON_LAM_MAX.
    assert (Ha : 0.94 <= a) by lra.
    assert (Hsa : 0.94 <= sa * a) by nra.
    replace (1e30 * 1e-4 * sa * a) with (1e30 * 1e-4 * (sa * a)) by ring.
    nra.
Defined.

Lemma last_map_comm {A B : Type} (f : A -> B) (l : list A) (d : A) :
  last (map f l) (f d) = f (last l d).
Proof.
  induction l as [| x [| y l] IH]; try reflexivity.
  change (last (map f (y :: l)) (f d) = f (last (y :: l) d)). exact IH.
Qed.

Section ClockShift.
Variable c : R.

Lemma np_min_shift (a : ndarray) (lo : R) :
  np_min a = Ok lo -> np_min (map (fun t => t + c) a) = Ok (lo + c).
Proof.
  intros H. apply np_min_characterized in H. destruct H as [Hin Hle].
  apply np_min_characterized. split.
  - apply in_map_iff. exists lo. split; [reflexivity | exact Hin].
  - rewrite Forall_forall in *. intros y Hy. apply in_map_iff in Hy.
    destruct Hy as (t & <- & Ht). specialize (Hle t Ht). lra.
Qed.

Lemma np_max_shift (a : ndarray) (hi : R) :
  np_max a = Ok hi -> np_max (map (fun t => t + c) a) = Ok (hi + c).
Proof.
  intros H. apply np_max_characterized in H. destruct H as [Hin Hle].
  apply np_max_characterized. split.
  - apply in_map_iff. exists hi. split; [reflexivity | exact Hin].
  - rewrite Forall_forall in *. intros y Hy. apply in_map_iff in Hy.
    destruct Hy as (t & <- & Ht). specialize (Hle t Ht). lra.
Qed.

Lemma monotonic_shift (edges : ndarray) :
  monotonic (map (fun t => t + c) edges) = monotonic edges.
Proof.
  induction edges as [| x rest IH]; [reflexivity |].
  destruct rest as [| y rest]; [reflexivity |].
  change (negb (Rltb (y + c) (x + c)) && monotonic (map (fun t => t + c) (y :: rest))
          = negb (Rltb y x) && monotonic (y :: rest)).
  rewrite IH. f_equal. f_equal. unfold Rltb.
  destruct (Rlt_dec (y + c) (x + c)), (Rlt_dec y x); try reflexivity; lra.
Qed.

Lemma filter_length_shift (p q : R -> bool) (a : ndarray) :
  (forall t, q (t + c) = p t) ->
  length (filter q (map (fun t => t + c) a)) = length (filter p a).
Proof.
  intros H. induction a as [| t a IH]; [reflexivity |].
  cbn [map filter]. rewrite H. destruct (p t); simpl; rewrite IH; reflexivity.
Qed.

Lemma search_sorted_inclusive_shift (a v : ndarray) :
  search_sorted_inclusive (map (fun t => t + c) a) (map (fun t => t + c) v)
  = search_sorted_inclusive a v.
Proof.
  unfold search_sorted_inclusive. f_equal.
  - assert (Hr : removelast (map (fun t => t + c) v)
                 = map (fun t => t + c) (removelast v)).
    { induction v as [| x [| y v] IH]; try reflexivity.
      change (x + c :: removelast (map (fun t => t + c) (y :: v))
              = x + c :: map (fun t => t + c) (removelast (y :: v))).
      rewrite IH. reflexivity. }
    rewrite Hr, map_map. apply map_ext. intros e. unfold searchsorted_left.
    rewrite (filter_length_shift (fun x => Rltb x e)); [reflexivity |].
    intros t. unfold Rltb.
    destruct (Rlt_dec (t + c) (e + c)), (Rlt_dec t e); try reflexivity; lra.
  - assert (Hl : last_slice (map (fun t => t + c) v)
                 = map (fun t => t + c) (last_slice v)).
    { destruct v as [| x v]; [reflexivity |].
      unfold last_slice. cbn [map]. f_equal.
      change (x + c :: map (fun t => t + c) v) with (map (fun t => t + c) (x :: v)).
      rewrite (last_indep _ 0 (0 + c)) by discriminate.
      apply (last_map_comm (fun t => t + c)). }
    rewrite Hl, map_map. apply map_ext. intros e. unfold searchsorted_right.
    rewrite (filter_length_shift (fun x => Rleb x e)); [reflexivity |].
    intros t. unfold Rleb.
    destruct (Rle_dec (t + c) (e + c)), (Rle_dec t e); try reflexivity; lra.
Qed.

Lemma time_histogram_shift (a : ndarray) (tBinWidth : R) :
  time_histogram (map (fun t => t + c) a) tBinWidth
  = '(tCounts, tBinEdges) <- time_histogram a tBinWidth ;;
    Ok (tCounts, map (fun t => t + c) tBinEdges).
Proof.
  unfold time_histogram.
  destruct (np_min a) as [lo | e] eqn:Hmin.
  - rewrite (np_min_shift a lo Hmin). cbn [bind].
    destruct (np_max a) as [hi | e] eqn:Hmax.
    + rewrite (np_max_shift a hi Hmax). cbn [bind]. unfold np_arange.
      destruct (Req_dec_T tBinWidth 0) as [Ez | Nz]; [reflexivity |].
      replace (hi + c + tBinWidth - (lo + c)) with (hi + tBinWidth - lo) by ring.
      cbn [bind].
      set (num := Z.to_nat (Zceil ((hi + tBinWidth - lo) / tBinWidth))).
      assert (He : map (fun i => lo + c + INR i * tBinWidth) (seq 0 num)
                   = map (fun t => t + c)
                         (map (fun i => lo + INR i * tBinWidth) (seq 0 num))).
      { rewrite map_map. apply map_ext. intros i. ring. }
      rewrite He. unfold np_histogram.
      rewrite monotonic_shift, search_sorted_inclusive_shift.
      destruct (monotonic _); reflexivity.
    + destruct a as [| x a]; [discriminate | discriminate].
  - destruct a as [| x a]; [| discriminate].
    cbn [np_min] in Hmin. injection Hmin as <-. reflexivity.
Qed.

Lemma gaussian_weights_shift (tExpected : ndarray) (tBin sigma : R) :
  gaussian_weights (map (fun t => t + c) tExpected) (tBin + c) sigma
  = gaussian_weights tExpected tBin sigma.
Proof.
  unfold gaussian_weights. cbv zeta.
  assert (H : map (fun t => Rabs (t - (tBin + c))) (map (fun t => t + c) tExpected)
              = map (fun t => Rabs (t - tBin)) tExpected).
  { rewrite map_map. apply map_ext. intros t. f_equal. ring. }
  rewrite H. reflexivity.
Qed.

Lemma reconstruction_loop_shift (tExpected : ndarray) (sigma : R)
      (bins : list (R * Z)) (reconstructed : ndarray) :
  reconstruction_loop (map (fun t => t + c) tExpected) sigma
                      (map (fun b => (fst b + c, snd b)) bins) reconstructed
  = reconstruction_loop tExpected sigma bins reconstructed.
Proof.
  revert reconstructed. induction bins as [| [tBin count] bins IH]; intros reconstructed;
    [reflexivity |].
  cbn [map fst snd reconstruction_loop].
  destruct (count =? 0)%Z; [apply IH |].
  rewrite gaussian_weights_shift.
  destruct (iadd reconstructed _) as [r | e]; cbn [bind]; [apply IH | reflexivity].
Qed.

Lemma bin_centres_shift (edges : ndarray) (counts : list Z) :
  combine (zip_with (fun a b => (a + b) / 2)
                    (removelast (map (fun t => t + c) edges))
                    (tl (map (fun t => t + c) edges))) counts
  = map (fun b => (fst b + c, snd b))
        (combine (zip_with (fun a b => (a + b) / 2) (removelast edges) (tl edges)) counts).
Proof.
  revert counts. induction edges as [| x rest IH]; intros counts; [reflexivity |].
  destruct rest as [| y rest]; [reflexivity |].
  change (combine ((x + c + (y + c)) / 2
                   :: zip_with (fun a b => (a + b) / 2)
                        (removelast (map (fun t => t + c) (y :: rest)))
                        (tl (map (fun t => t + c) (y :: rest)))) counts
          = map (fun b => (fst b + c, snd b))
                (combine ((x + y) / 2
                          :: zip_with (fun a b => (a + b) / 2)
                               (removelast (y :: rest)) (tl (y :: rest))) counts)).
  destruct counts as [| n counts]; [reflexivity |].
  cbn [combine map fst snd]. rewrite IH. f_equal. f_equal. field.
Qed.

End ClockShift.

(** X23: only time differences matter: adding one and the same offset to
    every timestamp and to every proton time [tp] leaves the result of
    [Reconstruction], profile or error, unchanged, when [tp] and [gammaTOF]
    have the same length. *)
Theorem Reconstruction_clock_shift
        (c : R) (phantom detectorData tp gammaTOF : ndarray)
        (tBinWidth sigma dArea : R) (distMag : ndarray) (aFactor : operand) :
  length tp = length gammaTOF ->
  Reconstruction phantom (map (fun t => t + c) detectorData)
                 (map (fun t => t + c) tp) gammaTOF
                 tBinWidth sigma dArea distMag aFactor
  = Reconstruction phantom detectorData tp gammaTOF
                   tBinWidth sigma dArea distMag aFactor.
Proof.
  intros Hlen. unfold Reconstruction. f_equal. unfold accumulate.
  rewrite !broadcast2_same_length by (rewrite ?length_map; exact Hlen).
  cbn [bind]. rewrite time_histogram_shift.
  destruct (time_histogram detectorData tBinWidth) as [[tCounts tBinEdges] | e];
    [| reflexivity].
  cbn [bind]. rewrite bin_centres_shift.
  assert (HtE : zip_with Rplus (map (fun t => t + c) tp) gammaTOF
                = map (fun t => t + c) (zip_with Rplus tp gammaTOF)).
  { clear. revert gammaTOF. induction tp as [| t tp IH]; intros [| y gammaTOF];
      try reflexivity.
    cbn [map zip_with]. rewrite IH. f_equal. ring. }
  rewrite HtE. apply reconstruction_loop_shift.
Qed.

Lemma Reconstruction_clock_shift_witness :
  Reconstruction [0; 1] (map (fun t => t + 10) [5; 6; 7])
                 (map (fun t => t + 10) [0; 1]) [2; 1] 1 1 0.0025 [300; 200] (Scalar 1)
  = Reconstruction [0; 1] [5; 6; 7] [0; 1] [2; 1] 1 1 0.0025 [300; 200] (Scalar 1).
Proof.
  apply (Reconstruction_clock_shift 10 [0; 1] [5; 6; 7] [0; 1] [2; 1]).
  reflexivity.
Defined.
